(* ===== verification/_CoqProject ===== *)
-Q . S2P
Prelude.v
PyStr.v
Counter.v
Ngrams.v
Probability.v
Score.v
Regex.v
Tokenizer.v
Normalizer.v
Serializer.v
Pipeline.v
NgramsTp.v
Agreement.v
