(* ===== verification/Prelude.v ===== *)
(** * Verification of the n-gram estimation pipelines of keyboard_suggestion

    The repository holds two batch programs that turn text into n-gram
    frequency tables and probability estimates, written as JSON files:

    - [src/keyboard_suggestion/amazigh/pipeline.py]: [clean_text],
      [tokenize], [build_ngrams], [calculate_probabilities] (add-one
      smoothed negative log-probability) and [process_corpus], which chains
      them for the orders 1 to 5 and is called on a fixed file at import;
    - [src/keyboard_suggestion/ngrams_tp.py]: [simple_tokenize],
      [read_sentences_file], [process_text_to_tokens],
      [calculate_probabilities] (relative frequency), [ngram_to_string],
      [process_language], which chains them with nltk's [FreqDist] and
      [ngrams], and the main loop over [FILE_PATHS].

    Data flows forward only: text, cleaned text, tokens, grams, count
    tables, probability tables, string-keyed tables.  Every function is
    modelled as an executable definition that carries the name of the
    function; a Python exception is a value of the [result] monad.

    ** Files, in the order of their dependencies

    - [Prelude] (this file): Python exceptions [exn] and the [result]
      monad with its loops [foldM] and [mapR], the notation scope
      [py_scope], the tactics and hint databases of the development, and
      the list lemmas the components share: occurrence counting [occ],
      first-occurrence deduplication [nub], integer sums [sumZ].
    - [PyStr]: the Python values the programs compute with.  A character is
      a Unicode code point ([N]), a [str] a list of code points;
      [isspace], [split], [strip], [join], slices with negative indices,
      [range], [enumerate], the order of strings and [sorted].  The
      relation [words_of] specifies [split]: the words of a text, each a
      maximal run of characters that are not whitespace.
    - [Counter]: Python's insertion-ordered [dict] and
      [collections.Counter] (nltk's [FreqDist] is a subclass with the same
      [update]) as an association list in first-insertion order, with its
      key-uniqueness invariant [dict_wf], the equivalence [dict_equiv] of
      tables up to order with its [Proper] instances, and the refinement
      [counter_abs] to finite multisets.
    - [Ngrams]: [build_ngrams] of pipeline.py, the sliding window of
      nltk.util.ngrams, their equality, and the relation between the grams
      of consecutive orders.
    - [Probability]: both [calculate_probabilities] functions, in the
      Modules [Laplace] and [MLE], over exact rationals; the logarithm is
      the interface [NegLog], implemented here symbolically ([score]).
    - [Score]: the implementation of [NegLog] over the real numbers, which
      gives the scores their sign and order: a score is negative exactly
      when [count + 1] exceeds [prefix_count + vocab_size].
    - [Regex]: a backtracking matcher for the fragment of Python's [re] the
      patterns of the programs use, [re_sub] and [re_findall], and the
      language [lang] of a pattern, which the matcher is proved to
      implement.
    - [Tokenizer]: [tokenize], [simple_tokenize], [process_text_to_tokens]
      and [read_sentences_file].  [str.lower] and the class [\w] are the
      interface [Unicode]; [ascii_unicode] implements it exactly on ASCII
      text.  [simple_tokenize] is proved equal to a direct lexer, [lex].
    - [Normalizer]: [clean_text] as its six substitutions and the final
      [strip]; what each markup pattern matches ([match_at_tag],
      [match_at_template], [match_at_link], [match_at_extlink]) and what its
      substitution does to the first piece of markup; the output of
      [clean_text] is characterised ([clean]) and it is idempotent.
    - [Serializer]: [ngram_to_string] and the dict comprehensions that
      build the string-keyed tables.
    - [Pipeline]: [process_corpus] of pipeline.py, its closed form
      ([process_corpus_eq]) and what it guarantees.
    - [NgramsTp]: [process_language] and the main loop of ngrams_tp.py,
      the closed form [language_tables] and what they guarantee.
    - [Agreement]: on the same tokens the two programs write the same
      count tables.

    ** What the theorems show

    - Functional behaviour: what each function returns on every input,
      errors included ([build_ngrams] for every integer order, [Counter] as
      the table of occurrence counts, both estimators entry by entry, the
      tokenizers, the sentence reader, the serializer).
    - Invariants: tables have distinct keys and positive counts; counts add
      up to the number of grams; the context of every gram is counted one
      order down; cleaned text is made of words of allowed characters
      separated by single spaces.
    - Errors: neither pipeline raises once its input is read, although both
      call code that can divide by zero; which exceptions of reading are
      handled and which abort the run.
    - Bounds: relative frequencies lie in [0, 1]; smoothed scores over
      the reals are at least 0 on the tables of the pipeline; on tables
      in general a score is negative exactly when the count of the gram,
      plus one, exceeds the count of its context plus the number of lower
      keys.
    - Refinement and equivalence: the matcher implements the language of
      the pattern; a counter stands for the multiset of what it counted;
      [build_ngrams] and nltk's [ngrams] agree; the smoothed estimate does
      not depend on the order of the lower table; [sorted] does not depend
      on the iteration order of the set it is given.

    ** Bounds and fuel

    One definition takes fuel: the repetition of the matcher, [star_go].
    An iteration that consumes no character is discarded, so the length of
    the text bounds the number of iterations and is the fuel [matches]
    passes; [star_go_fuel] shows that more fuel changes nothing.  [re_sub]
    and [re_findall] recurse on the text left after a match, by
    well-founded recursion on its length.  Everything else is structural.
    Python integers are unbounded and modelled by [Z]; indices and orders
    keep their sign, so slices and [range] are modelled for negative
    arguments too.

    ** What is idealised or left out

    Python floats are modelled by exact rationals (the quotient of two
    integers) and by real numbers (its logarithm): rounding is not
    modelled, so the bounds proved are those of the exact values.  The
    Unicode tables behind [str.lower] and [\w] are an interface with the
    laws the proofs need; the whitespace table is the one of CPython.  The
    treatment of an empty match by [re.sub] and [re.findall] is not
    modelled: no pattern of the programs can match the empty string.
    Opening and reading files, [os.path.exists], [os.makedirs], printing,
    the nltk download at import and the text [json.dump] writes are input
    and output: what reading gives (lines, text or an exception) is an
    input of the model, the string-keyed tables handed to [json.dump] are
    its output, and file names are not modelled.  A set is modelled by the
    list of its distinct elements; the only use of one is under [sorted].

    ** Axioms

    No file of the development states an axiom.  The theorems on real
    scores ([Score], and the bound on the scores of [process_corpus] in
    [Pipeline]) rest on the axioms of the real numbers of the Standard
    Library (excluded middle, the two decidability principles of the
    Dedekind reals and functional extensionality).  The equations of [re_sub] and [re_findall], which
    Equations derives for their well-founded recursion, use functional
    extensionality; so do the theorems about [clean_text] and
    [simple_tokenize] that unfold them.  Everything else, the matcher, the
    counters, the estimators over the rationals and the closed forms of
    both pipelines included, is proved without axioms. *)

From stdpp Require Import prelude.

#[export] Set Warnings "-clear-no-such-hyp".

(** ** Python exceptions and the [result] monad *)

(** The exceptions the two programs can raise on the paths modelled. *)
Inductive exn : Set :=
| ZeroDivisionError
| ValueError
| KeyError
| IndexError
| FileNotFoundError
| UnicodeDecodeError.

#[export] Instance exn_eq_dec : EqDecision exn.
Proof. solve_decision. Defined.

(** A computation that returns a value or raises. *)
Inductive result (A : Type) : Type :=
| Ok (a : A)
| Raise (e : exn).
Arguments Ok {A} a.
Arguments Raise {A} e.

#[export] Instance result_ret : MRet result := @Ok.
#[export] Instance result_bind : MBind result := λ A B f m,
  match m with Ok a => f a | Raise e => Raise e end.
#[export] Instance result_fmap : FMap result := λ A B f m,
  match m with Ok a => Ok (f a) | Raise e => Raise e end.

Definition is_ok {A} (m : result A) : Prop := ∃ a, m = Ok a.

(** [for x in l: acc = body(acc, x)] where the body may raise: the loop stops
    at the first exception. *)
Fixpoint foldM {A B} (body : B → A → result B) (acc : B) (l : list A) : result B :=
  match l with
  | [] => Ok acc
  | x :: l' => acc' ← body acc x; foldM body acc' l'
  end.

(** [[f(x) for x in l]] where [f] may raise. *)
Fixpoint mapR {A B} (f : A → result B) (l : list A) : result (list B) :=
  match l with
  | [] => Ok []
  | x :: l' => y ← f x; ys ← mapR f l'; Ok (y :: ys)
  end.

(** ** Notation scope *)

Declare Scope py_scope.
Delimit Scope py_scope with py.

(** Python's [a if c else b] on a decidable condition. *)
Notation "a 'when' c 'otherwise' b" := (if decide c then a else b)
  (at level 200, c at level 99, right associativity, only parsing) : py_scope.

(** ** Lists *)

Lemma filter_all {A} (P : A → Prop) `{!∀ x, Decision (P x)} (l : list A) :
  Forall P l → filter P l = l.
Proof.
  induction 1 as [|x l Hx _ IH]; [done|]. by rewrite filter_cons_True, IH.
Qed.

Lemma filter_none {A} (P : A → Prop) `{!∀ x, Decision (P x)} (l : list A) :
  Forall (λ x, ¬ P x) l → filter P l = [].
Proof.
  induction 1 as [|x l Hx _ IH]; [done|]. by rewrite filter_cons_False.
Qed.

Lemma Forall2_elem_of_r {A B} (P : A → B → Prop) l k y :
  Forall2 P l k → y ∈ k → ∃ x, x ∈ l ∧ P x y.
Proof.
  induction 1 as [|x y' l k Hxy _ IH]; [by intros ?%elem_of_nil|].
  intros [->|Hy]%elem_of_cons; [exists x; split; [left|done]|].
  destruct (IH Hy) as (x' & ? & ?). exists x'. split; [by right|done].
Qed.

Lemma Forall2_elem_of_l {A B} (P : A → B → Prop) l k x :
  Forall2 P l k → x ∈ l → ∃ y, y ∈ k ∧ P x y.
Proof.
  intros H%Forall2_flip Hx. by apply (Forall2_elem_of_r (flip P) k l x).
Qed.

(** Induction on the length of a list. *)
Lemma list_length_ind {A} (P : list A → Prop) :
  (∀ l, (∀ k, length k < length l → P k) → P l) → ∀ l, P l.
Proof.
  intros Hstep l. remember (length l) as n eqn:Hn. revert l Hn.
  induction (lt_wf n) as [n _ IH]. intros l ->. apply Hstep.
  intros k Hk. by apply (IH (length k)).
Qed.

(** The longest prefix whose elements satisfy [p], and what follows it. *)
Fixpoint take_while {A} (p : A → bool) (l : list A) : list A :=
  match l with
  | [] => []
  | x :: l' => if p x then x :: take_while p l' else []
  end.

Fixpoint drop_while {A} (p : A → bool) (l : list A) : list A :=
  match l with
  | [] => []
  | x :: l' => if p x then drop_while p l' else l
  end.

Section while.
Context {A : Type} (p : A → bool).
Implicit Types (l k : list A).

Lemma take_drop_while l : take_while p l ++ drop_while p l = l.
Proof. induction l as [|x l IH]; simpl; [done|]. destruct (p x); simpl; by f_equal. Qed.

Lemma Forall_take_while l : Forall (λ x, p x = true) (take_while p l).
Proof.
  induction l as [|x l IH]; simpl; [constructor|].
  destruct (p x) eqn:E; by constructor.
Qed.

Lemma head_drop_while l x : head (drop_while p l) = Some x → p x = false.
Proof.
  induction l as [|y l IH]; simpl; [done|].
  destruct (p y) eqn:E; [done|]. by intros [= <-].
Qed.

Lemma length_drop_while l : length (drop_while p l) ≤ length l.
Proof. induction l as [|x l IH]; simpl; [done|]. destruct (p x); simpl; lia. Qed.

Lemma take_length_drop_while l :
  take (length l - length (drop_while p l)) l = take_while p l.
Proof.
  rewrite <- (take_drop_while l) at 1 3. rewrite length_app.
  replace (_ + _ - _) with (length (take_while p l)) by lia.
  by rewrite take_app_length.
Qed.

Lemma take_while_all l : Forall (λ x, p x = true) l → take_while p l = l.
Proof. induction 1 as [|x l Hx _ IH]; simpl; [done|]. by rewrite Hx, IH. Qed.

Lemma drop_while_all l : Forall (λ x, p x = true) l → drop_while p l = [].
Proof. induction 1 as [|x l Hx _ IH]; simpl; [done|]. by rewrite Hx. Qed.

Lemma drop_while_app l k :
  Forall (λ x, p x = true) l → drop_while p (l ++ k) = drop_while p k.
Proof. induction 1 as [|x l Hx _ IH]; simpl; [done|]. by rewrite Hx. Qed.

Lemma take_while_app l k :
  Forall (λ x, p x = true) l → take_while p (l ++ k) = l ++ take_while p k.
Proof. induction 1 as [|x l Hx _ IH]; simpl; [done|]. by rewrite Hx, IH. Qed.

Lemma drop_while_idemp l : drop_while p (drop_while p l) = drop_while p l.
Proof.
  induction l as [|x l IH]; simpl; [done|].
  destruct (p x) eqn:E; [done|]. simpl. by rewrite E.
Qed.

End while.

(** A loop that extends the accumulator with [f x] for each [x]. *)
Lemma foldl_extend {A B} (f : A → list B) (acc : list B) (l : list A) :
  foldl (λ acc x, acc ++ f x) acc l = acc ++ concat (f <$> l).
Proof.
  revert acc. induction l as [|x l IH]; intros acc; simpl.
  - by rewrite app_nil_r.
  - by rewrite IH, <- app_assoc.
Qed.

Lemma bind_ext_elem {A B} (f g : A → list B) (l : list A) :
  (∀ x, x ∈ l → f x = g x) → l ≫= f = l ≫= g.
Proof.
  induction l as [|x l IH]; intros Hfg; [done|].
  rewrite !bind_cons, Hfg by left. f_equal. apply IH. intros. apply Hfg. by right.
Qed.

Lemma list_bind_assoc {A B C} (f : A → list B) (g : B → list C) (l : list A) :
  (l ≫= f) ≫= g = l ≫= λ x, f x ≫= g.
Proof.
  induction l as [|x l IH]; [done|]. by rewrite !bind_cons, bind_app, IH.
Qed.

(** A loop that appends [f x] for each [x] builds the image of the list. *)
Lemma foldl_snoc_fmap {A B} (f : A → B) (acc : list B) (l : list A) :
  foldl (λ acc x, acc ++ [f x]) acc l = acc ++ (f <$> l).
Proof.
  revert acc. induction l as [|x l IH]; intros acc; simpl.
  - by rewrite app_nil_r.
  - by rewrite IH, <- app_assoc.
Qed.

(** ** Occurrence counting and integer sums *)

Section occ.
Context `{EqDecision A}.
Implicit Types (x y : A) (l k : list A).

(** The number of occurrences of [x] in [l]: the specification of counting. *)
Definition occ x l : nat := length (filter (x =.) l).

Lemma occ_nil x : occ x [] = 0.
Proof. done. Qed.

Lemma occ_cons x y l : occ x (y :: l) = (if decide (x = y) then 1 else 0) + occ x l.
Proof. unfold occ. rewrite filter_cons. by case_decide. Qed.

Lemma occ_app x l k : occ x (l ++ k) = occ x l + occ x k.
Proof. unfold occ. by rewrite filter_app, length_app. Qed.

Lemma occ_le_length x l : occ x l ≤ length l.
Proof. apply length_filter. Qed.

Lemma occ_pos x l : 0 < occ x l ↔ x ∈ l.
Proof.
  induction l as [|y l IH]; [rewrite occ_nil, elem_of_nil; lia|].
  rewrite occ_cons, elem_of_cons, <- IH. case_decide; intuition lia.
Qed.

Lemma occ_0 x l : occ x l = 0 ↔ x ∉ l.
Proof. rewrite <- occ_pos. lia. Qed.

Lemma occ_take_le x l n : occ x (take n l) ≤ occ x l.
Proof. rewrite <- (take_drop n l) at 2. rewrite occ_app. lia. Qed.

(** The distinct elements of [l] in order of first occurrence. *)
Fixpoint nub l : list A :=
  match l with
  | [] => []
  | x :: l' => x :: filter (x ≠.) (nub l')
  end.

Lemma length_nub l : length (nub l) ≤ length l.
Proof.
  induction l as [|x l IH]; simpl; [done|].
  pose proof (length_filter (x ≠.) (nub l)). lia.
Qed.

Lemma elem_of_nub x l : x ∈ nub l ↔ x ∈ l.
Proof.
  induction l as [|y l IH]; simpl; [done|].
  rewrite !elem_of_cons, list_elem_of_filter, IH.
  destruct (decide (x = y)); intuition congruence.
Qed.

Lemma NoDup_nub l : NoDup (nub l).
Proof.
  induction l as [|y l IH]; simpl; [constructor|].
  apply NoDup_cons_2; [|by apply NoDup_filter].
  rewrite list_elem_of_filter. intuition congruence.
Qed.

Lemma nub_NoDup l : NoDup l → nub l = l.
Proof.
  induction 1 as [|x l Hx _ IH]; simpl; [done|]. rewrite IH. f_equal.
  apply filter_all, list.Forall_forall. by intros y ? ->.
Qed.

Lemma occ_NoDup x l : NoDup l → occ x l = if decide (x ∈ l) then 1 else 0.
Proof.
  induction 1 as [|y k Hy _ IH]; [by rewrite decide_False by apply not_elem_of_nil|].
  rewrite occ_cons, IH. repeat case_decide; set_solver.
Qed.

Lemma occ_nub x l : occ x (nub l) = if decide (x ∈ l) then 1 else 0.
Proof. rewrite occ_NoDup by apply NoDup_nub. apply decide_ext, elem_of_nub. Qed.

End occ.

(** Counting through a map: an element occurs at most as often as its image. *)
Lemma occ_fmap_le `{EqDecision A, EqDecision B} (f : A → B) x (l : list A) :
  occ x l ≤ occ (f x) (f <$> l).
Proof.
  induction l as [|y l IH]; [done|]. rewrite fmap_cons, !occ_cons.
  repeat case_decide; naive_solver lia.
Qed.

Lemma occ_fmap_inj `{EqDecision A, EqDecision B} (f : A → B) `{!Inj (=) (=) f}
    x (l : list A) :
  occ (f x) (f <$> l) = occ x l.
Proof.
  induction l as [|y l IH]; [done|]. rewrite fmap_cons, !occ_cons, IH.
  repeat case_decide; naive_solver.
Qed.

Lemma nub_fmap_inj `{EqDecision A, EqDecision B} (f : A → B) `{!Inj (=) (=) f}
    (l : list A) :
  nub (f <$> l) = f <$> nub l.
Proof.
  induction l as [|x l IH]; [done|]. csimpl. rewrite IH. f_equal.
  generalize (nub l). intros k. induction k as [|y k IHk]; [done|]. csimpl.
  destruct (decide (x = y)) as [->|Hne].
  - by rewrite !filter_cons_False by naive_solver.
  - rewrite !filter_cons_True by naive_solver. csimpl. by rewrite IHk.
Qed.

(** Python's [sum] over integers. *)
Fixpoint sumZ (l : list Z) : Z :=
  match l with
  | [] => 0
  | x :: l' => x + sumZ l'
  end%Z.

Lemma sumZ_app l k : sumZ (l ++ k) = (sumZ l + sumZ k)%Z.
Proof. induction l as [|x l IH]; simpl; lia. Qed.

Lemma sumZ_nonneg l : Forall (λ x, 0 ≤ x)%Z l → (0 ≤ sumZ l)%Z.
Proof. induction 1; simpl; lia. Qed.

Lemma sumZ_elem_le l x : Forall (λ x, 0 ≤ x)%Z l → x ∈ l → (x ≤ sumZ l)%Z.
Proof.
  induction 1 as [|y l Hy Hl IH]; [by intros ?%elem_of_nil|].
  pose proof (sumZ_nonneg l Hl). intros [->|?]%elem_of_cons; simpl; [lia|].
  specialize (IH ltac:(done)). lia.
Qed.

(** ** Loops that may raise *)

Lemma is_ok_Ok {A} (a : A) : is_ok (Ok a).
Proof. by exists a. Qed.

Lemma not_is_ok_Raise {A} (e : exn) : ¬ is_ok (@Raise A e).
Proof. by intros [a ?]. Qed.

Lemma Ok_inj {A} (x y : A) : Ok x = Ok y → x = y.
Proof. congruence. Qed.

Lemma foldM_ext {A B} (f g : B → A → result B) (acc : B) (l : list A) :
  (∀ b x, x ∈ l → f b x = g b x) → foldM f acc l = foldM g acc l.
Proof.
  revert acc. induction l as [|x l IH]; intros acc Hfg; simpl; [done|].
  rewrite Hfg by left. destruct (g acc x); simpl; [|done].
  apply IH. intros. apply Hfg. by right.
Qed.

Lemma mapR_ext {A B} (f g : A → result B) (l : list A) :
  (∀ x, x ∈ l → f x = g x) → mapR f l = mapR g l.
Proof.
  induction l as [|x l IH]; intros Hfg; simpl; [done|].
  rewrite Hfg by left. rewrite IH; [done|]. intros. apply Hfg. by right.
Qed.

Lemma foldM_is_ok {A B} (body : B → A → result B) (acc : B) (l : list A) :
  (∀ b x, x ∈ l → is_ok (body b x)) → is_ok (foldM body acc l).
Proof.
  revert acc. induction l as [|x l IH]; intros acc Hok; simpl; [apply is_ok_Ok|].
  destruct (Hok acc x) as [b ->]; [left|]. simpl. apply IH. intros. apply Hok. by right.
Qed.

Lemma foldM_snoc {A B} (f : A → B) (acc : list B) (l : list A) :
  foldM (λ acc x, Ok (acc ++ [f x])) acc l = Ok (acc ++ (f <$> l)).
Proof.
  revert acc. induction l as [|x l IH]; intros acc; csimpl.
  - by rewrite app_nil_r.
  - by rewrite IH, <- app_assoc.
Qed.

(** A loop whose body raises on one of the elements raises. *)
Lemma foldM_not_ok {A B} (body : B → A → result B) (acc : B) (l : list A) x :
  x ∈ l → (∀ b, ¬ is_ok (body b x)) → ¬ is_ok (foldM body acc l).
Proof.
  intros Hx Hbad. revert acc. induction Hx as [x l|x y l _ IH]; intros acc; simpl.
  - destruct (body acc x) as [b|e] eqn:Hb; [|apply not_is_ok_Raise].
    destruct (Hbad acc). rewrite Hb. apply is_ok_Ok.
  - destruct (body acc y) as [b|e]; [by apply IH|apply not_is_ok_Raise].
Qed.

Lemma mapR_pure {A B} (f : A → B) (l : list A) : mapR (λ x, Ok (f x)) l = Ok (f <$> l).
Proof. induction l as [|x l IH]; simpl; [done|]. by rewrite IH. Qed.

Lemma result_bind_Ok_r {A} (m : result A) : m ≫= Ok = m.
Proof. by destruct m. Qed.

Section result_lemmas.
Context {A B : Type}.
Implicit Types (f : A → result B) (l : list A).

(** A comprehension succeeds exactly when every element does, and then
    lists the results in order. *)
Lemma mapR_Ok f l ys : mapR f l = Ok ys ↔ Forall2 (λ x y, f x = Ok y) l ys.
Proof.
  revert ys. induction l as [|x l IH]; intros ys; simpl.
  - split; [intros [= <-]; constructor | by inversion 1].
  - split.
    + destruct (f x) as [y|] eqn:Hx; simpl; [|done].
      destruct (mapR f l) as [ys'|] eqn:Hl; simpl; [|done].
      intros [= <-]. constructor; [done|]. by apply IH.
    + inversion 1 as [|? y ? ys' Hx Hl]; subst. rewrite Hx. simpl.
      apply IH in Hl. by rewrite Hl.
Qed.

Lemma mapR_is_ok f l : is_ok (mapR f l) ↔ Forall (λ x, is_ok (f x)) l.
Proof.
  induction l as [|x l IH]; simpl.
  - split; intros; [apply Forall_nil_2 | apply is_ok_Ok].
  - rewrite list.Forall_cons, <- IH. destruct (f x) as [y|]; simpl.
    + destruct (mapR f l); simpl; split.
      * eauto using is_ok_Ok.
      * eauto using is_ok_Ok.
      * by intros ?%not_is_ok_Raise.
      * by intros [_ ?%not_is_ok_Raise].
    + split; [by intros ?%not_is_ok_Raise | by intros [?%not_is_ok_Raise _]].
Qed.

Lemma mapR_length f l ys : mapR f l = Ok ys → length ys = length l.
Proof. intros Hl%mapR_Ok. symmetry. by eapply Forall2_length. Qed.

(** The first element that raises decides the exception. *)
Lemma mapR_Raise_first f l1 x l2 e :
  Forall (λ x, is_ok (f x)) l1 → f x = Raise e → mapR f (l1 ++ x :: l2) = Raise e.
Proof.
  induction 1 as [|y l1 [b Hb] _ IH]; intros Hx; simpl; [by rewrite Hx|].
  rewrite Hb. simpl. by rewrite IH.
Qed.

End result_lemmas.

(** ** Hint databases and tactics *)

(** [pylen]: rewriting lengths of list expressions to arithmetic. *)
Create Rewrite HintDb pylen.
#[export] Hint Rewrite @length_app @length_take @length_drop @length_fmap
  @length_seq @length_cons @length_nil @length_reverse : pylen.

(** [py]: facts resolved by [auto with py]. *)
Create HintDb py discriminated.
#[export] Hint Resolve occ_le_length occ_take_le sumZ_nonneg is_ok_Ok : py.

(** Run the binds of the [result] monad whose argument is known. *)
Ltac res_simpl := cbn [mbind mret result_bind result_ret].
