(* ===== verification/PyStr.v ===== *)
(** * Python values: code points, [str], sequences

    The built-in operations of Python that the two programs call, as
    executable functions: [str.isspace], [str.split()] (no argument),
    [str.strip()], [str.join], slicing [l[i:j]] with Python's treatment of
    negative and out-of-range indices, [range] and [len].  A character is
    its Unicode code point, a [str] is the list of its code points. *)

From stdpp Require Import prelude sorting.
From Stdlib Require Import Ascii ZifyBool ZifyN.
From Stdlib Require String.
Export String.StringSyntax Ascii.AsciiSyntax.
From S2P Require Import Prelude.

#[local] Open Scope N_scope.

(** ** Characters and strings *)

(** A code point, and a [str]. *)
Abbreviation char := N (only parsing).
Abbreviation pystr := (list N) (only parsing).

(** The code point of an ASCII character, [chr "a"], and the [str] of an
    ASCII literal, [lit "the cat"]. *)
Definition chr (a : ascii) : char := N_of_ascii a.
Definition lit (s : String.string) : pystr :=
  chr <$> String.list_ascii_of_string s.
Arguments lit s%_string_scope.
Arguments chr a%_char_scope.

(** [lo <= c <= hi] on code points. *)
Definition in_range (lo hi c : char) : bool := (lo <=? c) && (c <=? hi).

(** [str.isspace] on one character: CPython's [_PyUnicode_IsWhitespace], the
    code points whose bidirectional class is WS, B or S or whose category is
    Zs.  The same predicate decides [\s] in a [str] pattern of [re] and the
    separators of [str.split()] and [str.strip()]. *)
Definition isspace (c : char) : bool :=
  in_range 0x09 0x0D c || in_range 0x1C 0x20 c || (c =? 0x85) || (c =? 0xA0)
  || (c =? 0x1680) || in_range 0x2000 0x200A c || (c =? 0x2028)
  || (c =? 0x2029) || (c =? 0x202F) || (c =? 0x205F) || (c =? 0x3000).

(** ** [str.split()] *)

(** Append the word scanned so far, if there is one. *)
Definition emit (w : pystr) (ws : list pystr) : list pystr :=
  match w with [] => ws | _ => w :: ws end.

(** The scanning loop of [str.split()]: [w] is the word being read. *)
Fixpoint split_from (w : pystr) (s : pystr) : list pystr :=
  match s with
  | [] => emit w []
  | c :: s' =>
      if isspace c then emit w (split_from [] s') else split_from (w ++ [c]) s'
  end.

(** [s.split()]: the maximal runs of non-whitespace characters of [s]. *)
Definition split (s : pystr) : list pystr := split_from [] s.

(** ** [str.strip()] *)

(** [s.lstrip()] drops the leading whitespace. *)
Definition lstrip (s : pystr) : pystr := drop_while isspace s.

(** [s.rstrip()] drops the trailing whitespace. *)
Fixpoint rstrip (s : pystr) : pystr :=
  match s with
  | [] => []
  | c :: s' =>
      match rstrip s' with
      | [] => if isspace c then [] else [c]
      | t => c :: t
      end
  end.

Definition strip (s : pystr) : pystr := rstrip (lstrip s).

(** ** [sep.join(ws)] *)

Fixpoint join (sep : pystr) (ws : list pystr) : pystr :=
  match ws with
  | [] => []
  | w :: ws' => match ws' with [] => w | _ => w ++ sep ++ join sep ws' end
  end.

(** ** Sequences: [len], [range], slices *)

(** [len(l)], a Python integer. *)
Definition len {A} (l : list A) : Z := Z.of_nat (length l).

(** [range(n)]: empty when [n <= 0]. *)
Definition range (n : Z) : list Z := seqZ 0 n.

(** [range(a, b)] *)
Definition range_from (a b : Z) : list Z := seqZ a (b - a).

(** [l[i]] for an index that is not negative: [IndexError] out of range. *)
Definition getitem {A} (l : list A) (i : nat) : result A :=
  match l !! i with Some x => Ok x | None => Raise IndexError end.

(** [enumerate(l)] *)
Definition enumerate {A} (l : list A) : list (Z * A) := zip (range (len l)) l.

(** A slice bound as Python adjusts it: a negative index counts from the
    end, and the result is clamped to [0 .. len]. *)
Definition clamp (n i : Z) : Z :=
  (if i <? 0 then Z.max 0 (i + n) else Z.min i n)%Z.

(** [l[i:j]] *)
Definition slice {A} (l : list A) (i j : Z) : list A :=
  let lo := clamp (len l) i in
  let hi := clamp (len l) j in
  take (Z.to_nat (hi - lo)) (drop (Z.to_nat lo) l).

(** ** Comparison of strings and [sorted] *)

(** [s <= t] on [str]: lexicographic, by code point. *)
Fixpoint str_leb (s t : pystr) : bool :=
  match s, t with
  | [], _ => true
  | _ :: _, [] => false
  | a :: s', b :: t' => (a <? b)%N || ((a =? b)%N && str_leb s' t')
  end.

Definition str_le (s t : pystr) : Prop := str_leb s t = true.

#[export] Instance str_le_dec : RelDecision str_le.
Proof. intros s t. unfold str_le. apply _. Defined.

(** [sorted(l)] on a list of [str]. *)
Definition sorted (l : list pystr) : list pystr := merge_sort str_le l.

(** Goals about [len]: unfold it, normalise the lengths, finish with linear
    arithmetic. *)
Ltac len_solve := unfold len in *; autorewrite with pylen in *; simpl in *; lia.

(** ** Slices, [range] and [len] *)

Section seq_lemmas.
Context {A : Type}.
Implicit Types (l : list A) (i j n : Z).

Lemma len_nonneg l : (0 ≤ len l)%Z.
Proof. len_solve. Qed.

Lemma len_app l1 l2 : len (l1 ++ l2) = (len l1 + len l2)%Z.
Proof. len_solve. Qed.

Lemma len_nil_iff l : len l = 0%Z ↔ l = [].
Proof. unfold len. destruct l; simpl; split; intros; try done; lia. Qed.

Lemma clamp_nonneg n i : (0 ≤ n → 0 ≤ i → clamp n i = Z.min i n)%Z.
Proof. unfold clamp. intros. case_match; lia. Qed.

Lemma clamp_bounds n i : (0 ≤ n → 0 ≤ clamp n i ≤ n)%Z.
Proof. unfold clamp. intros. case_match; lia. Qed.

(** With indices that are not negative a slice is [take] after [drop]. *)
Lemma slice_nonneg l i j :
  (0 ≤ i)%Z → (0 ≤ j)%Z →
  slice l i j = take (Z.to_nat j - Z.to_nat i)%nat (drop (Z.to_nat i) l).
Proof.
  intros Hi Hj. unfold slice. pose proof (len_nonneg l) as Hl.
  rewrite !clamp_nonneg by done. unfold len in *.
  destruct (decide (i ≤ Z.of_nat (length l))%Z).
  - rewrite (Z.min_l i) by done. destruct (decide (j ≤ Z.of_nat (length l))%Z).
    + rewrite (Z.min_l j) by done. f_equal. lia.
    + rewrite (Z.min_r j) by lia. rewrite !take_ge; [done|rewrite length_drop; lia..].
  - rewrite (Z.min_r i) by lia. rewrite !drop_ge by lia. by rewrite !take_nil.
Qed.

(** [l[:-1]]: all but the last element. *)
Lemma slice_init l : slice l 0 (-1) = take (length l - 1)%nat l.
Proof.
  pose proof (len_nonneg l). unfold slice.
  replace (clamp (len l) 0) with 0%Z by (unfold clamp; case_match; lia).
  replace (clamp (len l) (-1)) with (Z.max 0 (len l - 1))
    by (unfold clamp; case_match; lia).
  rewrite Z2Nat.inj_0, drop_0. f_equal. len_solve.
Qed.

Lemma length_slice_le l i j : (length (slice l i j) ≤ length l)%nat.
Proof. unfold slice. rewrite length_take, length_drop. lia. Qed.

Lemma range_seq n : range n = Z.of_nat <$> seq 0 (Z.to_nat n).
Proof.
  unfold range, seqZ. apply list_fmap_ext. intros _ i _. lia.
Qed.

Lemma length_range n : length (range n) = Z.to_nat n.
Proof. unfold range. apply length_seqZ. Qed.

Lemma fst_enumerate l : (enumerate l).*1 = range (len l).
Proof. unfold enumerate. apply fst_zip. unfold range, len. rewrite length_seqZ. lia. Qed.

Lemma snd_enumerate l : (enumerate l).*2 = l.
Proof. unfold enumerate. apply snd_zip. unfold range, len. rewrite length_seqZ. lia. Qed.

Lemma NoDup_fst_enumerate l : NoDup (enumerate l).*1.
Proof. rewrite fst_enumerate. apply NoDup_seqZ. Qed.

Lemma length_enumerate l : length (enumerate l) = length l.
Proof. by rewrite <- (length_fmap snd), snd_enumerate. Qed.

Lemma elem_of_range_from a b i : i ∈ range_from a b ↔ (a ≤ i < b)%Z.
Proof. unfold range_from. rewrite elem_of_seqZ. lia. Qed.

End seq_lemmas.

(** ** Words: what [split] produces *)

(** A word: not empty, no whitespace. *)
Definition is_word (w : pystr) : Prop := w ≠ [] ∧ Forall (λ c, isspace c = false) w.

#[export] Instance is_word_dec w : Decision (is_word w).
Proof. unfold is_word. apply _. Defined.

(** What [str.split()] promises: [words_of s ws] when [s] is the words [ws]
    in order, each followed by whitespace or by the end of [s], with nothing
    but whitespace before, between and after them.  A word is then a maximal
    run of non-whitespace characters of [s]. *)
Inductive words_of : pystr → list pystr → Prop :=
  | words_of_blank s :
      Forall (λ c, isspace c = true) s → words_of s []
  | words_of_last sp w :
      Forall (λ c, isspace c = true) sp → is_word w → words_of (sp ++ w) [w]
  | words_of_cons sp w c s ws :
      Forall (λ c, isspace c = true) sp → is_word w → isspace c = true →
      words_of s ws → words_of (sp ++ w ++ c :: s) (w :: ws).

Section split_lemmas.
Implicit Types (w s : pystr) (ws : list pystr) (c : char).

Lemma emit_nil ws : emit [] ws = ws.
Proof. done. Qed.

Lemma emit_cons w ws : w ≠ [] → emit w ws = w :: ws.
Proof. by destruct w. Qed.

Lemma split_from_space w c s :
  isspace c = true → split_from w (c :: s) = emit w (split s).
Proof. intros Hc. simpl. by rewrite Hc. Qed.

Lemma split_from_nonspace w c s :
  isspace c = false → split_from w (c :: s) = split_from (w ++ [c]) s.
Proof. intros Hc. simpl. by rewrite Hc. Qed.

(** Reading a run of non-whitespace characters extends the current word. *)
Lemma split_from_app_word w v s :
  Forall (λ c, isspace c = false) v → split_from w (v ++ s) = split_from (w ++ v) s.
Proof.
  intros Hv. revert w. induction Hv as [|c v Hc _ IH]; intros w; simpl.
  - by rewrite app_nil_r.
  - by rewrite Hc, IH, <- app_assoc.
Qed.

(** The current word is a prefix of the first word produced. *)
Lemma split_from_emit w s : split_from w s = emit w [] ∨
  ∃ v ws, split_from w s = (w ++ v) :: ws ∧ (w = [] → v ≠ []).
Proof.
  revert w. induction s as [|c s IH]; intros w; simpl; [by left|].
  destruct (isspace c) eqn:Hc.
  - destruct w as [|a w]; simpl.
    + destruct (IH []) as [->|(v & ws & -> & Hv)]; [by left|].
      right. exists v, ws. by split.
    + right. exists [], (split_from [] s). by rewrite app_nil_r.
  - right. destruct (IH (w ++ [c])) as [->|(v & ws & -> & _)].
    + exists [c], []. rewrite emit_cons by (by destruct w). by split.
    + exists (c :: v), ws. rewrite <- app_assoc. by split.
Qed.

Lemma split_from_words w s :
  Forall (λ c, isspace c = false) w → Forall is_word (split_from w s).
Proof.
  revert w. induction s as [|c s IH]; intros w Hw; simpl.
  - destruct w; [constructor|]. by apply Forall_singleton.
  - destruct (isspace c) eqn:Hc.
    + destruct w; simpl; [by apply IH|]. constructor; [done|]. by apply IH.
    + apply IH. apply Forall_app. split; [done|]. by apply Forall_singleton.
Qed.

(** Every token of [s.split()] is a word. *)
Lemma split_words s : Forall is_word (split s).
Proof. by apply split_from_words. Qed.

Lemma concat_split_from w s :
  concat (split_from w s) = w ++ filter (λ c, isspace c = false) s.
Proof.
  revert w. induction s as [|c s IH]; intros w; simpl.
  - destruct w; simpl; by rewrite ?app_nil_r.
  - destruct (isspace c) eqn:Hc.
    + rewrite filter_cons_False by congruence.
      destruct w; simpl; rewrite IH; done.
    + rewrite filter_cons_True by done. by rewrite IH, <- app_assoc.
Qed.

(** [split] keeps every character that is not whitespace, in order. *)
Lemma concat_split s : concat (split s) = filter (λ c, isspace c = false) s.
Proof. apply concat_split_from. Qed.

(** A separator ends the current word. *)
Lemma split_from_app_space w s1 c s2 :
  isspace c = true → split_from w (s1 ++ c :: s2) = split_from w s1 ++ split s2.
Proof.
  intros Hc. revert w. induction s1 as [|a s1 IH]; intros w; simpl.
  - rewrite Hc. by destruct w.
  - destruct (isspace a); [|apply IH]. rewrite IH. by destruct w.
Qed.

Lemma split_word w : is_word w → split w = [w].
Proof.
  intros [Hne Hw]. unfold split. rewrite <- (app_nil_r w) at 1.
  rewrite split_from_app_word by done. simpl. by apply emit_cons.
Qed.

Lemma split_nil_iff s : split s = [] ↔ Forall (λ c, isspace c = true) s.
Proof.
  split.
  - intros Hs. pose proof (concat_split s) as Hc. rewrite Hs in Hc. simpl in Hc.
    apply list.Forall_forall. intros c Hin. destruct (isspace c) eqn:E; [done|].
    assert (c ∈ filter (λ c, isspace c = false) s) as Hf
      by (by apply list_elem_of_filter).
    rewrite <- Hc in Hf. by apply elem_of_nil in Hf.
  - unfold split. induction 1 as [|c s Hc _ IH]; simpl; [done|]. by rewrite Hc.
Qed.

Lemma split_app_space s1 s2 :
  Forall (λ c, isspace c = true) s1 → split (s1 ++ s2) = split s2.
Proof. unfold split. induction 1 as [|c s1 Hc _ IH]; simpl; [done|]. by rewrite Hc. Qed.

Lemma words_of_cons_space c s ws :
  isspace c = true → words_of s ws → words_of (c :: s) ws.
Proof.
  intros Hc. destruct 1 as [s Hs|sp w Hsp Hw|sp w c' s ws Hsp Hw Hc' Hws].
  - apply words_of_blank. by constructor.
  - apply (words_of_last (c :: sp)); [by constructor|done].
  - apply (words_of_cons (c :: sp)); [by constructor|done..].
Qed.

(** With a word [w] read so far, and from the start of a word. *)
Lemma words_of_split_from s :
  (∀ w, is_word w → words_of (w ++ s) (split_from w s)) ∧ words_of s (split s).
Proof.
  induction s as [|c s [IHw IH]].
  - split; [|by apply words_of_blank]. intros w Hw. simpl.
    rewrite app_nil_r, emit_cons by apply Hw. by apply (words_of_last []).
  - assert (isspace c = false → ∀ w, Forall (λ c, isspace c = false) w →
      words_of (w ++ c :: s) (split_from w (c :: s))) as Hword.
    { intros Hc w Hw. rewrite split_from_nonspace, (cons_middle c), app_assoc by done.
      apply IHw. split; [by destruct w|]. apply Forall_app. by split; [|constructor]. }
    destruct (isspace c) eqn:Hc; split.
    + intros w Hw. rewrite split_from_space, emit_cons by (done || apply Hw).
      by apply (words_of_cons []).
    + unfold split at 1. rewrite split_from_space by done.
      by apply words_of_cons_space.
    + intros w Hw. by apply Hword, Hw.
    + by apply (Hword eq_refl []).
Qed.

(** [split] meets its specification, and nothing else does. *)
Lemma words_of_split s ws : words_of s ws ↔ split s = ws.
Proof.
  split; [|intros <-; apply words_of_split_from].
  induction 1 as [s Hs|sp w Hsp Hw|sp w c s ws Hsp Hw Hc _ IH].
  - by apply split_nil_iff.
  - rewrite split_app_space by done. by apply split_word.
  - rewrite split_app_space by done. unfold split at 1.
    rewrite split_from_app_space by done. fold (split w). by rewrite split_word, IH.
Qed.

End split_lemmas.

(** ** [strip] *)

Section strip_lemmas.
Implicit Types (w s : pystr) (c : char).

Lemma rstrip_nonspace s : Forall (λ c, isspace c = false) s → rstrip s = s.
Proof.
  induction 1 as [|c s Hc _ IH]; simpl; [done|]. rewrite IH, Hc. by destruct s.
Qed.

Lemma lstrip_cons_nonspace c s : isspace c = false → lstrip (c :: s) = c :: s.
Proof. intros Hc. unfold lstrip. simpl. by rewrite Hc. Qed.

Lemma lstrip_cons_space c s : isspace c = true → lstrip (c :: s) = lstrip s.
Proof. intros Hc. unfold lstrip. simpl. by rewrite Hc. Qed.

(** A word is its own [strip]. *)
Lemma strip_word w : is_word w → strip w = w.
Proof.
  intros [Hne Hw]. unfold strip. destruct Hw as [|c w Hc Hw]; [done|].
  rewrite lstrip_cons_nonspace by done. apply rstrip_nonspace. by constructor.
Qed.

Lemma rstrip_nil_iff s : rstrip s = [] ↔ Forall (λ c, isspace c = true) s.
Proof.
  induction s as [|c s IH]; simpl; [by split; [constructor|]|].
  rewrite list.Forall_cons, <- IH.
  destruct (rstrip s); destruct (isspace c); naive_solver.
Qed.

Lemma lstrip_nil_iff s : lstrip s = [] ↔ Forall (λ c, isspace c = true) s.
Proof.
  unfold lstrip. induction s as [|c s IH]; simpl; [by split; [constructor|]|].
  rewrite list.Forall_cons, <- IH. destruct (isspace c); naive_solver.
Qed.

Lemma Forall_lstrip (P : char → Prop) s : Forall P s → Forall P (lstrip s).
Proof.
  unfold lstrip. induction 1 as [|c s Hc Hs IH]; simpl; [constructor|].
  destruct (isspace c); [done|by constructor].
Qed.

(** [s.strip()] is empty exactly for a text of whitespace. *)
(** What [rstrip] keeps ends with a character that is not whitespace. *)
Lemma last_rstrip s c : last (rstrip s) = Some c → isspace c = false.
Proof.
  induction s as [|a s IH]; simpl; [done|].
  destruct (rstrip s) as [|b t] eqn:Ht.
  - destruct (isspace a) eqn:Ha; simpl; [done|]. by intros [= <-].
  - by rewrite last_cons_cons.
Qed.

Lemma last_strip s c : last (strip s) = Some c → isspace c = false.
Proof. apply last_rstrip. Qed.

Lemma rstrip_app s t : rstrip t ≠ [] → rstrip (s ++ t) = s ++ rstrip t.
Proof.
  intros Ht. induction s as [|c s IH]; simpl; [done|]. rewrite IH.
  destruct (s ++ rstrip t) eqn:Hst; [|done]. by apply app_eq_nil in Hst as [_ ?].
Qed.

Lemma rstrip_app_space s t :
  Forall (λ c, isspace c = true) t → rstrip (s ++ t) = rstrip s.
Proof.
  intros Ht. induction s as [|c s IH]; simpl; [by apply rstrip_nil_iff|].
  by rewrite IH.
Qed.

Lemma strip_nil_iff s : strip s = [] ↔ Forall (λ c, isspace c = true) s.
Proof.
  unfold strip. rewrite rstrip_nil_iff. split.
  - intros Hl. apply lstrip_nil_iff. unfold lstrip in *.
    induction s as [|c s IH]; simpl in *; [done|].
    destruct (isspace c) eqn:Hc; [by apply IH|].
    apply list.Forall_cons in Hl as [? _]. congruence.
  - apply Forall_lstrip.
Qed.

End strip_lemmas.

(** ** [join] *)

Section join_lemmas.
Implicit Types (w s sep : pystr) (ws : list pystr) (c : char).

Lemma join_cons sep w ws :
  ws ≠ [] → join sep (w :: ws) = w ++ sep ++ join sep ws.
Proof. by destruct ws. Qed.

Lemma join_singleton sep w : join sep [w] = w.
Proof. done. Qed.

Lemma join_nil_iff sep ws : Forall (λ w, w ≠ []) ws → join sep ws = [] ↔ ws = [].
Proof.
  intros Hws. split; [|by intros ->]. destruct Hws as [|w ws Hw _]; [done|].
  destruct ws; simpl; [done|]. by intros [? _]%app_eq_nil.
Qed.

Lemma Forall_join (P : char → Prop) sep ws :
  Forall P sep → Forall (Forall P) ws → Forall P (join sep ws).
Proof.
  intros Hsep. induction 1 as [|w ws Hw Hws IH]; [constructor|].
  destruct ws; [done|]. rewrite join_cons by done. by rewrite !Forall_app.
Qed.

(** The words of a text are made of its characters. *)
Lemma Forall_split (P : char → Prop) s : Forall P s → Forall (Forall P) (split s).
Proof.
  intros Hs. apply Forall_concat. rewrite concat_split.
  rewrite list.Forall_forall in *. intros c [_ ?]%list_elem_of_filter. auto.
Qed.

(** After a word and a space, what [rstrip] leaves of the rest joins the
    word. *)
Lemma rstrip_join w t ws :
  is_word w → Forall is_word ws → rstrip t = join (lit " ") ws →
  rstrip (w ++ lit " " ++ t) = join (lit " ") (w :: ws).
Proof.
  intros [Hne Hw] Hws Ht. destruct ws as [|w' ws].
  - apply rstrip_nil_iff in Ht. rewrite rstrip_app_space by (by constructor).
    by apply rstrip_nonspace.
  - assert (join (lit " ") (w' :: ws) ≠ []) as Hj.
    { rewrite join_nil_iff; [done|]. eapply Forall_impl; [done|]. by intros ? [? _]. }
    assert (rstrip (lit " " ++ t) = lit " " ++ join (lit " ") (w' :: ws)) as Hr.
    { simpl rstrip. rewrite Ht. by destruct (join _ _). }
    rewrite join_cons by done. rewrite rstrip_app; rewrite Hr; [done|by destruct (join _ _)].
Qed.

(** Words joined by single spaces have nothing to strip. *)
Lemma strip_join ws : Forall is_word ws → strip (join (lit " ") ws) = join (lit " ") ws.
Proof.
  intros Hws. unfold strip.
  assert (lstrip (join (lit " ") ws) = join (lit " ") ws) as ->.
  { destruct Hws as [|w ws [Hne Hw] _]; [done|]. destruct Hw as [|c w Hc _]; [done|].
    destruct ws; [|rewrite join_cons by done]; by apply lstrip_cons_nonspace. }
  induction Hws as [|w ws Hw Hws IH]; [done|]. destruct ws as [|w' ws].
  - apply rstrip_nonspace, Hw.
  - rewrite join_cons at 1 by done. by apply rstrip_join.
Qed.

(** No two whitespace characters in a row. *)
Fixpoint single_spaced (s : pystr) : bool :=
  match s with
  | c :: s' => negb (isspace c && from_option isspace false (head s')) && single_spaced s'
  | [] => true
  end.

Lemma single_spaced_app_word w s :
  Forall (λ c, isspace c = false) w → single_spaced s = true →
  single_spaced (w ++ s) = true.
Proof. induction 1 as [|c w Hc _ IH]; simpl; [done|]. rewrite Hc. auto. Qed.

Lemma single_spaced_join ws :
  Forall is_word ws → single_spaced (join (lit " ") ws) = true.
Proof.
  induction 1 as [|w ws [_ Hw] Hws IH]; [done|].
  destruct Hws as [|w' ws [Hne' Hw'] _].
  - simpl. rewrite <- (app_nil_r w). by apply single_spaced_app_word.
  - rewrite join_cons by done. apply single_spaced_app_word; [done|].
    change (lit " " ++ ?s) with (32%N :: s). cbn [single_spaced]. rewrite IH.
    destruct w' as [|c w']; [done|]. apply list.Forall_cons in Hw' as [Hc _].
    destruct ws; simpl; by rewrite Hc.
Qed.

(** Splitting the words joined by a whitespace separator gives the words
    back. *)
Lemma split_join c ws :
  isspace c = true → Forall is_word ws → split (join [c] ws) = ws.
Proof.
  intros Hc. induction 1 as [|w ws Hw Hws IH]; [done|].
  destruct ws as [|w' ws]; [by apply split_word|].
  rewrite join_cons by done. unfold split in *.
  destruct Hw as [Hne Hw]. rewrite split_from_app_word by done. simpl app at 1.
  cbn [app]. rewrite split_from_space by done. rewrite emit_cons by done.
  f_equal. apply IH.
Qed.

End join_lemmas.

(** ** Examples *)

Example split_ex :
  split (lit "  the  cat sat ") = [lit "the"; lit "cat"; lit "sat"].
Proof. reflexivity. Qed.

(** Whitespace is more than ASCII: the no-break space, the line separator
    and the ideographic space separate words, the zero-width space does not. *)
Example split_unicode_ex :
  split ([97; 0xA0; 98; 0x2028; 99; 0x3000; 100; 0x200B; 101])
  = [[97]; [98]; [99]; [100; 0x200B; 101]].
Proof. reflexivity. Qed.

Example strip_ex : strip (lit "  a b  ") = lit "a b".
Proof. reflexivity. Qed.

Example join_ex : join (lit " ") [lit "a"; lit "b"; lit "c"] = lit "a b c".
Proof. reflexivity. Qed.

Example slice_ex :
  slice [1; 2; 3; 4; 5]%nat 1 3 = [2; 3]%nat ∧
  slice [1; 2; 3; 4; 5]%nat 0 (-1) = [1; 2; 3; 4]%nat ∧
  slice [1; 2; 3; 4; 5]%nat 3 9 = [4; 5]%nat ∧
  slice [1; 2; 3; 4; 5]%nat (-2) 5 = [4; 5]%nat ∧
  slice [1; 2; 3; 4; 5]%nat 4 2 = [].
Proof. repeat split; reflexivity. Qed.

(** ** The order of strings and [sorted] *)

Section sorted_lemmas.
Implicit Types (s t u : pystr) (l : list pystr).

Lemma str_leb_cons a b s t :
  str_leb (a :: s) (b :: t) = (a <? b)%N || ((a =? b)%N && str_leb s t).
Proof. done. Qed.

#[export] Instance str_le_refl : Reflexive str_le.
Proof.
  intros s. unfold str_le. induction s as [|a s IH]; [done|].
  rewrite str_leb_cons, IH. lia.
Qed.

#[export] Instance str_le_trans : Transitive str_le.
Proof.
  unfold str_le. intros s. induction s as [|a s IH]; intros [|b t] [|c u]; try done.
  rewrite !str_leb_cons. intros Hst Htu.
  destruct (str_leb s t) eqn:H1, (str_leb t u) eqn:H2;
    try rewrite (IH t u H1 H2); lia.
Qed.

#[export] Instance str_le_total : Total str_le.
Proof.
  unfold str_le. intros s. induction s as [|a s IH]; intros [|b t]; auto.
  rewrite !str_leb_cons. destruct (IH t) as [->| ->]; lia.
Qed.

#[export] Instance str_le_antisymm : AntiSymm (=) str_le.
Proof.
  unfold str_le. intros s. induction s as [|a s IH]; intros [|b t]; try done.
  rewrite !str_leb_cons. intros Hst Hts.
  assert (a = b) as -> by lia. f_equal. apply IH; lia.
Qed.

Lemma sorted_Permutation l : sorted l ≡ₚ l.
Proof. apply merge_sort_Permutation. Qed.

Lemma StronglySorted_sorted l : StronglySorted str_le (sorted l).
Proof. apply (StronglySorted_merge_sort str_le). Qed.

Lemma elem_of_sorted l s : s ∈ sorted l ↔ s ∈ l.
Proof. by rewrite sorted_Permutation. Qed.

Lemma length_sorted l : length (sorted l) = length l.
Proof. by rewrite sorted_Permutation. Qed.

Lemma NoDup_sorted l : NoDup l → NoDup (sorted l).
Proof. by rewrite sorted_Permutation. Qed.

(** [sorted] sees the elements, not their order: whatever the iteration
    order of a set, [sorted] of it is the same list. *)
Lemma sorted_order_irrelevant l1 l2 : l1 ≡ₚ l2 → sorted l1 = sorted l2.
Proof.
  intros Hp. apply (StronglySorted_unique str_le); [apply StronglySorted_sorted..|].
  by rewrite !sorted_Permutation.
Qed.

End sorted_lemmas.
