(* ===== verification/Counter.v ===== *)
(** * Python's [dict] and [collections.Counter]

    A Python [dict] keeps its keys in order of first insertion, and
    [json.dump] writes them in that order, so a table is modelled as an
    association list whose keys are pairwise distinct.  [Counter(iterable)]
    and nltk's [FreqDist(iterable)] (a subclass of [Counter]) run
    [c[x] = c.get(x, 0) + 1] for every element.  The abstract view of a
    counter is the finite multiset of the elements counted. *)

From stdpp Require Import prelude gmultiset.
From S2P Require Import Prelude PyStr.

#[local] Open Scope Z_scope.

(** A [dict] with keys [K] and values [V], in insertion order. *)
Abbreviation dict K V := (list (K * V)) (only parsing).

Section dict.
Context `{EqDecision K} {V : Type}.
Implicit Types (d : dict K V) (k : K) (v : V).

(** [d.get(k)]: [None] when the key is absent. *)
Fixpoint dict_get d k : option V :=
  match d with
  | [] => None
  | (k', v) :: d' => if decide (k = k') then Some v else dict_get d' k
  end.

(** [d.get(k, dflt)] *)
Definition dict_get_default d k (dflt : V) : V := default dflt (dict_get d k).

(** [d[k]]: raises [KeyError] when the key is absent. *)
Definition dict_getitem d k : result V :=
  match dict_get d k with Some v => Ok v | None => Raise KeyError end.

(** [k in d] *)
Definition dict_mem d k : bool := bool_decide (is_Some (dict_get d k)).

(** [d[k] = v]: an existing key keeps its place, a new key goes last. *)
Fixpoint dict_set d k v : dict K V :=
  match d with
  | [] => [(k, v)]
  | (k', v') :: d' =>
      if decide (k = k') then (k, v) :: d' else (k', v') :: dict_set d' k v
  end.

(** [d.keys()], [d.values()] in iteration order; [d.items()] is [d]. *)
Definition keys d : list K := d.*1.
Definition values d : list V := d.*2.

(** The invariant of a [dict]: no key occurs twice. *)
Definition dict_wf d : Prop := NoDup (keys d).

(** Two tables that map every key alike, whatever their order. *)
Definition dict_equiv d1 d2 : Prop := ∀ k, dict_get d1 k = dict_get d2 k.

End dict.

Section counter.
Context `{Countable K}.
Implicit Types (c : dict K Z) (k : K) (l : list K).

(** [c[k] = c.get(k, 0) + 1] *)
Definition counter_incr c k : dict K Z := dict_set c k (dict_get_default c k 0 + 1).

(** [c.update(iterable)] *)
Definition counter_update c l : dict K Z := foldl counter_incr c l.

(** [Counter(iterable)], and nltk's [FreqDist(iterable)]. *)
Definition Counter l : dict K Z := counter_update [] l.

(** The invariant of a counter built by counting: distinct keys, positive
    counts. *)
Definition counter_wf c : Prop := dict_wf c ∧ Forall (λ kv, 0 < kv.2) c.

(** The multiset a counter stands for. *)
Definition counter_abs c : gmultiset K :=
  foldr (λ kv m, Z.to_nat kv.2 *: {[+ kv.1 +]} ⊎ m) ∅ c.

End counter.

(** ** Lookup and update *)

Section dict_lemmas.
Context `{EqDecision K} {V : Type}.
Implicit Types (d : dict K V) (k : K) (v : V).

Lemma dict_get_None d k : dict_get d k = None ↔ k ∉ keys d.
Proof.
  unfold keys. induction d as [|[k' v'] d IH]; simpl.
  - split; [intros _ ?%elem_of_nil|]; done.
  - rewrite not_elem_of_cons, <- IH. case_decide; intuition congruence.
Qed.

Lemma dict_get_is_Some d k : is_Some (dict_get d k) ↔ k ∈ keys d.
Proof.
  rewrite <- not_eq_None_Some, dict_get_None.
  destruct (decide (k ∈ keys d)); naive_solver.
Qed.

Lemma dict_get_elem d k v : dict_get d k = Some v → (k, v) ∈ d.
Proof.
  induction d as [|[k' v'] d IH]; simpl; [done|].
  case_decide; intros; simplify_eq; [left | right; auto].
Qed.

Lemma dict_elem_get d k v : dict_wf d → (k, v) ∈ d → dict_get d k = Some v.
Proof.
  unfold dict_wf, keys. induction d as [|[k' v'] d IH]; simpl.
  - by intros _ ?%elem_of_nil.
  - intros [Hk Hd]%list.NoDup_cons [?|Hin]%elem_of_cons; simplify_eq.
    + by rewrite decide_True.
    + rewrite decide_False; [auto|]. intros ->. apply Hk.
      apply list_elem_of_fmap. by exists (k', v).
Qed.

Lemma dict_get_set d k k' v :
  dict_get (dict_set d k v) k' = if decide (k' = k) then Some v else dict_get d k'.
Proof.
  induction d as [|[k1 v1] d IH]; simpl; repeat (case_decide; simpl);
    simplify_eq; done.
Qed.

Lemma dict_get_set_eq d k v : dict_get (dict_set d k v) k = Some v.
Proof. by rewrite dict_get_set, decide_True. Qed.

Lemma dict_get_set_ne d k k' v :
  k' ≠ k → dict_get (dict_set d k v) k' = dict_get d k'.
Proof. intros. by rewrite dict_get_set, decide_False. Qed.

(** Updating a key that is present changes no key and no position. *)
Lemma keys_set_present d k v : k ∈ keys d → keys (dict_set d k v) = keys d.
Proof.
  unfold keys. induction d as [|[k' v'] d IH]; simpl; [by intros ?%elem_of_nil|].
  intros Hk. case_decide; simplify_eq/=; [done|]. f_equal. apply IH.
  by apply elem_of_cons in Hk as [?|?].
Qed.

(** A new key is appended after the others. *)
Lemma dict_set_absent d k v : k ∉ keys d → dict_set d k v = d ++ [(k, v)].
Proof.
  unfold keys. induction d as [|[k' v'] d IH]; simpl; [done|].
  intros [??]%not_elem_of_cons. rewrite decide_False by done. f_equal; auto.
Qed.

Lemma keys_set d k v :
  keys (dict_set d k v) = keys d ++ (if decide (k ∈ keys d) then [] else [k]).
Proof.
  case_decide.
  - by rewrite keys_set_present, app_nil_r.
  - rewrite dict_set_absent by done. unfold keys. by rewrite fmap_app.
Qed.

Lemma dict_set_wf d k v : dict_wf d → dict_wf (dict_set d k v).
Proof.
  unfold dict_wf. rewrite keys_set. case_decide; [by rewrite app_nil_r|].
  intros. apply list.NoDup_app. split_and!; [done| |apply NoDup_singleton].
  by intros k' ? ->%list_elem_of_singleton.
Qed.

(** [d[k] if k in d else dflt] never raises and is [d.get(k, dflt)]. *)
Lemma dict_getitem_guarded d k (dflt : V) :
  (if dict_mem d k then dict_getitem d k else Ok dflt)
  = Ok (dict_get_default d k dflt).
Proof.
  unfold dict_mem, dict_getitem, dict_get_default.
  by destruct (dict_get d k).
Qed.

#[export] Instance dict_equiv_equivalence : Equivalence (@dict_equiv K _ V).
Proof.
  split; [done | by intros d1 d2 ? k | intros d1 d2 d3 H1 H2 k].
  by rewrite H1.
Qed.

#[export] Instance dict_get_proper : Proper (dict_equiv ==> (=) ==> (=)) (@dict_get K _ V).
Proof. by intros d1 d2 Hd k ? <-. Qed.

#[export] Instance dict_get_default_proper :
  Proper (dict_equiv ==> (=) ==> (=) ==> (=)) (@dict_get_default K _ V).
Proof. intros d1 d2 Hd k ? <- v ? <-. unfold dict_get_default. by rewrite Hd. Qed.

#[export] Instance dict_mem_proper : Proper (dict_equiv ==> (=) ==> (=)) (@dict_mem K _ V).
Proof. intros d1 d2 Hd k ? <-. unfold dict_mem. by rewrite Hd. Qed.

#[export] Instance dict_set_proper :
  Proper (dict_equiv ==> (=) ==> (=) ==> dict_equiv) (@dict_set K _ V).
Proof. intros d1 d2 Hd k ? <- v ? <- k'. by rewrite !dict_get_set, Hd. Qed.

(** A table written out key by key. *)
Lemma dict_get_tabulate (f : K → V) (l : list K) k :
  k ∈ l → dict_get ((λ x, (x, f x)) <$> l) k = Some (f k).
Proof.
  induction l as [|x l IH]; csimpl; [by intros ?%elem_of_nil|].
  intros Hk. case_decide; [by subst|]. apply IH. by apply elem_of_cons in Hk as [?|?].
Qed.

Lemma dict_getitem_tabulate (f : K → V) (l : list K) k :
  k ∈ l → dict_getitem ((λ x, (x, f x)) <$> l) k = Ok (f k).
Proof. intros Hk. unfold dict_getitem. by rewrite dict_get_tabulate. Qed.

End dict_lemmas.

(** Mapping a function over the values commutes with assignment. *)
Lemma dict_set_fmap `{EqDecision K} {V W} (f : V → W) (d : dict K V) k v :
  dict_set (prod_map id f <$> d) k (f v) = prod_map id f <$> dict_set d k v.
Proof.
  induction d as [|[k' v'] d IH]; csimpl; [done|].
  case_decide; csimpl; [done|]. by rewrite IH.
Qed.

(** Well-formed tables that map every key alike have the same keys up to
    order, hence the same size. *)
Lemma dict_equiv_keys `{EqDecision K} {V} (d1 d2 : dict K V) :
  dict_wf d1 → dict_wf d2 → dict_equiv d1 d2 → keys d1 ≡ₚ keys d2.
Proof.
  intros Hd1 Hd2 Heq. apply NoDup_Permutation; [done..|]. intros k.
  by rewrite <- !dict_get_is_Some, Heq.
Qed.

Lemma dict_equiv_length `{EqDecision K} {V} (d1 d2 : dict K V) :
  dict_wf d1 → dict_wf d2 → dict_equiv d1 d2 → length d1 = length d2.
Proof.
  intros Hd1 Hd2 Heq. pose proof (dict_equiv_keys d1 d2 Hd1 Hd2 Heq) as Hp.
  apply Permutation_length in Hp. unfold keys in Hp. by rewrite !length_fmap in Hp.
Qed.

(** A loop [for k, v in d.items(): acc[k] = f(k, v)] over keys that are
    distinct and new appends one entry per item, in order, and stops at the
    first item on which [f] raises. *)
Lemma foldM_dict_set `{EqDecision K} {V W} (f : K * V → result W)
    (d : dict K V) (acc : dict K W) :
  NoDup (keys acc ++ keys d) →
  foldM (λ acc kv, y ← f kv; Ok (dict_set acc kv.1 y)) acc d
  = ys ← mapR (λ kv, y ← f kv; Ok (kv.1, y)) d; Ok (acc ++ ys).
Proof.
  unfold keys. revert acc. induction d as [|[k v] d IH]; intros acc Hnd; csimpl.
  - by rewrite app_nil_r.
  - destruct (f (k, v)) as [y|e]; csimpl; [|done].
    apply list.NoDup_app in Hnd as Hnd'. destruct Hnd' as (_ & Hacc & _).
    rewrite dict_set_absent by (intros ?; eapply Hacc; [done|left]).
    rewrite IH by (by rewrite fmap_app, <- app_assoc).
    destruct (mapR _ d); csimpl; [|done]. by rewrite <- app_assoc.
Qed.

(** The same loop when the value never raises: a comprehension. *)
Lemma foldM_dict_set_pure `{EqDecision K} {V W} (f : K * V → W) (d : dict K V) :
  dict_wf d →
  foldM (λ acc kv, Ok (dict_set acc kv.1 (f kv))) [] d = Ok ((λ kv, (kv.1, f kv)) <$> d).
Proof.
  intros Hwf. etrans; [apply (foldM_dict_set (λ kv, Ok (f kv)) d []); by simpl|].
  by rewrite (mapR_pure (λ kv, (kv.1, f kv))).
Qed.

#[export] Hint Resolve dict_set_wf : py.

(** ** Counting *)

Section dict_Z.
Context `{EqDecision K}.
Implicit Types (d : dict K Z) (k : K).

Lemma Forall_dict_set {V} (P : K * V → Prop) (d : dict K V) k v :
  Forall P d → P (k, v) → Forall P (dict_set d k v).
Proof.
  induction 1 as [|[k' v'] d ? ? IH]; simpl; intros; [by repeat constructor|].
  case_decide; constructor; auto.
Qed.

Lemma sum_values_set d k v :
  sumZ (values (dict_set d k v)) = sumZ (values d) - dict_get_default d k 0 + v.
Proof.
  unfold values, dict_get_default.
  induction d as [|[k' v'] d IH]; csimpl; [lia|].
  case_decide; csimpl; lia.
Qed.

Lemma dict_get_default_nonneg d k :
  Forall (λ kv, 0 < kv.2) d → 0 ≤ dict_get_default d k 0.
Proof.
  intros Hd. unfold dict_get_default. destruct (dict_get d k) as [v|] eqn:E; [|simpl; lia].
  apply dict_get_elem in E. rewrite list.Forall_forall in Hd. apply Hd in E. simpl in *. lia.
Qed.

End dict_Z.

Section counter_lemmas.
Context `{Countable K}.
Implicit Types (c : dict K Z) (k : K) (l : list K).

Lemma counter_update_cons c k l :
  counter_update c (k :: l) = counter_update (counter_incr c k) l.
Proof. done. Qed.

Lemma counter_update_app c l1 l2 :
  counter_update c (l1 ++ l2) = counter_update (counter_update c l1) l2.
Proof. apply foldl_app. Qed.

Lemma counter_incr_get c k k' :
  dict_get_default (counter_incr c k) k' 0
  = dict_get_default c k' 0 + (if decide (k' = k) then 1 else 0).
Proof.
  unfold counter_incr, dict_get_default. rewrite dict_get_set.
  case_decide; simplify_eq/=; lia.
Qed.

Lemma counter_update_get c l k :
  dict_get_default (counter_update c l) k 0 = dict_get_default c k 0 + Z.of_nat (occ k l).
Proof.
  revert c. induction l as [|x l IH]; intros c.
  - rewrite occ_nil. simpl. lia.
  - rewrite counter_update_cons, IH, counter_incr_get, occ_cons. case_decide; lia.
Qed.

Lemma counter_incr_wf c k : counter_wf c → counter_wf (counter_incr c k).
Proof.
  intros [Hd Hpos]. split; [by apply dict_set_wf|].
  apply Forall_dict_set; [done|]. pose proof (dict_get_default_nonneg c k Hpos).
  simpl. lia.
Qed.

Lemma counter_update_wf c l : counter_wf c → counter_wf (counter_update c l).
Proof.
  revert c. induction l as [|x l IH]; intros c Hc; [done|].
  rewrite counter_update_cons. by apply IH, counter_incr_wf.
Qed.

Lemma counter_wf_nil : counter_wf (@nil (K * Z)).
Proof. split; [apply NoDup_nil_2 | constructor]. Qed.

Lemma counter_incr_sum c k :
  sumZ (values (counter_incr c k)) = sumZ (values c) + 1.
Proof. unfold counter_incr. rewrite sum_values_set. lia. Qed.

Lemma counter_update_sum c l :
  sumZ (values (counter_update c l)) = sumZ (values c) + len l.
Proof.
  revert c. induction l as [|x l IH]; intros c; [unfold len; simpl; lia|].
  rewrite counter_update_cons, IH, counter_incr_sum. len_solve.
Qed.

Lemma counter_incr_keys c k :
  keys (counter_incr c k) = keys c ++ (if decide (k ∈ keys c) then [] else [k]).
Proof. apply keys_set. Qed.

(** The keys of an updated counter: the old ones in place, then the new
    elements in order of first occurrence. *)
Lemma counter_update_keys c l :
  keys (counter_update c l) = keys c ++ filter (.∉ keys c) (nub l).
Proof.
  revert c. induction l as [|x l IH]; intros c; [by rewrite app_nil_r|].
  rewrite counter_update_cons, IH, counter_incr_keys. simpl. case_decide.
  - rewrite app_nil_r, filter_cons_False by auto. f_equal.
    symmetry. apply list_filter_filter_l. by intros y ? ->.
  - rewrite filter_cons_True, <- app_assoc by done. do 2 f_equal.
    rewrite list_filter_filter. apply list_filter_iff. intros y.
    rewrite not_elem_of_app, list_elem_of_singleton. naive_solver.
Qed.

(** The multiset view of a well-formed counter has the counts as
    multiplicities. *)
Lemma counter_abs_multiplicity c k :
  counter_wf c → multiplicity k (counter_abs c) = Z.to_nat (dict_get_default c k 0).
Proof.
  unfold counter_wf, dict_wf, keys, dict_get_default.
  induction c as [|[k' v'] c IH]; csimpl; [by rewrite multiplicity_empty|].
  intros [[Hk Hnd]%list.NoDup_cons [Hv Hpos]%list.Forall_cons].
  rewrite multiplicity_disj_union, multiplicity_scalar_mul, multiplicity_singleton, IH by done.
  repeat case_decide; simplify_eq; [|lia].
  apply dict_get_None in Hk. rewrite Hk. simpl. lia.
Qed.

End counter_lemmas.

#[export] Hint Resolve counter_incr_wf counter_update_wf counter_wf_nil : py.

(** ** What [Counter] computes *)

Section dict_items.
Context `{EqDecision K} {V : Type}.

(** A well-formed table is determined by its keys and its lookups. *)
Lemma dict_items_lookup (d : dict K V) (dflt : V) :
  dict_wf d → d = (λ k, (k, dict_get_default d k dflt)) <$> keys d.
Proof.
  unfold dict_wf, keys, dict_get_default.
  induction d as [|[k v] d IH]; csimpl; [done|].
  intros [Hk Hd]%list.NoDup_cons. rewrite decide_True by done. f_equal.
  rewrite IH at 1 by done. rewrite <- !list_fmap_compose.
  apply list_fmap_ext; intros i [k' v'] Hi; simpl.
  rewrite decide_False; [done|]. intros ->. apply Hk.
  apply list_elem_of_fmap. exists (k, v'). eauto using list_elem_of_lookup_2.
Qed.

End dict_items.

Section Counter_spec.
Context `{Countable K}.
Implicit Types (c : dict K Z) (k : K) (l : list K).

Lemma Counter_get l k : dict_get_default (Counter l) k 0 = Z.of_nat (occ k l).
Proof. unfold Counter. by rewrite counter_update_get. Qed.

Lemma Counter_wf l : counter_wf (Counter l).
Proof. apply counter_update_wf, counter_wf_nil. Qed.

Lemma Counter_keys l : keys (Counter l) = nub l.
Proof.
  unfold Counter. rewrite counter_update_keys. simpl.
  apply filter_all, list.Forall_forall. intros k _. apply not_elem_of_nil.
Qed.

Lemma Counter_mem l k : k ∈ keys (Counter l) ↔ k ∈ l.
Proof. by rewrite Counter_keys, elem_of_nub. Qed.

Lemma Counter_length l : length (Counter l) = length (nub l).
Proof. by rewrite <- Counter_keys; unfold keys; rewrite length_fmap. Qed.

Lemma Counter_nil_iff l : Counter l = [] ↔ l = [].
Proof.
  split; [|by intros ->]. intros E. destruct l as [|k l]; [done|].
  assert (k ∈ keys (Counter (k :: l))) as Hk by (apply Counter_mem; left).
  rewrite E in Hk. by apply elem_of_nil in Hk.
Qed.

Lemma Counter_get_Some l k v :
  dict_get (Counter l) k = Some v ↔ k ∈ l ∧ v = Z.of_nat (occ k l).
Proof.
  pose proof (Counter_get l k) as Hg. unfold dict_get_default in Hg.
  rewrite <- Counter_mem, <- dict_get_is_Some.
  destruct (dict_get (Counter l) k) as [v'|]; simpl in *;
    split; rewrite ?is_Some_alt; naive_solver.
Qed.

Lemma Counter_elem l k v : (k, v) ∈ Counter l ↔ k ∈ l ∧ v = Z.of_nat (occ k l).
Proof.
  rewrite <- Counter_get_Some. split; [|apply dict_get_elem].
  apply dict_elem_get, Counter_wf.
Qed.

(** Every count of the table is at least 1. *)
Lemma Counter_elem_pos l k v : (k, v) ∈ Counter l → 1 ≤ v.
Proof. intros [Hk ->]%Counter_elem. apply occ_pos in Hk. lia. Qed.

Lemma occ_multiplicity l k : multiplicity k (list_to_set_disj l : gmultiset K) = occ k l.
Proof.
  induction l as [|x l IH]; [by rewrite list_to_set_disj_nil, multiplicity_empty|].
  rewrite list_to_set_disj_cons, multiplicity_disj_union, multiplicity_singleton,
    occ_cons, IH.
  repeat case_decide; congruence.
Qed.

Lemma counter_incr_abs c k :
  counter_wf c → counter_abs (counter_incr c k) = {[+ k +]} ⊎ counter_abs c.
Proof.
  intros Hc. apply gmultiset_eq; intros k'.
  rewrite multiplicity_disj_union, multiplicity_singleton,
    !counter_abs_multiplicity, counter_incr_get by auto with py.
  destruct Hc as [_ Hc]. pose proof (dict_get_default_nonneg c k' Hc).
  repeat case_decide; simplify_eq; lia.
Qed.

(** The table of [Counter(l)], entry by entry. *)
Lemma Counter_nub l : Counter l = (λ k, (k, Z.of_nat (occ k l))) <$> nub l.
Proof.
  rewrite (dict_items_lookup (Counter l) 0) at 1 by apply Counter_wf.
  rewrite Counter_keys. apply list_fmap_ext; intros i k _. by rewrite Counter_get.
Qed.

(** C3: [Counter(l)] (and nltk's [FreqDist(l)]) is the table that lists the
    distinct elements of [l] in order of first occurrence, each with the
    number of its occurrences: this is the order in which the table is
    iterated and written out, and the counts that are written. *)
Theorem Counter_items l :
  Counter l = (λ k, (k, Z.of_nat (occ k l))) <$> nub l ∧ counter_wf (Counter l).
Proof. split; [apply Counter_nub|apply Counter_wf]. Qed.

(** C18: the counts of [Counter(l)] add up to [len(l)]: no occurrence is lost
    or counted twice. *)
Theorem Counter_sum l : sumZ (values (Counter l)) = len l.
Proof. unfold Counter. by rewrite counter_update_sum. Qed.

(** C26: [Counter] refines multiset construction: the table built from [l]
    stands for the multiset of the elements of [l], whatever their order. *)
Theorem Counter_abs l : counter_abs (Counter l) = list_to_set_disj l.
Proof.
  apply gmultiset_eq; intros k.
  by rewrite counter_abs_multiplicity, Counter_get, occ_multiplicity, Nat2Z.id
    by apply Counter_wf.
Qed.

(** C38: updating a well-formed counter keeps it well formed and adds to each
    count the occurrences of its key among the new elements: counting in
    several passes gives the counts of one pass over the concatenation. *)
Theorem counter_update_correct c l k :
  counter_wf c →
  counter_wf (counter_update c l) ∧
  dict_get_default (counter_update c l) k 0
  = dict_get_default c k 0 + Z.of_nat (occ k l).
Proof. intros Hc. split; [by apply counter_update_wf | apply counter_update_get]. Qed.

End Counter_spec.

(** Counting the images under an injective function. *)
Lemma Counter_fmap_inj `{Countable K, Countable K'} (f : K → K') `{!Inj (=) (=) f}
    (l : list K) :
  Counter (f <$> l) = prod_map f id <$> Counter l.
Proof.
  rewrite !Counter_nub, nub_fmap_inj, <- !list_fmap_compose by done.
  apply list_fmap_ext; intros _ k _; cbn. by rewrite occ_fmap_inj.
Qed.

#[export] Hint Resolve Counter_wf : py.

Lemma counter_update_correct_witness :
  counter_wf (Counter [1; 2; 1]%nat) ∧
  dict_get_default (counter_update (Counter [1; 2; 1]%nat) [2; 3]%nat) 2%nat 0 = 2.
Proof.
  split; [apply Counter_wf|].
  destruct (counter_update_correct (Counter [1; 2; 1]%nat) [2; 3]%nat 2%nat)
    as [_ ->]; [apply Counter_wf | reflexivity].
Defined.

(** The table of the specification's example:
    [a b a b c] at order 2 has counts [(a,b):2, (b,a):1, (b,c):1]. *)
Example Counter_ex :
  Counter [[1; 2]; [2; 1]; [1; 2]; [2; 3]]%nat
  = [([1; 2]%nat, 2); ([2; 1]%nat, 1); ([2; 3]%nat, 1)].
Proof. reflexivity. Qed.
