(* ===== verification/Ngrams.v ===== *)
(** * N-gram construction

    [build_ngrams] of amazigh/pipeline.py, and the sliding window that
    ngrams_tp.py obtains from [nltk.util.ngrams], [bigrams] and [trigrams].
    Tokens are arbitrary values; a gram (a Python tuple) is a list of
    tokens.  The order [n] is a Python integer: [build_ngrams] is defined for
    every [n], negative ones included, as the code is. *)

From stdpp Require Import prelude.
From S2P Require Import Prelude PyStr.

Section ngrams.
Context {T : Type}.
Implicit Types (tokens l g : list T).

(** pipeline.py, [build_ngrams]: the loop appends [tuple(tokens[i:i + n])]
    for [i] in [range(len(tokens) - n + 1)]. *)
Definition build_ngrams tokens (n : Z) : list (list T) :=
  foldl (λ ngrams i, ngrams ++ [slice tokens i (i + n)]) []
        (range (len tokens - n + 1)).

(** The windows of width [n] by position: the reference definition. *)
Definition grams (n : nat) l : list (list T) :=
  (λ i, take n (drop i l)) <$> seq 0 (length l + 1 - n).

(** The sliding window of [nltk.util.ngrams]: the zip of the [n] shifted
    copies of the sequence stops with the shortest, so a window is produced
    as long as [n] elements remain. *)
Fixpoint windows (n : nat) l : list (list T) :=
  match l with
  | [] => []
  | x :: l' => if decide (n ≤ length l) then take n l :: windows n l' else []
  end.

(** [nltk.util.ngrams(sequence, n)] without padding; the zip of no iterator
    at all is empty. *)
Definition ngrams l (n : nat) : list (list T) :=
  match n with 0 => [] | S _ => windows n l end.

(** [nltk.bigrams], [nltk.trigrams] *)
Definition bigrams l : list (list T) := ngrams l 2.
Definition trigrams l : list (list T) := ngrams l 3.

(** [ngram[:-1]]: the conditioning context of a gram. *)
Definition but_last g : list T := slice g 0 (-1).

End ngrams.

(** The example of the specification: [a b a b c] at order 2. *)
Example build_ngrams_ex :
  build_ngrams [1; 2; 1; 2; 3]%nat 2 = [[1; 2]; [2; 1]; [1; 2]; [2; 3]]%nat
  ∧ build_ngrams [1; 2]%nat 3 = []
  ∧ build_ngrams [1; 2]%nat 0 = [[]; []; []]
  ∧ bigrams [1; 2; 1; 2; 3]%nat = [[1; 2]; [2; 1]; [1; 2]; [2; 3]]%nat.
Proof. repeat split; reflexivity. Qed.

(** ** The windows by position *)

Section grams_lemmas.
Context {T : Type}.
Implicit Types (tokens l g : list T) (n i : nat).

Lemma length_grams n l : length (grams n l) = length l + 1 - n.
Proof. unfold grams. by rewrite length_fmap, length_seq. Qed.

Lemma grams_lookup n l i :
  i < length l + 1 - n → grams n l !! i = Some (take n (drop i l)).
Proof.
  intros Hi. unfold grams. rewrite list_lookup_fmap, lookup_seq_lt by done.
  done.
Qed.

Lemma elem_of_grams n l g :
  g ∈ grams n l ↔ ∃ i, i < length l + 1 - n ∧ g = take n (drop i l).
Proof.
  unfold grams. rewrite list_elem_of_fmap. setoid_rewrite elem_of_seq.
  naive_solver lia.
Qed.

(** Every window of a positive order has exactly [n] tokens. *)
Lemma grams_length n l g : g ∈ grams n l → length g = n.
Proof.
  intros (i & Hi & ->)%elem_of_grams. rewrite length_take, length_drop. lia.
Qed.

Lemma grams_too_long n l : length l < n → grams n l = [].
Proof. intros. apply nil_length_inv. rewrite length_grams. lia. Qed.

Lemma grams_cons n x l :
  0 < n → n ≤ S (length l) → grams n (x :: l) = take n (x :: l) :: grams n l.
Proof.
  intros ? ?. unfold grams. simpl length.
  replace (S (length l) + 1 - n) with (S (length l + 1 - n)) by lia.
  rewrite <- cons_seq, fmap_cons, <- fmap_S_seq, <- list_fmap_compose. done.
Qed.

Lemma grams_windows n l : 0 < n → grams n l = windows n l.
Proof.
  intros Hn. induction l as [|x l IH]; simpl.
  - apply grams_too_long. simpl. lia.
  - case_decide; [by rewrite grams_cons, IH by (simpl in *; lia)|].
    apply grams_too_long. simpl in *. lia.
Qed.

Lemma grams_1 l : grams 1 l = (λ t, [t]) <$> l.
Proof.
  rewrite grams_windows by lia. induction l as [|x l IH]; [done|].
  cbn [windows]. rewrite decide_True by (simpl; lia). by rewrite IH.
Qed.

Lemma ngrams_grams n l : 0 < n → ngrams l n = grams n l.
Proof. intros Hn. rewrite grams_windows by done. by destruct n; [lia|]. Qed.

Lemma occ_grams_1 `{EqDecision T} (l : list T) x : occ [x] (grams 1 l) = occ x l.
Proof. rewrite grams_1. apply (occ_fmap_inj (λ t, [t])). Qed.

Lemma but_last_take g : but_last g = take (length g - 1) g.
Proof. apply slice_init. Qed.

(** Dropping the last token of the windows of order [n + 1] gives the
    windows of order [n], except the last of them. *)
Lemma but_last_grams n l :
  but_last <$> grams (S n) l = take (length l - n) (grams n l).
Proof.
  unfold grams. rewrite <- fmap_take, take_seq, <- list_fmap_compose.
  replace (length l + 1 - S n) with (length l - n) by lia.
  replace ((length l - n) `min` (length l + 1 - n)) with (length l - n) by lia.
  apply list_fmap_ext. intros j i [-> Hi]%lookup_seq. simpl.
  rewrite but_last_take, take_take, length_take, length_drop. f_equal. lia.
Qed.

End grams_lemmas.

(** ** [build_ngrams] *)

Section build_ngrams_lemmas.
Context {T : Type}.
Implicit Types (tokens : list T) (n : Z).

#[local] Open Scope Z_scope.

(** The loop of [build_ngrams] as a comprehension. *)
Lemma build_ngrams_fmap tokens n :
  build_ngrams tokens n
  = (λ i, slice tokens i (i + n)) <$> range (len tokens - n + 1).
Proof. unfold build_ngrams. by rewrite foldl_snoc_fmap. Qed.

(** For an order that is not negative, [build_ngrams] lists the windows by
    position. *)
Lemma build_ngrams_grams tokens n :
  0 ≤ n → build_ngrams tokens n = grams (Z.to_nat n) tokens.
Proof.
  intros Hn. rewrite build_ngrams_fmap, range_seq, <- list_fmap_compose.
  unfold grams, len.
  replace (Z.to_nat (Z.of_nat (length tokens) - n + 1))
    with (length tokens + 1 - Z.to_nat n)%nat by lia.
  apply list_fmap_ext; intros j i _; simpl.
  rewrite slice_nonneg by lia. rewrite Nat2Z.id. f_equal. lia.
Qed.

Lemma length_build_ngrams tokens n :
  length (build_ngrams tokens n) = Z.to_nat (len tokens - n + 1).
Proof. by rewrite build_ngrams_fmap, length_fmap, length_range. Qed.

(** The grams are made of the tokens. *)
Lemma Forall_build_ngrams (P : T → Prop) tokens n :
  Forall P tokens → Forall (Forall P) (build_ngrams tokens n).
Proof.
  intros Hall. rewrite build_ngrams_fmap. apply Forall_fmap, Forall_true. intros i.
  unfold slice. by apply Forall_take, Forall_drop.
Qed.

(** Where there are grams of an order, there are grams of the order below. *)
Lemma build_ngrams_lower_nonempty tokens n :
  build_ngrams tokens n ≠ [] → build_ngrams tokens (n - 1) ≠ [].
Proof.
  intros Hn Hl. apply (f_equal length) in Hl. rewrite length_build_ngrams in Hl.
  apply Hn, nil_length_inv. rewrite length_build_ngrams. simpl in Hl. lia.
Qed.

(** The n-grams a gram of the next order is counted against: every gram
    occurs at most as often as its context among the grams one order down. *)
Lemma occ_but_last_grams `{EqDecision T} (k : nat) (l g : list T) :
  (occ g (grams (S k) l) ≤ occ (but_last g) (grams k l))%nat.
Proof.
  etrans; [apply (occ_fmap_le but_last)|].
  rewrite but_last_grams. apply occ_take_le.
Qed.

(** In the tables counted from one token sequence, a gram of the order [n]
    occurs at most as often as its context among the grams of the order
    [n - 1]. *)
Lemma occ_but_last_build_ngrams `{EqDecision T} tokens n (g : list T) :
  1 ≤ n →
  (occ g (build_ngrams tokens n) ≤ occ (but_last g) (build_ngrams tokens (n - 1)))%nat.
Proof.
  intros Hn. rewrite !build_ngrams_grams by lia.
  replace (Z.to_nat n) with (S (Z.to_nat (n - 1))) by lia. apply occ_but_last_grams.
Qed.

(** C2: [build_ngrams(tokens, n)] has [len(tokens) - n + 1] grams, and none
    when [n] exceeds [len(tokens)]: no order raises. *)
Theorem build_ngrams_length tokens n :
  len (build_ngrams tokens n) = Z.max 0 (len tokens - n + 1).
Proof.
  unfold len at 1. rewrite length_build_ngrams. lia.
Qed.

(** C32: for a positive order, gram number [i] of [build_ngrams(tokens, n)] is
    [tokens[i:i + n]], the [n] tokens from position [i], in order of
    occurrence and without deduplication. *)
Theorem build_ngrams_lookup tokens n (i : nat) :
  1 ≤ n → Z.of_nat i < len tokens - n + 1 →
  build_ngrams tokens n !! i = Some (take (Z.to_nat n) (drop i tokens))
  ∧ len (take (Z.to_nat n) (drop i tokens)) = n.
Proof.
  unfold len. intros Hn Hi. rewrite build_ngrams_grams by lia. split.
  - apply grams_lookup. lia.
  - rewrite length_take, length_drop. lia.
Qed.

(** C23: for a positive order, [build_ngrams] of pipeline.py and the sliding
    window of [nltk.util.ngrams] used by ngrams_tp.py produce the same grams
    in the same order. *)
Theorem build_ngrams_ngrams tokens n :
  1 ≤ n → build_ngrams tokens n = ngrams tokens (Z.to_nat n).
Proof.
  intros Hn. rewrite build_ngrams_grams by lia.
  rewrite grams_windows by lia. unfold ngrams. by destruct (Z.to_nat n) eqn:?; [lia|].
Qed.

(** C33: the contexts [g[:-1]] of the grams of order [n] are, position by
    position, the grams of order [n - 1] except the last one: every
    conditioning context of a gram was counted one order down. *)
Theorem build_ngrams_but_last tokens n :
  1 ≤ n →
  but_last <$> build_ngrams tokens n
  = take (length (build_ngrams tokens n)) (build_ngrams tokens (n - 1)).
Proof.
  intros Hn. rewrite !build_ngrams_grams by lia.
  replace (Z.to_nat n) with (S (Z.to_nat (n - 1))) by lia.
  rewrite but_last_grams, length_grams. f_equal. lia.
Qed.

End build_ngrams_lemmas.

Lemma build_ngrams_lookup_witness :
  build_ngrams [1; 2; 1; 2; 3]%nat 2 !! 3%nat = Some [2; 3]%nat.
Proof.
  apply (build_ngrams_lookup [1; 2; 1; 2; 3]%nat 2 3); [lia | vm_compute; reflexivity].
Defined.

Lemma build_ngrams_ngrams_witness :
  build_ngrams [1; 2; 1; 2; 3]%nat 3 = ngrams [1; 2; 1; 2; 3]%nat 3.
Proof. apply (build_ngrams_ngrams [1; 2; 1; 2; 3]%nat 3). lia. Defined.

Lemma build_ngrams_but_last_witness :
  but_last <$> build_ngrams [1; 2; 1; 2; 3]%nat 2 = [[1]; [2]; [1]; [2]]%nat.
Proof. rewrite (build_ngrams_but_last [1; 2; 1; 2; 3]%nat 2); [reflexivity | lia]. Defined.
