(* ===== verification/Probability.v ===== *)
(** * Probability estimation

    The two [calculate_probabilities] functions of the repository:
    - [Laplace] (amazigh/pipeline.py): add-one smoothing and the negative
      logarithm of the smoothed ratio;
    - [MLE] (ngrams_tp.py): the unsmoothed relative frequency, with [0.0]
      when the context has no count.

    A Python [float] that is the quotient of two integers is modelled by the
    exact rational; the logarithm is an operation of the interface [NegLog],
    which the file [Score] implements over the real numbers and this file
    implements symbolically, so that tables can be evaluated. *)

From stdpp Require Import prelude.
From Stdlib Require Import QArith.
From S2P Require Import Prelude PyStr Counter Ngrams.

#[local] Open Scope Z_scope.

(** ** Division and logarithm *)

#[export] Instance Qlt_decision : RelDecision Qlt := λ x y,
  match Qlt_le_dec x y with
  | left Hlt => left Hlt
  | right Hle => right (Qle_not_lt _ _ Hle)
  end.

(** [a / b] on integers: true division, [ZeroDivisionError] on [b = 0]. *)
Definition true_div (a b : Z) : result Q :=
  if decide (b = 0) then Raise ZeroDivisionError
  else Ok (inject_Z a / inject_Z b)%Q.

(** [-log(x)] of the [math] module: [ValueError] unless [x] is positive.
    The laws are what the estimator relies on. *)
Class NegLog (F : Type) := {
  neg_log : Q → result F;
  neg_log_pos q : (0 < q)%Q → is_ok (neg_log q);
  neg_log_domain q : (q <= 0)%Q → neg_log q = Raise ValueError;
}.

(** The symbolic implementation: [NegLn q] stands for [-ln q]. *)
Inductive score : Set := NegLn (q : Q).

Definition sym_neg_log (q : Q) : result score :=
  if decide (0 < q)%Q then Ok (NegLn (Qred q)) else Raise ValueError.

Lemma sym_neg_log_pos q : (0 < q)%Q → is_ok (sym_neg_log q).
Proof. intros. unfold sym_neg_log. rewrite decide_True by done. apply is_ok_Ok. Qed.

Lemma sym_neg_log_domain q : (q <= 0)%Q → sym_neg_log q = Raise ValueError.
Proof.
  intros. unfold sym_neg_log. rewrite decide_False; [done|]. by apply Qle_not_lt.
Qed.

#[export] Instance symbolic_neg_log : NegLog score :=
  {| neg_log := sym_neg_log;
     neg_log_pos := sym_neg_log_pos;
     neg_log_domain := sym_neg_log_domain |}.

(** ** Arithmetic of integer ratios *)

Lemma true_div_Ok a b : b ≠ 0 → true_div a b = Ok (inject_Z a / inject_Z b)%Q.
Proof. intros. unfold true_div. by rewrite decide_False. Qed.

Lemma true_div_zero a : true_div a 0 = Raise ZeroDivisionError.
Proof. done. Qed.

Lemma Qdiv_Z (a b : Z) : 0 < b → (inject_Z a / inject_Z b == a # Z.to_pos b)%Q.
Proof.
  intros Hb. unfold Qdiv, Qinv, inject_Z, Qmult, Qeq. simpl.
  destruct b as [|p|p]; try lia. simpl. lia.
Qed.

Lemma Qdiv_Z_bounds (a b : Z) :
  0 ≤ a ≤ b → 0 < b → (0 <= inject_Z a / inject_Z b <= 1)%Q.
Proof.
  intros Ha Hb. rewrite Qdiv_Z by done. unfold Qle. simpl.
  rewrite Z2Pos.id by done. lia.
Qed.

Lemma Qdiv_Z_pos (a b : Z) : 0 < a → 0 < b → (0 < inject_Z a / inject_Z b)%Q.
Proof. intros Ha Hb. rewrite Qdiv_Z by done. unfold Qlt. simpl. lia. Qed.

Lemma Qdiv_Z_gt_1 (a b : Z) : 0 < b → (1 < inject_Z a / inject_Z b)%Q ↔ b < a.
Proof.
  intros Hb. rewrite Qdiv_Z by done. unfold Qlt. simpl.
  rewrite Z2Pos.id by done. lia.
Qed.

(** ** Policy A: add-one smoothing, negative log-probability *)

Module Laplace.
Section laplace.
Context `{EqDecision T} `{NegLog F}.

(** The smoothed ratio of one entry:
    [(count + 1) / (prefix_count + vocab_size)]. *)
Definition smoothed (lower_counts : dict (list T) Z) (ngram : list T) (count : Z)
  : result Q :=
  let vocab_size := len lower_counts in
  let prefix := but_last ngram in
  prefix_count ←
    (if dict_mem lower_counts prefix then dict_getitem lower_counts prefix
     else Ok 0);
  true_div (count + 1) (prefix_count + vocab_size).

(** pipeline.py, [calculate_probabilities]. *)
Definition calculate_probabilities (ngram_counts lower_counts : dict (list T) Z)
  : result (dict (list T) F) :=
  let vocab_size := len lower_counts in
  foldM (λ probabilities '(ngram, count),
           let prefix := but_last ngram in
           prefix_count ←
             (if dict_mem lower_counts prefix
              then dict_getitem lower_counts prefix else Ok 0);
           prob ← true_div (count + 1) (prefix_count + vocab_size);
           s ← neg_log prob;
           Ok (dict_set probabilities ngram s))
        [] ngram_counts.

(** What the loop body computes for one item. *)
Definition entry (lower_counts : dict (list T) Z) (kv : list T * Z) : result F :=
  prob ← smoothed lower_counts kv.1 kv.2; neg_log prob.

End laplace.

Section laplace_lemmas.
Context `{EqDecision T} `{NegLog F}.
Implicit Types (nc lower : dict (list T) Z) (g : list T) (c : Z).

Lemma smoothed_eq lower g c :
  smoothed lower g c
  = true_div (c + 1) (dict_get_default lower (but_last g) 0 + len lower).
Proof. unfold smoothed. by rewrite dict_getitem_guarded. Qed.

(** On a table with distinct keys the loop is a comprehension over the
    items. *)
Lemma calculate_probabilities_mapR nc lower :
  dict_wf nc →
  calculate_probabilities nc lower
  = mapR (λ kv, s ← entry lower kv; Ok (kv.1, s)) nc.
Proof.
  intros Hwf. unfold calculate_probabilities.
  rewrite (foldM_ext _ (λ acc kv, y ← entry lower kv; Ok (dict_set acc kv.1 y))).
  - rewrite foldM_dict_set by done. apply result_bind_Ok_r.
  - intros acc [g c] _. unfold entry, smoothed. simpl.
    destruct (if dict_mem _ _ then _ else _) as [pc|]; simpl; [|done].
    by destruct (true_div _ _).
Qed.

(** With counts that are not negative and a lower table that is not empty,
    the smoothed ratio is defined and positive. *)
Lemma smoothed_pos lower g c :
  0 ≤ c → Forall (λ kv, 0 < kv.2) lower → lower ≠ [] →
  ∃ q, smoothed lower g c = Ok q ∧ (0 < q)%Q.
Proof.
  intros Hc Hpos Hne. rewrite smoothed_eq.
  pose proof (dict_get_default_nonneg lower (but_last g) Hpos).
  assert (0 < len lower) by (unfold len; destruct lower; simpl; [done|lia]).
  rewrite true_div_Ok by lia. eexists; split; [done|]. apply Qdiv_Z_pos; lia.
Qed.

(** When the count of a gram does not exceed the count of its context, the
    smoothed ratio is a probability. *)
Lemma smoothed_le_1 lower g c q :
  0 ≤ c ≤ dict_get_default lower (but_last g) 0 → lower ≠ [] →
  smoothed lower g c = Ok q → (0 < q <= 1)%Q.
Proof.
  intros Hc Hne. rewrite smoothed_eq.
  assert (0 < len lower) by (unfold len; destruct lower; simpl; [done|lia]).
  rewrite true_div_Ok by lia. intros [= <-]. split.
  - apply Qdiv_Z_pos; lia.
  - apply Qdiv_Z_bounds; lia.
Qed.

Lemma calculate_probabilities_Ok nc lower probs :
  dict_wf nc → calculate_probabilities nc lower = Ok probs →
  Forall2 (λ kv ks, ks.1 = kv.1 ∧ entry lower kv = Ok ks.2) nc probs.
Proof.
  intros Hwf. rewrite calculate_probabilities_mapR by done.
  intros Hm%mapR_Ok. eapply Forall2_impl; [exact Hm|].
  intros kv ks. simpl. destruct (entry lower kv); simpl; naive_solver.
Qed.

(** The result depends on the lower table only through its lookups and its
    size, not through the order of its entries. *)
Lemma calculate_probabilities_lower_equiv nc lower1 lower2 :
  dict_wf lower1 → dict_wf lower2 → dict_equiv lower1 lower2 →
  calculate_probabilities nc lower1 = calculate_probabilities nc lower2.
Proof.
  intros Hwf1 Hwf2 Heq. unfold calculate_probabilities, len.
  rewrite (dict_equiv_length lower1 lower2) by done.
  apply foldM_ext. intros acc [g c] _.
  by rewrite !dict_getitem_guarded, Heq.
Qed.

(** The table returned has the keys of [ngram_counts], in order. *)
Lemma calculate_probabilities_keys nc lower probs :
  dict_wf nc → calculate_probabilities nc lower = Ok probs → keys probs = keys nc.
Proof.
  intros Hwf Hok%calculate_probabilities_Ok; [|done]. unfold keys.
  induction Hok as [|kv ks nc probs [Hk _] _ IH]; csimpl; [done|].
  apply list.NoDup_cons in Hwf as [_ Hwf]. by rewrite Hk, IH.
Qed.

(** No exception when every count is at least 0 and the lower table, with
    positive counts, is empty only if there is no gram. *)
Lemma calculate_probabilities_is_ok nc lower :
  dict_wf nc → Forall (λ kv, 0 ≤ kv.2) nc → Forall (λ kv, 0 < kv.2) lower →
  (nc ≠ [] → lower ≠ []) → is_ok (calculate_probabilities nc lower).
Proof.
  intros Hwf Hnc Hpos Hne. rewrite calculate_probabilities_mapR by done.
  apply mapR_is_ok. destruct nc as [|kv nc]; [constructor|]. specialize (Hne ltac:(done)).
  eapply Forall_impl; [exact Hnc|]. intros [g c] Hc. unfold entry. simpl in *.
  destruct (smoothed_pos lower g c) as (q & -> & Hq); [done..|]. simpl.
  destruct (neg_log_pos q Hq) as [s ->]. apply is_ok_Ok.
Qed.

End laplace_lemmas.

Section laplace_theorems.
Context `{EqDecision T} `{NegLog F}.
Implicit Types (nc lower : dict (list T) Z) (g : list T) (c : Z).

(** C19: [calculate_probabilities] of pipeline.py returns a table, without
    [ZeroDivisionError] and without [ValueError], whenever the grams have
    distinct keys and counts of at least 0 (a count of [-1] makes the ratio
    0, on which [-log] raises [ValueError]) and the table of the lower
    order is not empty and has positive counts. *)
Theorem laplace_total nc lower :
  dict_wf nc → Forall (λ kv, 0 ≤ kv.2) nc → Forall (λ kv, 0 < kv.2) lower →
  lower ≠ [] → is_ok (calculate_probabilities nc lower).
Proof.
  intros Hwf Hnc Hpos Hne. by apply calculate_probabilities_is_ok.
Qed.

(** C27: with an empty table of the lower order, [calculate_probabilities] of
    pipeline.py raises [ZeroDivisionError] on its first gram: the
    denominator [prefix_count + vocab_size] is [0 + 0]. *)
Theorem laplace_zero_division g c nc :
  calculate_probabilities ((g, c) :: nc) [] = Raise ZeroDivisionError.
Proof. done. Qed.

(** C4: on success the table of pipeline.py's [calculate_probabilities] has
    the keys of [ngram_counts] in the same order, and the entry of a gram
    [g] with count [c] is [-log((c + 1) / (lower_counts.get(g[:-1], 0) +
    len(lower_counts)))]. *)
Theorem laplace_entries nc lower probs :
  dict_wf nc → calculate_probabilities nc lower = Ok probs →
  Forall2 (λ kv ks,
    ks.1 = kv.1 ∧
    ∃ q, true_div (kv.2 + 1)
           (dict_get_default lower (but_last kv.1) 0 + len lower) = Ok q
         ∧ neg_log q = Ok ks.2) nc probs.
Proof.
  intros Hwf Hok. eapply Forall2_impl; [by apply calculate_probabilities_Ok|].
  intros [g c] [g' s] [-> He]. split; [done|]. unfold entry in He.
  rewrite smoothed_eq in He. simpl in *.
  destruct (true_div _ _) as [q|]; simpl in *; [eauto|done].
Qed.

(** C35: the table of pipeline.py's [calculate_probabilities] does not depend
    on the insertion order of the lower table: two well-formed tables with
    the same lookups give the same result. *)
Theorem laplace_order_irrelevant nc :
  Proper ((λ l1 l2, dict_wf l1 ∧ dict_wf l2 ∧ dict_equiv l1 l2) ==> (=))
         (calculate_probabilities nc).
Proof.
  intros lower1 lower2 (? & ? & ?). by apply calculate_probabilities_lower_equiv.
Qed.

End laplace_theorems.
End Laplace.

(** ** Policy B: relative frequency *)

Module MLE.
Section mle.
Context `{EqDecision T}.

(** ngrams_tp.py, [calculate_probabilities]. *)
Definition calculate_probabilities (ngram_freq prev_ngram_freq : dict (list T) Z)
  : result (dict (list T) Q) :=
  foldM (λ probs '(ngram, count),
           if decide (1 < len ngram) then
             let prev_ngram := but_last ngram in
             let prev_count := dict_get_default prev_ngram_freq prev_ngram 0 in
             if decide (0 < prev_count) then
               p ← true_div count prev_count; Ok (dict_set probs ngram p)
             else Ok (dict_set probs ngram 0%Q)
           else
             let total := sumZ (values ngram_freq) in
             if decide (0 < total) then
               p ← true_div count total; Ok (dict_set probs ngram p)
             else Ok (dict_set probs ngram 0%Q))
        [] ngram_freq.

(** The value the loop body stores for one item. *)
Definition relative (ngram_freq prev_ngram_freq : dict (list T) Z)
    (kv : list T * Z) : Q :=
  if decide (1 < len kv.1) then
    let prev_count := dict_get_default prev_ngram_freq (but_last kv.1) 0 in
    if decide (0 < prev_count) then (inject_Z kv.2 / inject_Z prev_count)%Q
    else 0%Q
  else
    let total := sumZ (values ngram_freq) in
    if decide (0 < total) then (inject_Z kv.2 / inject_Z total)%Q else 0%Q.

End mle.

Section mle_lemmas.
Context `{EqDecision T}.
Implicit Types (nf pf : dict (list T) Z) (g : list T) (c : Z).

(** On a table with distinct keys the loop is a comprehension, and the
    guards make every division defined. *)
Lemma calculate_probabilities_fmap nf pf :
  dict_wf nf →
  calculate_probabilities nf pf = Ok ((λ kv, (kv.1, relative nf pf kv)) <$> nf).
Proof.
  intros Hwf. unfold calculate_probabilities.
  rewrite (foldM_ext _
    (λ acc kv, y ← Ok (relative nf pf kv); Ok (dict_set acc kv.1 y))).
  - rewrite foldM_dict_set by done. simpl.
    by rewrite (mapR_pure (λ kv, (kv.1, relative nf pf kv))).
  - intros acc [g c] _. unfold relative. simpl.
    repeat case_decide; rewrite ?true_div_Ok by lia; done.
Qed.

Lemma relative_bounds nf pf g c :
  Forall (λ kv, 0 ≤ kv.2) nf → (g, c) ∈ nf →
  (1 < len g → c ≤ dict_get_default pf (but_last g) 0) →
  (0 <= relative nf pf (g, c) <= 1)%Q.
Proof.
  intros Hnn Hin Hle. unfold relative. simpl.
  assert (0 ≤ c) by (rewrite list.Forall_forall in Hnn; apply (Hnn _ Hin)).
  repeat case_decide; try done; apply Qdiv_Z_bounds; try lia.
  split; [done|]. apply sumZ_elem_le.
  - by apply Forall_fmap.
  - apply list_elem_of_fmap. by exists (g, c).
Qed.

End mle_lemmas.

Section mle_theorems.
Context `{EqDecision T}.
Implicit Types (nf pf : dict (list T) Z) (g : list T) (c : Z).

(** C20: [calculate_probabilities] of ngrams_tp.py never raises, whatever the
    two tables hold: every division is guarded by a test of its divisor. *)
Theorem mle_total nf pf : is_ok (calculate_probabilities nf pf).
Proof.
  apply foldM_is_ok. intros probs [g c] _. cbv zeta.
  repeat case_decide; rewrite ?true_div_Ok by lia; apply is_ok_Ok.
Qed.

(** C14: when no gram is counted more often than its context, every value
    of ngrams_tp.py's [calculate_probabilities] lies in [0, 1]. *)
Theorem mle_bounds nf pf probs :
  dict_wf nf → Forall (λ kv, 0 ≤ kv.2) nf →
  (∀ g c, (g, c) ∈ nf → 1 < len g → c ≤ dict_get_default pf (but_last g) 0) →
  calculate_probabilities nf pf = Ok probs →
  Forall (λ kp, 0 <= kp.2 <= 1)%Q probs.
Proof.
  intros Hwf Hnn Hle. rewrite calculate_probabilities_fmap by done.
  intros [= <-]. apply Forall_fmap, list.Forall_forall. intros [g c] Hin. simpl.
  apply relative_bounds; eauto.
Qed.

End mle_theorems.
End MLE.

(** ** Examples of the specification *)

(** Policy A: the context [(a,)] has count 2, the order-1 table has 3 keys,
    the gram [(a, b)] has count 2: the ratio is [(2 + 1) / (2 + 3)]. *)
Example laplace_ex :
  Laplace.calculate_probabilities (F := score)
    [([1; 2]%nat, 2)] [([1]%nat, 2); ([2]%nat, 2); ([3]%nat, 1)]
  = Ok [([1; 2]%nat, NegLn (3 # 5))].
Proof. reflexivity. Qed.

(** Policy B on the same tables: [2 / 2]. *)
Example mle_ex :
  MLE.calculate_probabilities
    [([1; 2]%nat, 2)] [([1]%nat, 2); ([2]%nat, 2); ([3]%nat, 1)]
  = Ok [([1; 2]%nat, (2 # 2)%Q)].
Proof. reflexivity. Qed.

(** Policy A raises on a gram whose context is unknown when the lower table
    is empty. *)
Example laplace_raises_ex :
  Laplace.calculate_probabilities (F := score) [([1; 2]%nat, 1)] []
  = Raise ZeroDivisionError.
Proof. reflexivity. Qed.

(** A count of [-1] makes the ratio [0 / 3], outside the domain of [-log]. *)
Example laplace_value_error_ex :
  Laplace.calculate_probabilities (F := score) [([1; 2]%nat, -1)] [([1]%nat, 2)]
  = Raise ValueError.
Proof. reflexivity. Qed.

(** ** Witnesses *)

Lemma laplace_total_witness :
  is_ok (Laplace.calculate_probabilities (F := score)
           [([1; 2]%nat, 2)] [([1]%nat, 2); ([2]%nat, 2); ([3]%nat, 1)]).
Proof.
  apply Laplace.laplace_total.
  - apply NoDup_singleton.
  - by repeat constructor.
  - by repeat constructor.
  - discriminate.
Defined.

Lemma laplace_entries_witness :
  Forall2 (λ (kv : list nat * Z) (ks : list nat * score),
    ks.1 = kv.1 ∧
    ∃ q, true_div (kv.2 + 1)
           (dict_get_default [([1]%nat, 2); ([2]%nat, 2); ([3]%nat, 1)]
              (but_last kv.1) 0 + 3) = Ok q
         ∧ neg_log q = Ok ks.2)
    [([1; 2]%nat, 2)] [([1; 2]%nat, NegLn (3 # 5))].
Proof.
  apply (Laplace.laplace_entries (F := score)
           [([1; 2]%nat, 2)] [([1]%nat, 2); ([2]%nat, 2); ([3]%nat, 1)]).
  - apply NoDup_singleton.
  - reflexivity.
Defined.

Lemma laplace_order_irrelevant_witness :
  Laplace.calculate_probabilities (F := score)
    [([1; 2]%nat, 2)] [([1]%nat, 2); ([2]%nat, 2)]
  = Laplace.calculate_probabilities
    [([1; 2]%nat, 2)] [([2]%nat, 2); ([1]%nat, 2)].
Proof.
  apply Laplace.laplace_order_irrelevant. split_and!.
  - apply NoDup_cons_2; [by intros ?%list_elem_of_singleton|apply NoDup_singleton].
  - apply NoDup_cons_2; [by intros ?%list_elem_of_singleton|apply NoDup_singleton].
  - intros k. simpl. repeat case_decide; simplify_eq; done.
Defined.

Lemma mle_bounds_witness :
  Forall (λ kp : list nat * Q, 0 <= kp.2 <= 1)%Q [([1; 2]%nat, (2 # 2)%Q)].
Proof.
  apply (MLE.mle_bounds
           [([1; 2]%nat, 2)] [([1]%nat, 2); ([2]%nat, 2); ([3]%nat, 1)]).
  - apply NoDup_singleton.
  - by repeat constructor.
  - intros g c [= -> ->]%list_elem_of_singleton _. by compute.
  - reflexivity.
Defined.
