(* ===== verification/Score.v ===== *)
(** * The negative log-probability over the real numbers

    [-log(prob)] of amazigh/pipeline.py with the logarithm of the real
    numbers: the implementation of the interface [NegLog] that gives the
    scores their meaning.  The symbolic scores of [Probability] are
    interpreted into it. *)

From stdpp Require Import prelude.
From Stdlib Require Import QArith Reals Qreals Lra.
From S2P Require Import Prelude PyStr Counter Ngrams Probability.

#[local] Open Scope R_scope.

(** ** [-log(x)] *)

Definition real_neg_log (q : Q) : result R :=
  if decide (0 < q)%Q then Ok (- ln (Q2R q)) else Raise ValueError.

Lemma real_neg_log_pos q : (0 < q)%Q → is_ok (real_neg_log q).
Proof. intros. unfold real_neg_log. rewrite decide_True by done. apply is_ok_Ok. Qed.

Lemma real_neg_log_domain q : (q <= 0)%Q → real_neg_log q = Raise ValueError.
Proof.
  intros. unfold real_neg_log. rewrite decide_False; [done|]. by apply Qle_not_lt.
Qed.

#[export] Instance real_NegLog : NegLog R :=
  {| neg_log := real_neg_log;
     neg_log_pos := real_neg_log_pos;
     neg_log_domain := real_neg_log_domain |}.

(** The real number a symbolic score stands for. *)
Definition interp (s : score) : R := let 'NegLn q := s in - ln (Q2R q).

(** The table of real scores a symbolic table stands for. *)
Definition interp_table {K} (d : dict K score) : dict K R :=
  prod_map Datatypes.id interp <$> d.

(** ** Order and sign of scores *)

Lemma Q2R_pos q : (0 < q)%Q → 0 < Q2R q.
Proof. intros Hq. apply Qlt_Rlt in Hq. by rewrite RMicromega.Q2R_0 in Hq. Qed.

Lemma Q2R_le_1 q : (q <= 1)%Q → Q2R q <= 1.
Proof. intros Hq. apply Qle_Rle in Hq. by rewrite RMicromega.Q2R_1 in Hq. Qed.

Lemma real_neg_log_Ok q s : real_neg_log q = Ok s ↔ (0 < q)%Q ∧ s = - ln (Q2R q).
Proof. unfold real_neg_log. case_decide; naive_solver. Qed.

(** The score of a probability is not negative. *)
Lemma real_neg_log_nonneg q s : (q <= 1)%Q → real_neg_log q = Ok s → 0 <= s.
Proof.
  intros Hle [Hpos ->]%real_neg_log_Ok.
  apply Q2R_pos in Hpos. apply Q2R_le_1 in Hle.
  destruct (Rle_lt_or_eq_dec _ _ Hle) as [Hlt| ->]; [|rewrite ln_1; lra].
  apply ln_increasing in Hlt; [|done]. rewrite ln_1 in Hlt. lra.
Qed.

(** The score of a ratio above 1 is negative. *)
Lemma real_neg_log_neg q s : (1 < q)%Q → real_neg_log q = Ok s → s < 0.
Proof.
  intros Hlt [Hpos ->]%real_neg_log_Ok.
  apply Qlt_Rlt in Hlt. rewrite RMicromega.Q2R_1 in Hlt.
  apply ln_increasing in Hlt; [|lra]. rewrite ln_1 in Hlt. lra.
Qed.

(** A score is negative exactly when the ratio is above 1. *)
Lemma real_neg_log_neg_iff q s : real_neg_log q = Ok s → s < 0 ↔ (1 < q)%Q.
Proof.
  intros Hs. split; [|by intros; eapply real_neg_log_neg].
  intros Hneg. destruct (Qlt_le_dec 1 q) as [|Hle]; [done|].
  pose proof (real_neg_log_nonneg q s Hle Hs). lra.
Qed.

(** The symbolic scores are the real ones. *)
Lemma interp_sym_neg_log q :
  interp <$> sym_neg_log q = real_neg_log q.
Proof.
  unfold sym_neg_log, real_neg_log. case_decide; [|done]. simpl.
  do 3 f_equal. apply Qeq_eqR, Qred_correct.
Qed.

(** ** The scores of [calculate_probabilities] *)

Section scores.
Context `{EqDecision T}.
Implicit Types (nc lower : dict (list T) Z) (g : list T) (c : Z).

(** The table over the reals is the interpretation of the symbolic table. *)
Lemma calculate_probabilities_interp nc lower :
  Laplace.calculate_probabilities (F := R) nc lower
  = interp_table <$> Laplace.calculate_probabilities (F := score) nc lower.
Proof.
  unfold Laplace.calculate_probabilities.
  change (@nil (list T * R)) with (interp_table (@nil (list T * score))).
  generalize (@nil (list T * score)) as acc.
  induction nc as [|[g c] nc IH]; intros acc; simpl; [done|].
  destruct (if dict_mem _ _ then _ else _) as [pc|]; simpl; [|done].
  destruct (true_div _ _) as [q|]; simpl; [|done].
  rewrite <- interp_sym_neg_log. destruct (sym_neg_log q) as [s|]; simpl; [|done].
  unfold interp_table at 1. rewrite dict_set_fmap. apply (IH (dict_set acc g s)).
Qed.

(** Scores of probabilities are not negative. *)
Lemma calculate_probabilities_nonneg nc lower (probs : dict (list T) R) :
  dict_wf nc → lower ≠ [] →
  (∀ g c, (g, c) ∈ nc → (0 ≤ c ≤ dict_get_default lower (but_last g) 0)%Z) →
  @Laplace.calculate_probabilities T _ R real_NegLog nc lower = Ok probs →
  Forall (λ ks, 0 <= ks.2) probs.
Proof.
  intros Hwf Hne Hle Hok%Laplace.calculate_probabilities_Ok; [|done].
  apply list.Forall_forall. intros [g' s] Hin.
  eapply Forall2_elem_of_r in Hok as ([g c] & Hnc & Hg & He); [|done].
  simpl in *. subst g'.
  unfold Laplace.entry in He. simpl in He.
  destruct (Laplace.smoothed lower g c) as [q|] eqn:Hq; simpl in He; [|done].
  eapply Laplace.smoothed_le_1 in Hq as [_ Hq]; eauto using real_neg_log_nonneg.
Qed.

End scores.

Section score_sign.
Context `{EqDecision T}.
Implicit Types (nc lower : dict (list T) Z) (probs : dict (list T) R).

(** C28: the sign of the scores of pipeline.py's [calculate_probabilities]:
    on a table of grams with distinct keys and a lower table of positive
    counts, the score of a gram is negative exactly when [count + 1] exceeds
    [prefix_count + vocab_size], the count of its context plus the number
    of lower keys.  The formula alone does not keep the scores above zero:
    that needs the counts of the grams to be bounded by those of their
    contexts. *)
Theorem laplace_score_negative_iff nc lower probs :
  dict_wf nc → Forall (λ kv, (0 < kv.2)%Z) lower →
  @Laplace.calculate_probabilities T _ R real_NegLog nc lower = Ok probs →
  Forall2 (λ kv ks, ks.1 = kv.1 ∧
     (ks.2 < 0
      ↔ (dict_get_default lower (but_last kv.1) 0 + len lower < kv.2 + 1)%Z))
    nc probs.
Proof.
  intros Hwf Hpos Hok%Laplace.calculate_probabilities_Ok; [|done].
  eapply Forall2_impl; [exact Hok|]. intros [g c] [g' s] [-> He]. split; [done|].
  cbn [fst snd] in *. unfold Laplace.entry in He. rewrite Laplace.smoothed_eq in He.
  pose proof (dict_get_default_nonneg lower (but_last g) Hpos).
  pose proof (len_nonneg lower). unfold true_div in He. case_decide; [done|].
  cbn [mbind result_bind fst snd] in He. apply real_neg_log_neg_iff in He.
  cbn [fst] in *. rewrite He. apply Qdiv_Z_gt_1. lia.
Qed.

End score_sign.

Lemma laplace_score_negative_iff_witness :
  Forall2 (λ (kv : list nat * Z) (ks : list nat * R), ks.1 = kv.1 ∧
     (ks.2 < 0
      ↔ (dict_get_default [([1]%nat, 1%Z)] (but_last kv.1) 0 + 1 < kv.2 + 1)%Z))
    [([1; 2]%nat, 5%Z); ([1; 3]%nat, 1%Z)]
    [([1; 2]%nat, - ln (Q2R (3 # 1))); ([1; 3]%nat, - ln (Q2R (1 # 1)))].
Proof.
  apply (laplace_score_negative_iff
           [([1; 2]%nat, 5%Z); ([1; 3]%nat, 1%Z)] [([1]%nat, 1%Z)]).
  - apply (bool_decide_unpack _). by vm_compute.
  - by repeat constructor.
  - by rewrite calculate_probabilities_interp.
Defined.

(** Five occurrences of a bigram against one of its context and one lower
    key: the score is [-log((5 + 1) / (1 + 1))], below zero. *)
Example laplace_score_negative_ex :
  ∃ s, @Laplace.calculate_probabilities nat _ R real_NegLog
         [([1; 2]%nat, 5%Z)] [([1]%nat, 1%Z)]
       = Ok [([1; 2]%nat, s)] ∧ s < 0.
Proof.
  eexists. split; [by rewrite calculate_probabilities_interp|]. simpl.
  apply (real_neg_log_neg (3 # 1)); [done|]. by apply real_neg_log_Ok.
Qed.

(** A lower score means a higher smoothed ratio: [-log] reverses the
    order of the ratios it is applied to. *)
Lemma real_neg_log_antitone q1 q2 s1 s2 :
  (q1 <= q2)%Q → real_neg_log q1 = Ok s1 → real_neg_log q2 = Ok s2 → s2 <= s1.
Proof.
  intros Hle [Hq1 ->]%real_neg_log_Ok [Hq2 ->]%real_neg_log_Ok.
  apply Qle_Rle in Hle. apply Q2R_pos in Hq1.
  destruct (Rle_lt_or_eq_dec _ _ Hle) as [Hlt| ->]; [|lra].
  apply ln_increasing in Hlt; [lra|done].
Qed.

Lemma real_neg_log_antitone_witness : - ln (Q2R (3 # 5)) <= - ln (Q2R (1 # 2)).
Proof.
  apply (real_neg_log_antitone (1 # 2) (3 # 5)); [done| |];
    by apply real_neg_log_Ok.
Defined.
