(* ===== verification/Regex.v ===== *)
(** * Regular expressions: Python's [re] on the patterns of the programs

    A backtracking matcher for the fragment of [re] that [clean_text] and
    [simple_tokenize] use: character classes, concatenation, alternation,
    greedy and lazy repetition.  [matches r s] lists the ways [r] can match
    a prefix of [s], as the text left after the match, in the order in which
    a backtracking engine tries them (a greedy repetition prefers more
    iterations, a lazy one fewer, an alternation its left branch): the first
    one is the match [re] reports at that position.

    [re_sub] and [re_findall] scan the text from left to right as [re.sub]
    and [re.findall] do for a pattern without groups.  Their treatment of a
    match of the empty string is not modelled (such a match is skipped): no
    pattern of the programs can match the empty string, which [nullable]
    decides.

    The language [lang] of a pattern, the set of the words it matches, is
    the specification: [matches] finds exactly the words of the language
    that start the text. *)

From stdpp Require Import prelude.
From Equations Require Import Equations.
From S2P Require Import Prelude PyStr.

(** ** Patterns *)

Inductive regex : Type :=
| Eps
| Chr (p : N → bool)
| Seq (r1 r2 : regex)
| Alt (r1 r2 : regex)
| Star (greedy : bool) (r : regex).

(** [r+], [r+?] and [r?] *)
Definition Plus (greedy : bool) (r : regex) : regex := Seq r (Star greedy r).
Definition Opt (r : regex) : regex := Alt r Eps.

(** A literal character, a literal string, [[^c]], [.] without and with
    [re.DOTALL]. *)
Definition Lit (c : N) : regex := Chr (N.eqb c).
Fixpoint Str (s : list N) : regex :=
  match s with
  | [] => Eps
  | c :: s' => Seq (Lit c) (Str s')
  end.
Definition NotLit (c : N) : regex := Chr (λ x, negb (N.eqb c x)).
Definition Dot : regex := NotLit 10.
Definition DotAll : regex := Chr (λ _, true).

(** Whether a pattern can match the empty string. *)
Fixpoint nullable (r : regex) : bool :=
  match r with
  | Eps => true
  | Chr _ => false
  | Seq r1 r2 => nullable r1 && nullable r2
  | Alt r1 r2 => nullable r1 || nullable r2
  | Star _ _ => true
  end.

(** ** The matcher *)

(** The iterations of a repetition from [s]: each iteration must consume a
    character, so [length s] bounds their number and is the fuel. *)
Fixpoint star_go (step : list N → list (list N)) (greedy : bool)
    (fuel : nat) (s : list N) : list (list N) :=
  match fuel with
  | 0 => [s]
  | S fuel' =>
      let more :=
        s' ← filter (λ s', length s' < length s) (step s);
        star_go step greedy fuel' s' in
      if greedy then more ++ [s] else s :: more
  end.

(** The texts left after a match of [r] at the start of [s], in the order of
    preference of a backtracking engine. *)
Fixpoint matches (r : regex) (s : list N) : list (list N) :=
  match r with
  | Eps => [s]
  | Chr p => match s with
             | c :: s' => if p c then [s'] else []
             | [] => []
             end
  | Seq r1 r2 => s' ← matches r1 s; matches r2 s'
  | Alt r1 r2 => matches r1 s ++ matches r2 s
  | Star greedy r1 => star_go (matches r1) greedy (length s) s
  end.

(** The match at the start of [s], as the text left after it. *)
Definition match_at (r : regex) (s : list N) : option (list N) := head (matches r s).

(** ** [re.sub] and [re.findall] *)

(** [re.sub(r, repl, s)] for a plain replacement string. *)
Equations re_sub (r : regex) (repl s : list N) : list N by wf (length s) lt :=
  re_sub r repl [] := [];
  re_sub r repl (c :: s') with match_at r (c :: s') := {
    | Some rest with decide (length rest < length (c :: s')) := {
        | left _ := repl ++ re_sub r repl rest;
        | right _ := c :: re_sub r repl s' };
    | None := c :: re_sub r repl s' }.

(** [re.findall(r, s)] for a pattern without groups. *)
Equations re_findall (r : regex) (s : list N) : list (list N) by wf (length s) lt :=
  re_findall r [] := [];
  re_findall r (c :: s') with match_at r (c :: s') := {
    | Some rest with decide (length rest < length (c :: s')) := {
        | left _ :=
            take (length (c :: s') - length rest) (c :: s') :: re_findall r rest;
        | right _ := re_findall r s' };
    | None := re_findall r s' }.

(** ** The language of a pattern *)

(** The words a pattern matches, whatever the order in which an engine finds
    them: the specification of the matcher.  An iteration of a repetition
    consumes at least one character. *)
Inductive lang : regex → list N → Prop :=
| lang_eps : lang Eps []
| lang_chr p c : p c = true → lang (Chr p) [c]
| lang_seq r1 r2 w1 w2 : lang r1 w1 → lang r2 w2 → lang (Seq r1 r2) (w1 ++ w2)
| lang_alt_l r1 r2 w : lang r1 w → lang (Alt r1 r2) w
| lang_alt_r r1 r2 w : lang r2 w → lang (Alt r1 r2) w
| lang_star_nil g r : lang (Star g r) []
| lang_star_cons g r w1 w2 :
    w1 ≠ [] → lang r w1 → lang (Star g r) w2 → lang (Star g r) (w1 ++ w2).

(** ** The matcher: fuel, unfolding, progress *)

Section matcher_lemmas.
Implicit Types (r : regex) (s t : list N) (g : bool).

Lemma star_go_fuel_S step g f s :
  length s ≤ f → star_go step g (S f) s = star_go step g f s.
Proof.
  revert s. induction f as [|f IH]; intros s Hs.
  - destruct s; [|simpl in Hs; lia]. simpl.
    rewrite filter_none; [by destruct g|]. apply list.Forall_forall. intros; lia.
  - cbn [star_go]. rewrite (bind_ext_elem _ (star_go step g f)); [done|].
    intros s' [? _]%list_elem_of_filter. apply IH. lia.
Qed.

(** More fuel than the length of the text changes nothing. *)
Lemma star_go_fuel step g f s :
  length s ≤ f → star_go step g f s = star_go step g (length s) s.
Proof.
  induction f as [|f IH]; intros Hs.
  - by replace (length s) with 0 by lia.
  - destruct (decide (length s = S f)) as [->|]; [done|].
    rewrite star_go_fuel_S by lia. apply IH. lia.
Qed.

(** A repetition tries one more iteration that consumes something, or
    stops: the greedy one prefers the iteration, the lazy one to stop. *)
Lemma matches_star g r s :
  matches (Star g r) s =
    let more :=
      s' ← filter (λ s', length s' < length s) (matches r s);
      matches (Star g r) s' in
    if g then more ++ [s] else s :: more.
Proof.
  simpl. destruct s as [|c s]; simpl.
  - rewrite filter_none; [by destruct g|]. apply list.Forall_forall. intros; lia.
  - rewrite (bind_ext_elem _ (λ s', star_go (matches r) g (length s') s')); [done|].
    intros s' [? _]%list_elem_of_filter. apply star_go_fuel. simpl in *. lia.
Qed.

(** What is left after a match is a suffix of the text. *)
Lemma matches_suffix r s t : t ∈ matches r s → t `suffix_of` s.
Proof.
  revert s t. induction r as [|p|r1 IH1 r2 IH2|r1 IH1 r2 IH2|g r IH]; intros s t.
  - by intros ->%list_elem_of_singleton.
  - destruct s as [|c s]; simpl; [by intros ?%elem_of_nil|].
    destruct (p c); [|by intros ?%elem_of_nil].
    intros ->%list_elem_of_singleton. by apply suffix_cons_r.
  - simpl. intros (s' & Ht & Hs')%list_elem_of_bind.
    etrans; [by apply IH2|by apply IH1].
  - simpl. intros [?|?]%elem_of_app; auto.
  - induction s as [s IHs] using list_length_ind. rewrite matches_star. simpl.
    assert (t ∈ (filter (λ s', length s' < length s) (matches r s)
                 ≫= matches (Star g r)) → t `suffix_of` s) as Hmore.
    { intros (s' & Ht & [Hlt Hs']%list_elem_of_filter)%list_elem_of_bind.
      etrans; [by apply IHs|by apply IH]. }
    destruct g; [intros [?|Ht%list_elem_of_singleton]%elem_of_app
                | intros [Ht|?]%elem_of_cons]; subst; auto.
Qed.

Lemma matches_length r s t : t ∈ matches r s → length t ≤ length s.
Proof. intros [k ->]%matches_suffix. rewrite length_app. lia. Qed.

(** A pattern that is not nullable consumes at least one character. *)
Lemma matches_progress r s t :
  nullable r = false → t ∈ matches r s → length t < length s.
Proof.
  revert s t. induction r as [|p|r1 IH1 r2 IH2|r1 IH1 r2 IH2|g r IH];
    intros s t Hn; simpl in Hn; try done.
  - destruct s as [|c s]; simpl; [by intros ?%elem_of_nil|].
    destruct (p c); [|by intros ?%elem_of_nil].
    intros ->%list_elem_of_singleton. lia.
  - simpl. intros (s' & Ht & Hs')%list_elem_of_bind.
    apply andb_false_iff in Hn as [Hn|Hn].
    + apply matches_length in Ht. specialize (IH1 _ _ Hn Hs'). lia.
    + apply matches_length in Hs'. specialize (IH2 _ _ Hn Ht). lia.
  - apply orb_false_iff in Hn as [Hn1 Hn2]. simpl.
    intros [?|?]%elem_of_app; auto.
Qed.

Lemma match_at_progress r s t :
  nullable r = false → match_at r s = Some t → length t < length s.
Proof.
  intros Hn Hm. apply (matches_progress r); [done|].
  unfold match_at in Hm. destruct (matches r s); simplify_eq/=. left.
Qed.

(** The elements of the list of a repetition. *)
Lemma elem_of_matches_star g r s t :
  t ∈ matches (Star g r) s ↔
  t = s ∨ ∃ s', s' ∈ matches r s ∧ length s' < length s ∧ t ∈ matches (Star g r) s'.
Proof.
  rewrite matches_star. cbv zeta.
  assert (t ∈ (filter (λ s', length s' < length s) (matches r s) ≫= matches (Star g r))
          ↔ ∃ s', s' ∈ matches r s ∧ length s' < length s ∧ t ∈ matches (Star g r) s')
    as Hmore.
  { rewrite list_elem_of_bind. setoid_rewrite list_elem_of_filter. naive_solver. }
  destruct g; [rewrite elem_of_app, list_elem_of_singleton|rewrite elem_of_cons];
    rewrite Hmore; naive_solver.
Qed.

(** Every way of matching found is a word of the language followed by the
    text left. *)
Lemma matches_sound r s t : t ∈ matches r s → ∃ w, s = w ++ t ∧ lang r w.
Proof.
  revert s t. induction r as [|p|r1 IH1 r2 IH2|r1 IH1 r2 IH2|g r IH]; intros s t.
  - simpl. intros Ht%list_elem_of_singleton. subst t.
    exists []. split; [done|constructor].
  - destruct s as [|c s]; simpl; [by intros ?%elem_of_nil|].
    destruct (p c) eqn:Hc; [|by intros ?%elem_of_nil].
    intros Ht%list_elem_of_singleton. subst t. exists [c]. split; [done|by constructor].
  - simpl. intros (s' & (w2 & -> & ?)%IH2 & (w1 & -> & ?)%IH1)%list_elem_of_bind.
    exists (w1 ++ w2). split; [by rewrite app_assoc|by constructor].
  - simpl. intros [(w & -> & ?)%IH1|(w & -> & ?)%IH2]%elem_of_app; exists w.
    + split; [done|by apply lang_alt_l].
    + split; [done|by apply lang_alt_r].
  - induction s as [s IHs] using list_length_ind.
    intros [->|(s' & (w1 & -> & Hw1)%IH & Hlt & Ht)]%elem_of_matches_star.
    + exists []. split; [done|constructor].
    + apply IHs in Ht as (w2 & -> & Hw2); [|done].
      exists (w1 ++ w2). split; [by rewrite app_assoc|].
      constructor; [|done..]. intros ->. simpl in Hlt. lia.
Qed.

(** Every word of the language at the start of the text is found. *)
Lemma matches_complete r w t : lang r w → t ∈ matches r (w ++ t).
Proof.
  intros Hw. revert t.
  induction Hw as [|p c Hc|r1 r2 w1 w2 _ IH1 _ IH2|r1 r2 w _ IH|r1 r2 w _ IH
                  |g r|g r w1 w2 Hne _ IH1 _ IH2]; intros t.
  - simpl. apply list_elem_of_singleton. done.
  - simpl. rewrite Hc. by apply list_elem_of_singleton.
  - simpl. apply list_elem_of_bind. exists (w2 ++ t). split; [apply IH2|].
    rewrite <- app_assoc. apply IH1.
  - simpl. apply elem_of_app. left. apply IH.
  - simpl. apply elem_of_app. right. apply IH.
  - apply elem_of_matches_star. by left.
  - apply elem_of_matches_star. right. exists (w2 ++ t). rewrite <- app_assoc.
    split_and!; [apply IH1| |apply IH2]. rewrite !length_app.
    destruct w1; [done|simpl; lia].
Qed.

Lemma matches_seq_assoc r1 r2 r3 s :
  matches (Seq (Seq r1 r2) r3) s = matches (Seq r1 (Seq r2 r3)) s.
Proof. apply list_bind_assoc. Qed.

Lemma match_at_alt r1 r2 s :
  match_at (Alt r1 r2) s
  = match match_at r1 s with Some t => Some t | None => match_at r2 s end.
Proof. apply head_app. Qed.

Lemma match_at_seq_chr p r c s :
  match_at (Seq (Chr p) r) (c :: s) = if p c then match_at r s else None.
Proof. unfold match_at. simpl. destruct (p c); simpl; by rewrite ?app_nil_r. Qed.

Lemma match_at_seq_chr_nil p r : match_at (Seq (Chr p) r) [] = None.
Proof. done. Qed.

Lemma match_at_chr p c s : match_at (Chr p) (c :: s) = if p c then Some s else None.
Proof. unfold match_at. simpl. by destruct (p c). Qed.

Lemma match_at_seq_lit c0 r c s :
  match_at (Seq (Lit c0) r) (c :: s) = if N.eqb c0 c then match_at r s else None.
Proof. apply match_at_seq_chr. Qed.

Lemma match_at_seq_lit_eq c r s : match_at (Seq (Lit c) r) (c :: s) = match_at r s.
Proof. by rewrite match_at_seq_lit, N.eqb_refl. Qed.

Lemma match_at_seq_notlit c0 r c s :
  c ≠ c0 → match_at (Seq (NotLit c0) r) (c :: s) = match_at r s.
Proof.
  intros Hc. unfold NotLit. rewrite match_at_seq_chr.
  by rewrite (proj2 (N.eqb_neq c0 c)).
Qed.

Lemma match_at_seq_assoc r1 r2 r3 s :
  match_at (Seq (Seq r1 r2) r3) s = match_at (Seq r1 (Seq r2 r3)) s.
Proof. unfold match_at. by rewrite matches_seq_assoc. Qed.

Lemma match_at_eps s : match_at Eps s = Some s.
Proof. done. Qed.

Lemma match_at_seq_eps r s : match_at (Seq Eps r) s = match_at r s.
Proof. unfold match_at. simpl. by rewrite app_nil_r. Qed.

Lemma match_at_seq_alt r1 r2 r s :
  match_at (Seq (Alt r1 r2) r) s
  = match match_at (Seq r1 r) s with
    | Some t => Some t
    | None => match_at (Seq r2 r) s
    end.
Proof. unfold match_at. simpl. by rewrite bind_app, head_app. Qed.

(** A literal string matches itself. *)
Lemma match_at_seq_str w r s : match_at (Seq (Str w) r) (w ++ s) = match_at r s.
Proof.
  induction w as [|c w IH]; simpl; [apply match_at_seq_eps|].
  by rewrite match_at_seq_assoc, match_at_seq_lit_eq.
Qed.

(** A greedy repetition of a character class takes the longest run. *)
Lemma match_at_star_chr p s :
  match_at (Star true (Chr p)) s = Some (drop_while p s).
Proof.
  unfold match_at. induction s as [|c s IH]; [done|].
  rewrite matches_star. cbn -[matches].
  change (matches (Chr p) (c :: s)) with (if p c then [s] else []).
  destruct (p c); [|done].
  rewrite filter_cons_True by (simpl; lia). rewrite filter_nil, bind_cons.
  by rewrite !head_app, IH.
Qed.

Lemma match_at_plus_chr p c s :
  match_at (Plus true (Chr p)) (c :: s)
  = if p c then Some (drop_while p s) else None.
Proof. unfold Plus. rewrite match_at_seq_chr. by rewrite match_at_star_chr. Qed.

(** ** Repetitions of a character class inside a pattern *)

Lemma matches_star_chr g p c s :
  matches (Star g (Chr p)) (c :: s)
  = if p c
    then if g then matches (Star g (Chr p)) s ++ [c :: s]
         else (c :: s) :: matches (Star g (Chr p)) s
    else [c :: s].
Proof.
  rewrite matches_star. cbn -[matches].
  change (matches (Chr p) (c :: s)) with (if p c then [s] else []).
  destruct (p c); [|by destruct g].
  rewrite filter_cons_True by (simpl; lia).
  rewrite filter_nil, bind_singleton. by destruct g.
Qed.

(** A greedy repetition of a class takes the longest run and gives nothing
    back to a class disjoint from it. *)
Lemma matches_greedy_chr p q s :
  (∀ c, p c = true → q c = false) →
  matches (Seq (Star true (Chr p)) (Chr q)) s = matches (Chr q) (drop_while p s).
Proof.
  intros Hpq. change (matches (Seq ?r1 ?r2) s) with (matches r1 s ≫= matches r2).
  induction s as [|c s IH]; [done|]. rewrite matches_star_chr. cbn [drop_while].
  destruct (p c) eqn:Hc; [|by rewrite bind_singleton].
  rewrite bind_app, IH, bind_singleton. cbn [matches]. by rewrite (Hpq c Hc), app_nil_r.
Qed.

(** [[^c]*c] runs to the next [c]. *)
Lemma match_at_greedy_until c body s :
  c ∉ body → match_at (Seq (Star true (NotLit c)) (Lit c)) (body ++ c :: s) = Some s.
Proof.
  intros Hno. unfold match_at, NotLit, Lit.
  rewrite matches_greedy_chr by (intros x; by destruct (N.eqb c x)).
  rewrite drop_while_app; [simpl; rewrite N.eqb_refl; simpl; by rewrite N.eqb_refl|].
  apply list.Forall_forall. intros x Hx. apply negb_true_iff, N.eqb_neq. by intros ->.
Qed.

(** A lazy repetition of a class first tries what follows it, then one more
    character of the class. *)
Lemma match_at_lazy_chr p r c s :
  match_at (Seq (Star false (Chr p)) r) (c :: s)
  = match match_at r (c :: s) with
    | Some t => Some t
    | None => if p c then match_at (Seq (Star false (Chr p)) r) s else None
    end.
Proof.
  unfold match_at. change (matches (Seq ?r1 ?r2) ?s) with (matches r1 s ≫= matches r2).
  rewrite matches_star_chr.
  destruct (p c); rewrite ?bind_cons, ?bind_singleton, ?app_nil_r, ?head_app;
    by destruct (head (matches r (c :: s))).
Qed.

(** A lazy repetition runs over the characters that cannot start what
    follows it. *)
Lemma match_at_lazy_lit p c0 r body s :
  Forall (λ c, p c = true) body → c0 ∉ body →
  match_at (Seq (Star false (Chr p)) (Seq (Lit c0) r)) (body ++ s)
  = match_at (Seq (Star false (Chr p)) (Seq (Lit c0) r)) s.
Proof.
  unfold Lit. induction 1 as [|c body Hc _ IH]; intros Hno; [done|].
  apply not_elem_of_cons in Hno as [Hne Hno]. cbn [app].
  rewrite match_at_lazy_chr, match_at_seq_chr, Hc.
  rewrite (proj2 (N.eqb_neq c0 c)) by done. by apply IH.
Qed.

End matcher_lemmas.

(** ** The scanners *)

Section scanner_lemmas.
Implicit Types (r : regex) (s t repl : list N) (c : N).

Lemma re_sub_nil r repl : re_sub r repl [] = [].
Proof. by simp re_sub. Qed.

Lemma re_findall_nil r : re_findall r [] = [].
Proof. by simp re_findall. Qed.

Lemma re_sub_cons r repl c s :
  re_sub r repl (c :: s) =
    match match_at r (c :: s) with
    | Some rest =>
        if decide (length rest < length (c :: s))
        then repl ++ re_sub r repl rest else c :: re_sub r repl s
    | None => c :: re_sub r repl s
    end.
Proof.
  simp re_sub. destruct (match_at r (c :: s)) as [rest|]; simpl; [|done].
  by destruct (decide _).
Qed.

Lemma re_findall_cons r c s :
  re_findall r (c :: s) =
    match match_at r (c :: s) with
    | Some rest =>
        if decide (length rest < length (c :: s))
        then take (length (c :: s) - length rest) (c :: s) :: re_findall r rest
        else re_findall r s
    | None => re_findall r s
    end.
Proof.
  simp re_findall. destruct (match_at r (c :: s)) as [rest|]; simpl; [|done].
  by destruct (decide _).
Qed.

(** Where the pattern matches nowhere, [re.sub] returns the text. *)
Lemma re_sub_no_match r repl s :
  (∀ t, t ≠ [] → t `suffix_of` s → match_at r t = None) → re_sub r repl s = s.
Proof.
  induction s as [|c s IH]; intros Hno; [by simp re_sub|].
  rewrite re_sub_cons, Hno by done. f_equal. apply IH.
  intros t ? ?. apply Hno; [done|]. by apply suffix_cons_r.
Qed.

(** A pattern that starts with a character class matches nowhere in a text
    without a character of the class. *)
Lemma re_sub_first_absent p r repl s :
  Forall (λ c, p c = false) s → re_sub (Seq (Chr p) r) repl s = s.
Proof.
  intros Hs. apply re_sub_no_match. intros [|c t] Hne [k ->]; [done|].
  rewrite match_at_seq_chr. apply Forall_app in Hs as [_ [-> _]%list.Forall_cons].
  done.
Qed.

Lemma re_sub_lit_absent c r repl s : c ∉ s → re_sub (Seq (Lit c) r) repl s = s.
Proof.
  intros Hc. apply re_sub_first_absent, list.Forall_forall. intros x Hx.
  apply N.eqb_neq. by intros ->.
Qed.

(** The text before the first character that can start a match is kept. *)
Lemma re_sub_skip p r repl s1 s2 :
  Forall (λ c, p c = false) s1 →
  re_sub (Seq (Chr p) r) repl (s1 ++ s2) = s1 ++ re_sub (Seq (Chr p) r) repl s2.
Proof.
  induction 1 as [|c s1 Hc _ IH]; [done|]. cbn [app].
  by rewrite re_sub_cons, match_at_seq_chr, Hc, IH.
Qed.

(** A match at the start of the text is replaced, and the scan goes on
    after it. *)
Lemma re_sub_match r repl s rest :
  nullable r = false → match_at r s = Some rest →
  re_sub r repl s = repl ++ re_sub r repl rest.
Proof.
  intros Hn Hm. pose proof (match_at_progress r s rest Hn Hm) as Hlt.
  destruct s as [|c s]; [simpl in Hlt; lia|].
  by rewrite re_sub_cons, Hm, decide_True.
Qed.

(** The first match of a pattern that starts with a literal character. *)
Lemma re_sub_first_lit c0 r repl s1 s2 rest :
  c0 ∉ s1 → match_at (Seq (Lit c0) r) s2 = Some rest →
  re_sub (Seq (Lit c0) r) repl (s1 ++ s2)
  = s1 ++ repl ++ re_sub (Seq (Lit c0) r) repl rest.
Proof.
  intros Hs1 Hm. unfold Lit in *. rewrite re_sub_skip, (re_sub_match _ _ s2 rest); [done..|].
  apply list.Forall_forall. intros x Hx. apply N.eqb_neq. by intros ->.
Qed.

(** Replacing the characters of a class one by one. *)
Lemma re_sub_chr p repl s :
  re_sub (Chr p) repl s = s ≫= λ c, if p c then repl else [c].
Proof.
  induction s as [|c s IH]; [by simp re_sub|].
  rewrite re_sub_cons, match_at_chr, bind_cons. destruct (p c); [|by rewrite IH].
  rewrite decide_True by (simpl; lia). by rewrite IH.
Qed.

(** Replacing the characters of a class the text does not have. *)
Lemma re_sub_chr_absent p repl s :
  Forall (λ c, p c = false) s → re_sub (Chr p) repl s = s.
Proof.
  intros Hs. rewrite re_sub_chr. induction Hs as [|c s Hc _ IH]; [done|].
  by rewrite bind_cons, Hc, IH.
Qed.

Lemma match_at_sound r s t : match_at r s = Some t → ∃ w, s = w ++ t ∧ lang r w.
Proof.
  unfold match_at. intros Ht. apply matches_sound.
  destruct (matches r s); simplify_eq/=. left.
Qed.

(** C12: the matcher implements the language of the pattern: the texts it
    lists as left after a match are exactly the texts left after a word of
    the language at the start of the text. *)
Theorem matches_lang r s t : t ∈ matches r s ↔ ∃ w, s = w ++ t ∧ lang r w.
Proof.
  split; [apply matches_sound|]. intros (w & -> & Hw). by apply matches_complete.
Qed.

(** The match reported at a position is a word of the language of the
    pattern, and no match is reported exactly when no word of the language
    starts the text. *)
Lemma match_at_lang r s :
  (∀ t, match_at r s = Some t → ∃ w, s = w ++ t ∧ lang r w)
  ∧ (match_at r s = None ↔ ∀ w t, s = w ++ t → ¬ lang r w).
Proof.
  split; [apply match_at_sound|]. unfold match_at. rewrite head_None. split.
  - intros Hnil w t -> Hw. pose proof (matches_complete r w t Hw) as Hin.
    rewrite Hnil in Hin. by apply elem_of_nil in Hin.
  - intros Hno. destruct (matches r s) as [|t l] eqn:Hm; [done|].
    destruct (matches_sound r s t) as (w & -> & Hw); [rewrite Hm; left|].
    by destruct (Hno w t).
Qed.

(** C34: every token [re.findall] returns is a non-empty word of the language
    of the pattern. *)
Theorem re_findall_lang r s : Forall (λ w, w ≠ [] ∧ lang r w) (re_findall r s).
Proof.
  induction s as [s IH] using list_length_ind.
  destruct s as [|c s]; [rewrite re_findall_nil; constructor|].
  rewrite re_findall_cons. destruct (match_at r (c :: s)) as [rest|] eqn:Hm;
    [|apply IH; simpl; lia].
  case_decide as Hlt; [|apply IH; simpl; lia]. constructor; [|by apply IH].
  destruct (match_at_sound r (c :: s) rest Hm) as (w & Heq & Hw).
  rewrite Heq, length_app in *. replace (length w + length rest - length rest) with (length w) by lia.
  rewrite take_app_length. split; [|done]. intros ->. simpl in Hlt. lia.
Qed.

End scanner_lemmas.

(** ** Examples *)

Example re_sub_tag_ex :
  let tag := Seq (Lit (chr "<")) (Seq (Plus true (NotLit (chr ">"))) (Lit (chr ">"))) in
  re_sub tag (lit " ") (lit "a<b>c<>d<<e>f") = lit "a c<>d f".
Proof. reflexivity. Qed.

Example re_sub_lazy_ex :
  let tpl := Seq (Str (lit "{{")) (Seq (Star false DotAll) (Str (lit "}}"))) in
  re_sub tpl (lit " ") (lit "x{{a}}y{{b}}z") = lit "x y z".
Proof. reflexivity. Qed.

Example re_findall_ex :
  let word c := in_range 97 122 c in
  let tok := Alt (Plus true (Chr word)) (Chr (λ c, negb (word c) && negb (isspace c))) in
  re_findall tok (lit "don't!!") = [lit "don"; lit "'"; lit "t"; lit "!"; lit "!"].
Proof. reflexivity. Qed.
