(* ===== verification/Tokenizer.v ===== *)
(** * Tokenization

    [tokenize] of amazigh/pipeline.py (lowercase, split on whitespace) and
    [simple_tokenize], [process_text_to_tokens] and [read_sentences_file] of
    ngrams_tp.py.  The Unicode tables behind [str.lower] and [\w] are an
    interface, [Unicode]: the theorems hold for every implementation of it,
    and the ASCII implementation evaluates the examples.  [simple_tokenize]
    is proved equal to a direct lexer, [lex], from which the shape of its
    tokens follows. *)

From stdpp Require Import prelude.
From Stdlib Require Import ZifyBool ZifyN.
From S2P Require Import Prelude PyStr Regex.

#[local] Open Scope N_scope.

(** ** The Unicode tables *)

(** ASCII lowercasing of one character, and the ASCII alphanumerics. *)
Definition ascii_lower (c : N) : N := if in_range 65 90 c then c + 32 else c.
Definition ascii_isalnum (c : N) : bool :=
  in_range 48 57 c || in_range 65 90 c || in_range 97 122 c.

(** The characters on which [str.lower] is known to act as ASCII
    lowercasing: ASCII itself, the Arabic block, the Tifinagh block, the
    right single quotation mark, the modifier letter left half ring and
    whitespace have no other case mapping. *)
Definition uncased_or_ascii (c : N) : bool :=
  (c <? 128) || in_range 0x0600 0x06FF c || in_range 0x2D30 0x2D7F c
  || (c =? 0x2019) || (c =? 0x02BF) || isspace c.

(** [str.lower()] and, for one character, [str.isalnum()]; [\w] of a [str]
    pattern is an alphanumeric character or the underscore. *)
Class Unicode := {
  lower : list N → list N;
  isalnum : N → bool;
  lower_nil : lower [] = [];
  lower_uncased s :
    Forall (λ c, uncased_or_ascii c = true) s → lower s = ascii_lower <$> s;
  isalnum_ascii c : c < 128 → isalnum c = ascii_isalnum c;
  isalnum_isspace c : isspace c = true → isalnum c = false;
}.

(** [\w] *)
Definition isword `{Unicode} (c : N) : bool := isalnum c || (c =? chr "_").

(** ** pipeline.py *)

Section tokenizers.
Context `{Unicode}.

(** pipeline.py, [tokenize]. *)
Definition tokenize (text : list N) : list (list N) :=
  let text := lower text in
  let tokens := split text in
  tokens.

(** ** ngrams_tp.py *)

(** The pattern [\w+|[^\w\s]]. *)
Definition token_re : regex :=
  Alt (Plus true (Chr isword)) (Chr (λ c, negb (isword c || isspace c))).

(** ngrams_tp.py, [simple_tokenize]. *)
Definition simple_tokenize (text : list N) : list (list N) :=
  let text := lower text in
  let words := split text in
  let tokens :=
    foldl (λ tokens word, tokens ++ re_findall token_re word) [] words in
  filter (λ t, strip t ≠ []) tokens.

(** ngrams_tp.py, [process_text_to_tokens]: [simple_tokenize] raises
    nothing, so the handler of the loop is never entered. *)
Definition process_text_to_tokens (sentences : list (list N)) : list (list N) :=
  foldl (λ tokens sentence, tokens ++ simple_tokenize sentence) [] sentences.

End tokenizers.

(** [line.split('\t', 1)]: the line cut at its first tab, if it has one. *)
Fixpoint split_tab1 (line : list N) : list (list N) :=
  match line with
  | [] => [[]]
  | c :: line' =>
      if c =? 9 then [[]; line']
      else match split_tab1 line' with
           | before :: rest => (c :: before) :: rest
           | [] => [[c]]
           end
  end.

(** The body of the loop of [read_sentences_file] for one line: the
    sentences list after the line. *)
Definition read_line (sentences : list (list N)) (line : list N) : list (list N) :=
  let line := strip line in
  if decide (line ≠ []) then
    let parts := split_tab1 line in
    if decide (1 < len parts)%Z then sentences ++ [default [] (parts !! 1%nat)]
    else sentences ++ [line]
  else sentences.

(** ngrams_tp.py, [read_sentences_file]: [file] is what opening and reading
    the file gives, its lines or an exception; a missing file gives no
    sentence, any other exception is not handled. *)
Definition read_sentences_file (file : result (list (list N))) : result (list (list N)) :=
  match file with
  | Ok lines => Ok (foldl read_line [] lines)
  | Raise FileNotFoundError => Ok []
  | Raise e => Raise e
  end.

(** ** The ASCII tables *)

Lemma ascii_isalnum_isspace c : isspace c = true → c < 128 → ascii_isalnum c = false.
Proof.
  unfold isspace, ascii_isalnum, in_range. lia.
Qed.

(** Outside ASCII this implementation treats every character as uncased and
    as not alphanumeric: it is exact on ASCII text. *)
#[export, refine] Instance ascii_unicode : Unicode := {|
  lower s := ascii_lower <$> s;
  isalnum c := (c <? 128) && ascii_isalnum c;
|}.
Proof.
  - done.
  - done.
  - intros c Hc. apply N.ltb_lt in Hc. by rewrite Hc.
  - intros c Hs. destruct (c <? 128) eqn:Hc; [|done]. simpl.
    apply ascii_isalnum_isspace; [done|lia].
Defined.

(** ** The lexer behind [\w+|[^\w\s]] *)

Section lexer.
Context `{Unicode}.
Implicit Types (cur s t w : list N) (c : N).

(** Scanning a text for tokens directly: [cur] is the run of word
    characters being read. *)
Fixpoint lex cur s : list (list N) :=
  match s with
  | [] => emit cur []
  | c :: s' =>
      if isword c then lex (cur ++ [c]) s'
      else emit cur (if isspace c then lex [] s' else [c] :: lex [] s')
  end.

(** The two shapes of a token: a run of word characters, or one character
    that is neither a word character nor whitespace. *)
Definition token_shape t : Prop :=
  (t ≠ [] ∧ Forall (λ c, isword c = true) t)
  ∨ (∃ c, t = [c] ∧ isword c = false ∧ isspace c = false).

Lemma isword_not_space c : isword c = true → isspace c = false.
Proof.
  unfold isword. intros [Hc|Hc%N.eqb_eq]%orb_true_iff.
  - destruct (isspace c) eqn:Hs; [|done]. apply isalnum_isspace in Hs. congruence.
  - by subst.
Qed.

Lemma token_shape_word t : token_shape t → is_word t.
Proof.
  intros [[Hne Hw]|(c & -> & _ & Hc)].
  - split; [done|]. eapply Forall_impl; [done|]. apply isword_not_space.
  - split; [done|]. by apply Forall_singleton.
Qed.

Lemma lex_span cur s :
  lex cur s
  = emit (cur ++ take_while isword s) (lex [] (drop_while isword s)).
Proof.
  revert cur. induction s as [|c s IH]; intros cur; simpl.
  - by rewrite app_nil_r.
  - destruct (isword c) eqn:Hc; simpl.
    + by rewrite IH, <- app_assoc.
    + by rewrite Hc, app_nil_r.
Qed.

Lemma lex_shapes cur s :
  Forall (λ c, isword c = true) cur → Forall token_shape (lex cur s).
Proof.
  revert cur. induction s as [|c s IH]; intros cur Hcur; simpl.
  - destruct cur; [constructor|]. apply Forall_singleton. by left.
  - destruct (isword c) eqn:Hw.
    + apply IH, Forall_app. split; [done|]. by apply Forall_singleton.
    + assert (Forall token_shape
                (if isspace c then lex [] s else [c] :: lex [] s)) as Hrest.
      { destruct (isspace c) eqn:Hs; [by apply IH|].
        constructor; [right; eauto|by apply IH]. }
      destruct cur; [done|]. constructor; [by left|done].
Qed.

Lemma concat_emit cur (ws : list (list N)) : concat (emit cur ws) = cur ++ concat ws.
Proof. by destruct cur. Qed.

Lemma concat_lex cur s :
  concat (lex cur s) = cur ++ filter (λ c, isword c || negb (isspace c) = true) s.
Proof.
  revert cur. induction s as [|c s IH]; intros cur; cbn [lex].
  - by rewrite concat_emit.
  - destruct (isword c) eqn:Hw.
    + rewrite filter_cons_True by (by rewrite Hw). by rewrite IH, <- app_assoc.
    + rewrite concat_emit. destruct (isspace c) eqn:Hs.
      * rewrite filter_cons_False by (by rewrite Hw, Hs). by rewrite IH.
      * rewrite filter_cons_True by (by rewrite Hw, Hs). simpl. by rewrite IH.
Qed.

(** On a word the lexer loses nothing. *)
Lemma concat_lex_word w : Forall (λ c, isspace c = false) w → concat (lex [] w) = w.
Proof.
  intros Hw. rewrite concat_lex. simpl. apply filter_all.
  eapply Forall_impl; [done|]. intros c ->. by rewrite orb_true_r.
Qed.

Lemma match_at_token_re c s :
  match_at token_re (c :: s)
  = if isword c then Some (drop_while isword s)
    else if isspace c then None else Some s.
Proof.
  unfold token_re. rewrite match_at_alt, match_at_plus_chr, match_at_chr.
  destruct (isword c); [done|]. by destruct (isspace c).
Qed.

End lexer.

(** ** What the tokenizers compute *)

Section tokenizer_theorems.
Context `{Unicode}.
Implicit Types (text s t w : list N) (c : N).

Lemma re_findall_token_re s : re_findall token_re s = lex [] s.
Proof.
  induction s as [s IH] using list_length_ind. destruct s as [|c s]; [apply re_findall_nil|].
  rewrite re_findall_cons, match_at_token_re. simpl lex.
  pose proof (length_drop_while isword s) as Hlen.
  destruct (isword c) eqn:Hw.
  - rewrite decide_True by (simpl; lia). rewrite IH by (simpl; lia).
    rewrite (lex_span [c] s). simpl app.
    replace (length (c :: s) - length (drop_while isword s))%nat
      with (S (length s - length (drop_while isword s))) by (simpl; lia).
    simpl take. by rewrite take_length_drop_while.
  - destruct (isspace c); [apply IH; simpl; lia|].
    rewrite decide_True by (simpl; lia). rewrite IH by (simpl; lia).
    simpl length. by replace (S (length s) - length s)%nat with 1%nat by lia.
Qed.

(** [simple_tokenize] without its loop and its final filter. *)
Lemma simple_tokenize_lex text :
  simple_tokenize text = concat (lex [] <$> split (lower text)).
Proof.
  unfold simple_tokenize. rewrite foldl_extend. simpl.
  rewrite (list_fmap_ext (re_findall token_re) (lex []))
    by (intros; apply re_findall_token_re).
  apply filter_all, Forall_concat, Forall_fmap, Forall_true. intros w.
  eapply Forall_impl; [by apply lex_shapes|]. intros t Ht%token_shape_word. simpl.
  rewrite strip_word by done. by destruct Ht.
Qed.

Lemma concat_lex_words (ws : list (list N)) :
  Forall is_word ws → concat (concat (lex [] <$> ws)) = concat ws.
Proof.
  induction 1 as [|w ws [_ Hw] _ IH]; [done|]. csimpl.
  by rewrite concat_app, IH, concat_lex_word.
Qed.

Lemma lex_punctuation w :
  Forall (λ c, isword c = false ∧ isspace c = false) w → lex [] w = (λ c, [c]) <$> w.
Proof. induction 1 as [|c w [Hw Hs] _ IH]; simpl; [done|]. by rewrite Hw, Hs, IH. Qed.

Lemma lower_whitespace s : Forall (λ c, isspace c = true) s → lower s = s.
Proof.
  intros Hs. rewrite lower_uncased.
  - rewrite <- (list_fmap_id s) at 2. apply Forall_fmap_ext.
    eapply Forall_impl; [done|]. intros c Hc. unfold ascii_lower.
    destruct (in_range 65 90 c) eqn:Hr; [|done]. unfold isspace, in_range in *. lia.
  - eapply Forall_impl; [done|]. unfold uncased_or_ascii. by intros c ->; rewrite orb_true_r.
Qed.

(** C11: every token of [simple_tokenize] is a run of word characters or one
    single character that is neither a word character nor whitespace; so no
    token is empty and none holds whitespace. *)
Theorem simple_tokenize_shapes text :
  Forall (λ t, token_shape t ∧ is_word t) (simple_tokenize text).
Proof.
  rewrite simple_tokenize_lex. apply Forall_concat, Forall_fmap, Forall_true.
  intros w. eapply Forall_impl; [by apply lex_shapes|].
  intros t Ht. split; [done|by apply token_shape_word].
Qed.

(** C24: [simple_tokenize] loses no character but whitespace: the tokens, put
    end to end, are the lowercased text without its whitespace, which is also
    what the tokens of [tokenize] put end to end are. *)
Theorem simple_tokenize_concat text :
  concat (simple_tokenize text) = filter (λ c, isspace c = false) (lower text)
  ∧ concat (simple_tokenize text) = concat (tokenize text).
Proof.
  rewrite simple_tokenize_lex, concat_lex_words by apply split_words.
  split; [apply concat_split|done].
Qed.

(** C29: a unit made of punctuation only is cut into one token per character:
    a run of punctuation is never one token. *)
Theorem simple_tokenize_punctuation w :
  w ≠ [] → lower w = w →
  Forall (λ c, isword c = false ∧ isspace c = false) w →
  simple_tokenize w = (λ c, [c]) <$> w.
Proof.
  intros Hne Hlow Hw. rewrite simple_tokenize_lex, Hlow, split_word.
  - simpl. by rewrite app_nil_r, lex_punctuation.
  - split; [done|]. eapply Forall_impl; [done|]. by intros c [_ ?].
Qed.

(** C36: [tokenize] returns the maximal runs of non-whitespace characters of
    the lowercased text: no token is empty, none holds whitespace, together
    they are the lowercased text without its whitespace, and they are the
    only list of words that the lowercased text holds in order with nothing
    but whitespace before, between and after them. *)
Theorem tokenize_words text :
  Forall is_word (tokenize text)
  ∧ concat (tokenize text) = filter (λ c, isspace c = false) (lower text)
  ∧ ∀ ws, words_of (lower text) ws ↔ tokenize text = ws.
Proof. split_and!; [apply split_words|apply concat_split|apply words_of_split]. Qed.

(** C39: both tokenizers are total and return no token for a text without a
    visible character, the empty text included. *)
Theorem tokenize_blank text :
  Forall (λ c, isspace c = true) text →
  tokenize text = [] ∧ simple_tokenize text = [].
Proof.
  intros Hs. rewrite simple_tokenize_lex. unfold tokenize.
  rewrite lower_whitespace by done. by rewrite (proj2 (split_nil_iff text)).
Qed.

(** Tokenizing the words of a lowercase text joined by single spaces gives
    the words back. *)
Lemma tokenize_join ws :
  Forall is_word ws → lower (join (lit " ") ws) = join (lit " ") ws →
  tokenize (join (lit " ") ws) = ws.
Proof. intros Hws Hlow. unfold tokenize. rewrite Hlow. by apply split_join. Qed.

Lemma simple_tokenize_words text : Forall is_word (simple_tokenize text).
Proof.
  rewrite simple_tokenize_lex. apply Forall_concat, Forall_fmap, Forall_true.
  intros w. eapply Forall_impl; [by apply lex_shapes|]. apply token_shape_word.
Qed.

(** [process_text_to_tokens] concatenates the tokens of the sentences. *)
Lemma process_text_to_tokens_concat sentences :
  process_text_to_tokens sentences = concat (simple_tokenize <$> sentences).
Proof. unfold process_text_to_tokens. by rewrite foldl_extend. Qed.

Lemma process_text_to_tokens_words sentences :
  Forall is_word (process_text_to_tokens sentences).
Proof.
  rewrite process_text_to_tokens_concat. apply Forall_concat, Forall_fmap, Forall_true.
  intros s. apply simple_tokenize_words.
Qed.

End tokenizer_theorems.

(** ** Reading the sentences *)

Section read_sentences.
Implicit Types (line s sent : list N) (lines sentences : list (list N)).

Lemma split_tab1_no_tab line : 9 ∉ line → split_tab1 line = [line].
Proof.
  induction line as [|c line IH]; [done|]. intros [Hc Hl]%not_elem_of_cons.
  simpl. rewrite (proj2 (N.eqb_neq c 9)) by done. by rewrite IH.
Qed.

Lemma split_tab1_tab before after :
  9 ∉ before → split_tab1 (before ++ 9 :: after) = [before; after].
Proof.
  induction before as [|c before IH]; [done|]. intros [Hc Hl]%not_elem_of_cons.
  simpl. rewrite (proj2 (N.eqb_neq c 9)) by done. by rewrite IH.
Qed.

(** A line has no tab, or is cut at its first one. *)
Lemma split_tab1_cases line :
  ((9 ∉ line) ∧ split_tab1 line = [line])
  ∨ (∃ before after, line = before ++ 9 :: after ∧ split_tab1 line = [before; after]).
Proof.
  destruct (decide (9 ∈ line)) as [Hin|Hin].
  - right. apply list_elem_of_split_l in Hin as (before & after & -> & Hb).
    exists before, after. by rewrite split_tab1_tab.
  - left. by rewrite split_tab1_no_tab.
Qed.

(** Whitespace only is no sentence. *)
Definition blank s : Prop := strip s = [].

#[export] Instance blank_dec s : Decision (blank s).
Proof. unfold blank. apply _. Defined.

Lemma not_blank_last s c : last s = Some c → isspace c = false → ¬ blank s.
Proof.
  intros Hl Hc Hs%strip_nil_iff. apply last_Some_elem_of in Hl.
  rewrite list.Forall_forall in Hs. apply Hs in Hl. congruence.
Qed.

Lemma read_line_blank sentences line : blank line → read_line sentences line = sentences.
Proof. unfold read_line, blank. intros ->. done. Qed.

(** A line that is not blank adds one sentence, which is not blank. *)
Lemma read_line_sentence sentences line :
  ¬ blank line →
  ∃ sent, read_line sentences line = sentences ++ [sent] ∧ ¬ blank sent.
Proof.
  intros Hne. assert (strip line ≠ []) as Hne' by done.
  unfold read_line. cbv zeta. rewrite decide_True by done.
  destruct (last (strip line)) as [c|] eqn:Hlast; [|by apply last_None in Hlast].
  pose proof (last_strip _ _ Hlast) as Hc.
  destruct (split_tab1_cases (strip line)) as [[_ ->]|(before & after & Hl & ->)]; simpl.
  - eexists; split; [done|]. exact (not_blank_last _ c Hlast Hc).
  - eexists; split; [done|]. rewrite Hl, last_app_cons in Hlast.
    destruct after as [|a after]; [by simplify_eq/=|].
    rewrite last_cons_cons in Hlast. exact (not_blank_last _ c Hlast Hc).
Qed.

Lemma read_line_app sentences line :
  read_line sentences line = sentences ++ read_line [] line.
Proof. unfold read_line. cbv zeta. repeat case_decide; by rewrite ?app_nil_r. Qed.

Lemma read_lines_concat sentences lines :
  foldl read_line sentences lines = sentences ++ concat (read_line [] <$> lines).
Proof.
  revert sentences. induction lines as [|line lines IH]; intros sentences; csimpl.
  - by rewrite app_nil_r.
  - by rewrite IH, read_line_app, <- app_assoc.
Qed.

(** No sentence is read exactly when every line is blank. *)
Lemma read_lines_nil_iff lines : foldl read_line [] lines = [] ↔ Forall blank lines.
Proof.
  rewrite read_lines_concat, app_nil_l. induction lines as [|line lines IH]; [done|].
  rewrite fmap_cons, concat_cons, list.Forall_cons, <- IH.
  destruct (decide (blank line)) as [Hb|Hb].
  - rewrite read_line_blank by done. naive_solver.
  - destruct (read_line_sentence [] line Hb) as (sent & -> & _). naive_solver.
Qed.

(** C25: [read_sentences_file] gives one sentence for each line that is not
    blank, in the order of the lines, and no sentence is blank; a file that
    does not exist gives no sentence and no exception. *)
Theorem read_sentences_file_sentences lines :
  ∃ sentences,
    read_sentences_file (Ok lines) = Ok sentences
    ∧ length sentences = length (filter (λ line, ¬ blank line) lines)
    ∧ Forall (λ sent, ¬ blank sent) sentences
    ∧ read_sentences_file (Raise FileNotFoundError) = Ok [].
Proof.
  eexists. split; [done|]. rewrite read_lines_concat, app_nil_l. split_and!; [| |done].
  - induction lines as [|line lines IH]; [done|].
    rewrite fmap_cons, concat_cons, length_app, IH.
    destruct (decide (blank line)) as [Hb|Hb].
    + rewrite read_line_blank by done. by rewrite filter_cons_False by auto.
    + destruct (read_line_sentence [] line Hb) as (sent & -> & _).
      by rewrite filter_cons_True.
  - apply Forall_concat, Forall_fmap, Forall_true. intros line. unfold compose.
    destruct (decide (blank line)) as [Hb|Hb]; [by rewrite read_line_blank|].
    destruct (read_line_sentence [] line Hb) as (sent & -> & ?). by constructor.
Qed.

(** C40: a line [number <tab> sentence] gives the sentence; a line without a tab
    is taken whole. *)
Theorem read_line_format sentences num sent :
  is_word num → 9 ∉ num → ¬ blank sent → lstrip sent = sent → rstrip sent = sent →
  read_line sentences (num ++ [9] ++ sent ++ [10]) = sentences ++ [sent]
  ∧ (9 ∉ sent → read_line sentences (sent ++ [10]) = sentences ++ [sent]).
Proof.
  intros [Hne Hnum] Htab Hsent Hl Hr.
  assert (sent ≠ []) as Hne' by (by intros ->).
  assert (∀ pre, lstrip pre = pre → strip (pre ++ sent ++ [10]) = pre ++ sent) as Hstrip.
  { intros pre Hpre. unfold strip.
    assert (lstrip (pre ++ sent ++ [10]) = pre ++ sent ++ [10]) as ->.
    { unfold lstrip in *. destruct pre as [|c pre]; simpl in *.
      - destruct sent as [|c sent]; simpl in *; [done|].
        destruct (isspace c); [|done].
        pose proof (length_drop_while isspace sent) as Hlen.
        rewrite Hl in Hlen. simpl in Hlen. lia.
      - destruct (isspace c); [|done].
        pose proof (length_drop_while isspace pre) as Hlen.
        rewrite Hpre in Hlen. simpl in Hlen. lia. }
    rewrite !app_assoc, rstrip_app_space by (by repeat constructor).
    rewrite rstrip_app; by rewrite Hr. }
  unfold read_line. cbv zeta. split.
  - rewrite (app_assoc num [9]), (Hstrip (num ++ [9])).
    + rewrite decide_True by (by destruct num). rewrite <- app_assoc. simpl.
      by rewrite split_tab1_tab.
    + destruct Hnum as [|c num Hc _]; [done|]. by apply lstrip_cons_nonspace.
  - intros Hno. specialize (Hstrip [] eq_refl). simpl in Hstrip. rewrite Hstrip.
    rewrite decide_True by done. by rewrite split_tab1_no_tab.
Qed.

End read_sentences.

(** ** Examples *)

Example tokenize_ex :
  tokenize (lit "The  Cat's hat ") = [lit "the"; lit "cat's"; lit "hat"].
Proof. reflexivity. Qed.

(** Each punctuation character is a token of its own, also in a run. *)
Example simple_tokenize_ex :
  simple_tokenize (lit "Wait... don't_go!")
  = [lit "wait"; lit "."; lit "."; lit "."; lit "don"; lit "'"; lit "t_go"; lit "!"].
Proof. reflexivity. Qed.

Example read_sentences_file_ex :
  read_sentences_file (Ok [lit "1" ++ [9] ++ lit "Hello there." ++ [10]; [10];
                           lit "no tab here" ++ [10]])
  = Ok [lit "Hello there."; lit "no tab here"]
  ∧ read_sentences_file (Raise FileNotFoundError) = Ok [].
Proof. split; reflexivity. Qed.

(** ** The theorems at concrete inputs *)

Lemma simple_tokenize_punctuation_witness :
  simple_tokenize (lit "?!...") = [lit "?"; lit "!"; lit "."; lit "."; lit "."].
Proof.
  apply (simple_tokenize_punctuation (lit "?!..."));
    [done | reflexivity | repeat constructor].
Defined.

Lemma tokenize_blank_witness :
  tokenize [32; 9; 10] = [] ∧ simple_tokenize [32; 9; 10] = [].
Proof. apply (tokenize_blank [32; 9; 10]). repeat constructor. Defined.

Lemma tokenize_join_witness :
  tokenize (lit "azul fell-awen") = [lit "azul"; lit "fell-awen"].
Proof.
  apply (tokenize_join [lit "azul"; lit "fell-awen"]); [|reflexivity].
  repeat constructor; done.
Defined.

Lemma read_line_format_witness :
  read_line [] (lit "12" ++ [9] ++ lit "Hello there." ++ [10]) = [lit "Hello there."].
Proof.
  refine (proj1 (read_line_format [] (lit "12") (lit "Hello there.") _ _ _ _ _));
    [by apply (bool_decide_unpack _) | by apply (bool_decide_unpack _)
    | by apply (bool_decide_unpack _) | reflexivity | reflexivity].
Defined.
