(* ===== verification/Normalizer.v ===== *)
(** * Text cleaning

    [clean_text] of amazigh/pipeline.py: six substitutions, each replacing
    the matches of a pattern by one space, and a final [strip].  The patterns
    are values of [Regex.regex], the substitutions are [Regex.re_sub]. *)

From stdpp Require Import prelude.
From Stdlib Require Import ZifyBool ZifyN.
From S2P Require Import Prelude PyStr Regex.

#[local] Open Scope N_scope.

(** ** The patterns *)

(** [<[^>]+>] *)
Definition tag_re : regex :=
  Seq (Lit (chr "<")) (Seq (Plus true (NotLit (chr ">"))) (Lit (chr ">"))).

(** [\{\{.*?\}\}] with [re.DOTALL] *)
Definition template_re : regex :=
  Seq (Lit (chr "{")) (Seq (Lit (chr "{"))
    (Seq (Star false DotAll) (Str (lit "}}")))).

(** [\[\[.*?\]\]] *)
Definition link_re : regex :=
  Seq (Lit (chr "[")) (Seq (Lit (chr "["))
    (Seq (Star false Dot) (Str (lit "]]")))).

(** [\[https?:\/\/[^\]]*\]] *)
Definition extlink_re : regex :=
  Seq (Lit (chr "[")) (Seq (Str (lit "http")) (Seq (Opt (Lit (chr "s")))
    (Seq (Str (lit "://")) (Seq (Star true (NotLit (chr "]"))) (Lit (chr "]")))))).

(** The characters of the class of the fifth pattern: ASCII digits and
    letters, U+0600 to U+06FF, U+2D30 to U+2D7F, U+2019, the apostrophe,
    U+02BF, the underscore, the hyphen and whitespace. *)
Definition allowed (c : N) : bool :=
  in_range 48 57 c || in_range 65 90 c || in_range 97 122 c
  || in_range 0x0600 0x06FF c || in_range 0x2D30 0x2D7F c
  || (c =? 0x2019) || (c =? chr "'") || (c =? 0x02BF)
  || (c =? chr "_") || (c =? chr "-") || isspace c.

(** The complement of the class. *)
Definition disallowed_re : regex := Chr (λ c, negb (allowed c)).

(** [\s+] *)
Definition spaces_re : regex := Plus true (Chr isspace).

(** ** [clean_text] *)

(** pipeline.py, [clean_text]. *)
Definition clean_text (text : list N) : list N :=
  let text := re_sub tag_re (lit " ") text in
  let text := re_sub template_re (lit " ") text in
  let text := re_sub link_re (lit " ") text in
  let text := re_sub extlink_re (lit " ") text in
  let text := re_sub disallowed_re (lit " ") text in
  let text := strip (re_sub spaces_re (lit " ") text) in
  text.

(** The text after the first five substitutions. *)
Definition strip_markup (text : list N) : list N :=
  let text := re_sub tag_re (lit " ") text in
  let text := re_sub template_re (lit " ") text in
  let text := re_sub link_re (lit " ") text in
  let text := re_sub extlink_re (lit " ") text in
  re_sub disallowed_re (lit " ") text.

(** A clean text: words of allowed characters separated by single spaces. *)
Definition clean (text : list N) : Prop :=
  ∃ ws, Forall is_word ws ∧ Forall (Forall (λ c, allowed c = true)) ws
        ∧ text = join (lit " ") ws.

Example clean_text_ex :
  clean_text (lit "<p>Azul  {{tpl|x}} [[a|b]] fell-awen! [http://x.y z] d'acc</p>")
  = lit "Azul fell-awen d'acc".
Proof. vm_compute. reflexivity. Qed.

(** A tag needs a character between the brackets, the lazy template match
    stops at the first closing braces, and a link does not cross a line. *)
Example clean_text_markup_ex :
  clean_text (lit "a<>b {{x}}y}} [[u" ++ [10] ++ lit "v]]") = lit "a b y u v".
Proof. vm_compute. reflexivity. Qed.

(** The patterns one by one: a tag holds at least one character, a template
    may span lines and ends at the first closing braces, a link stays on its
    line, an external link needs its scheme. *)
Example tag_re_ex :
  re_sub tag_re (lit " ") (lit "a<>b<i>c</i>d") = lit "a<>b c d".
Proof. vm_compute. reflexivity. Qed.

Example template_re_ex :
  re_sub template_re (lit " ") (lit "a{{x" ++ [10] ++ lit "y}}b}}c") = lit "a b}}c".
Proof. vm_compute. reflexivity. Qed.

Example link_re_ex :
  re_sub link_re (lit " ") (lit "a[[x]]b[[u" ++ [10] ++ lit "v]]c")
  = lit "a b[[u" ++ [10] ++ lit "v]]c".
Proof. vm_compute. reflexivity. Qed.

Example extlink_re_ex :
  re_sub extlink_re (lit " ") (lit "a[https://x y]b[http://z]c[ftp://w]")
  = lit "a b c[ftp://w]".
Proof. vm_compute. reflexivity. Qed.

(** A template that spans lines is removed with what it holds. *)
Example clean_text_template_ex :
  clean_text (lit "a {{x" ++ [10] ++ lit "y}} b") = lit "a b".
Proof. vm_compute. reflexivity. Qed.

(** The underscore, the hyphen and the apostrophes are kept; the no-break
    space U+00A0 is whitespace; other punctuation becomes a space. *)
Example clean_text_allowed_ex :
  clean_text (lit "a_b-c'd" ++ [0x2019; 0x02BF; 0xA0] ++ lit "e.f,g")
  = lit "a_b-c'd" ++ [0x2019; 0x02BF] ++ lit " e f g".
Proof. vm_compute. reflexivity. Qed.

(** ** Collapsing the whitespace *)

Section collapse.
Implicit Types (s t w : list N) (c : N) (ws : list (list N)).

Lemma collapse_space c s :
  isspace c = true →
  re_sub spaces_re (lit " ") (c :: s) = lit " " ++ re_sub spaces_re (lit " ") (lstrip s).
Proof.
  intros Hc. unfold spaces_re. rewrite re_sub_cons, match_at_plus_chr, Hc.
  pose proof (length_drop_while isspace s). by rewrite decide_True by (simpl; lia).
Qed.

Lemma collapse_nonspace c s :
  isspace c = false →
  re_sub spaces_re (lit " ") (c :: s) = c :: re_sub spaces_re (lit " ") s.
Proof.
  intros Hc. unfold spaces_re. by rewrite re_sub_cons, match_at_plus_chr, Hc.
Qed.

Lemma lstrip_idemp s : lstrip (lstrip s) = lstrip s.
Proof. apply drop_while_idemp. Qed.

(** Collapsing does not move the first visible character. *)
Lemma lstrip_collapse s :
  lstrip (re_sub spaces_re (lit " ") s) = re_sub spaces_re (lit " ") (lstrip s).
Proof.
  assert (∀ u, lstrip u = u →
    lstrip (re_sub spaces_re (lit " ") u) = re_sub spaces_re (lit " ") u) as Hfix.
  { intros [|c u] Hu; [by rewrite re_sub_nil|]. destruct (isspace c) eqn:Hc.
    - rewrite lstrip_cons_space in Hu by done.
      pose proof (length_drop_while isspace u) as Hlen. unfold lstrip in Hu.
      rewrite Hu in Hlen. simpl in Hlen. lia.
    - by rewrite collapse_nonspace, lstrip_cons_nonspace. }
  destruct s as [|c s]; [by rewrite re_sub_nil|]. destruct (isspace c) eqn:Hc.
  - rewrite collapse_space, !lstrip_cons_space by done. apply Hfix, lstrip_idemp.
  - rewrite lstrip_cons_nonspace by done. apply Hfix. by apply lstrip_cons_nonspace.
Qed.

(** With a word [w] read so far, and from the start of a word. *)
Lemma rstrip_collapse s :
  (∀ w, is_word w →
     rstrip (w ++ re_sub spaces_re (lit " ") s) = join (lit " ") (split_from w s))
  ∧ rstrip (re_sub spaces_re (lit " ") (lstrip s)) = join (lit " ") (split s).
Proof.
  induction s as [|c s [IHw IH]]; [split; [intros w [??]|done]|].
  - rewrite re_sub_nil, app_nil_r. simpl. rewrite emit_cons by done.
    by apply rstrip_nonspace.
  - destruct (isspace c) eqn:Hc; split.
    + intros w Hw. rewrite collapse_space, split_from_space by done.
      rewrite emit_cons by apply Hw. apply rstrip_join; [done|apply split_words|done].
    + rewrite lstrip_cons_space by done. unfold split at 1.
      by rewrite split_from_space.
    + intros w [Hne Hw]. rewrite collapse_nonspace, split_from_nonspace by done.
      rewrite (cons_middle c), app_assoc. apply IHw. split; [by destruct w|].
      apply Forall_app. by split; [|constructor].
    + rewrite lstrip_cons_nonspace, collapse_nonspace by done. unfold split.
      rewrite split_from_nonspace by done. apply (IHw [c]). by split; [|constructor].
Qed.

(** Collapsing the whitespace and trimming gives the words joined by single
    spaces. *)
Lemma strip_collapse s :
  strip (re_sub spaces_re (lit " ") s) = join (lit " ") (split s).
Proof. unfold strip. rewrite lstrip_collapse. apply rstrip_collapse. Qed.

End collapse.

(** ** What the markup patterns match *)

Section markup.
Implicit Types (s body : list N) (c : N).

Lemma Forall_not_lit c body : c ∉ body → Forall (λ x, negb (c =? x) = true) body.
Proof.
  intros Hc. apply list.Forall_forall. intros x Hx.
  apply negb_true_iff, N.eqb_neq. by intros ->.
Qed.

(** A tag: [<], at least one character other than [>], and the next [>]. *)
Lemma match_at_tag body s :
  body ≠ [] → chr ">" ∉ body →
  match_at tag_re (chr "<" :: body ++ chr ">" :: s) = Some s.
Proof.
  intros Hne Hno. destruct body as [|c body]; [done|].
  apply not_elem_of_cons in Hno as [Hc Hno]. unfold tag_re, Plus. cbn [app].
  rewrite match_at_seq_lit_eq, match_at_seq_assoc, match_at_seq_notlit by done.
  by apply match_at_greedy_until.
Qed.

(** A template: [{{] through the first [}}], across lines. *)
Lemma match_at_template body s :
  chr "}" ∉ body →
  match_at template_re (lit "{{" ++ body ++ lit "}}" ++ s) = Some s.
Proof.
  intros Hno. unfold template_re, DotAll.
  cbn [lit fmap list_fmap String.list_ascii_of_string app Str].
  rewrite !match_at_seq_lit_eq, match_at_lazy_lit by (done || by apply Forall_true).
  by rewrite match_at_lazy_chr, !match_at_seq_lit_eq.
Qed.

(** A link: [[[] through the first []]] of the line. *)
Lemma match_at_link body s :
  chr "]" ∉ body → 10 ∉ body →
  match_at link_re (lit "[[" ++ body ++ lit "]]" ++ s) = Some s.
Proof.
  intros Hno Hnl. unfold link_re, Dot, NotLit.
  cbn [lit fmap list_fmap String.list_ascii_of_string app Str].
  rewrite !match_at_seq_lit_eq, match_at_lazy_lit by (done || by apply Forall_not_lit).
  by rewrite match_at_lazy_chr, !match_at_seq_lit_eq.
Qed.

(** An external link: [[http://] or [[https://] through the next []]. *)
Lemma match_at_extlink (secure : bool) body s :
  chr "]" ∉ body →
  match_at extlink_re
    (chr "[" :: lit "http" ++ (if secure then lit "s" else []) ++ lit "://" ++ body
       ++ chr "]" :: s) = Some s.
Proof.
  intros Hno. unfold extlink_re, Opt.
  rewrite match_at_seq_lit_eq, match_at_seq_str, match_at_seq_alt.
  destruct secure.
  - change (lit "s" ++ ?x) with (chr "s" :: x).
    by rewrite match_at_seq_lit_eq, match_at_seq_str, match_at_greedy_until.
  - rewrite app_nil_l. change (lit "://" ++ ?x) with (chr ":" :: lit "//" ++ x) at 1.
    rewrite match_at_seq_lit. change (N.eqb (chr "s") (chr ":")) with false.
    by rewrite match_at_seq_eps, match_at_seq_str, match_at_greedy_until.
Qed.

(** The substitutions: the text before the first opening character is
    kept, the markup is replaced, and the scan goes on after it. *)
Lemma re_sub_tag repl s1 body s2 :
  chr "<" ∉ s1 → body ≠ [] → chr ">" ∉ body →
  re_sub tag_re repl (s1 ++ chr "<" :: body ++ chr ">" :: s2)
  = s1 ++ repl ++ re_sub tag_re repl s2.
Proof. intros. by apply re_sub_first_lit, match_at_tag. Qed.

Lemma re_sub_template repl s1 body s2 :
  chr "{" ∉ s1 → chr "}" ∉ body →
  re_sub template_re repl (s1 ++ lit "{{" ++ body ++ lit "}}" ++ s2)
  = s1 ++ repl ++ re_sub template_re repl s2.
Proof. intros. by apply re_sub_first_lit, match_at_template. Qed.

Lemma re_sub_link repl s1 body s2 :
  chr "[" ∉ s1 → chr "]" ∉ body → 10 ∉ body →
  re_sub link_re repl (s1 ++ lit "[[" ++ body ++ lit "]]" ++ s2)
  = s1 ++ repl ++ re_sub link_re repl s2.
Proof. intros. by apply re_sub_first_lit, match_at_link. Qed.

Lemma re_sub_extlink repl (secure : bool) s1 body s2 :
  chr "[" ∉ s1 → chr "]" ∉ body →
  re_sub extlink_re repl
    (s1 ++ chr "[" :: lit "http" ++ (if secure then lit "s" else []) ++ lit "://"
        ++ body ++ chr "]" :: s2)
  = s1 ++ repl ++ re_sub extlink_re repl s2.
Proof. intros. by apply re_sub_first_lit, match_at_extlink. Qed.

End markup.

(** ** What [clean_text] returns *)

Section clean_text_theorems.
Implicit Types (text s t : list N) (c : N).

Lemma allowed_not_markup c :
  allowed c = true → c ≠ chr "<" ∧ c ≠ chr "{" ∧ c ≠ chr "[".
Proof. unfold allowed, isspace, in_range. cbn. lia. Qed.

Lemma strip_markup_allowed text : Forall (λ c, allowed c = true) (strip_markup text).
Proof.
  unfold strip_markup, disallowed_re. rewrite re_sub_chr. apply Forall_bind, Forall_true.
  intros c. simpl. destruct (allowed c) eqn:Hc; by apply Forall_singleton.
Qed.

Lemma clean_text_words text :
  clean_text text = join (lit " ") (split (strip_markup text)).
Proof. apply strip_collapse. Qed.

Lemma clean_allowed t : clean t → Forall (λ c, allowed c = true) t.
Proof. intros (ws & _ & Hal & ->). apply Forall_join; [by repeat constructor|done]. Qed.

(** A clean text has no markup left to remove. *)
Lemma strip_markup_clean t : clean t → strip_markup t = t.
Proof.
  intros Hal%clean_allowed. unfold strip_markup, tag_re, template_re, link_re, extlink_re.
  assert (∀ c, c = chr "<" ∨ c = chr "{" ∨ c = chr "[" → c ∉ t) as Hno.
  { intros c Hc Hin. rewrite list.Forall_forall in Hal.
    apply Hal, allowed_not_markup in Hin. naive_solver. }
  do 4 rewrite (re_sub_lit_absent _ _ _ t) by (apply Hno; auto).
  apply re_sub_chr_absent.
  eapply Forall_impl; [done|]. by intros c ->.
Qed.

Lemma clean_text_clean_id t : clean t → clean_text t = t.
Proof.
  intros Ht. rewrite clean_text_words, strip_markup_clean by done.
  destruct Ht as (ws & Hws & _ & ->). f_equal. by apply (split_join 32).
Qed.

Lemma clean_text_is_clean text : clean (clean_text text).
Proof.
  exists (split (strip_markup text)). split_and!.
  - apply split_words.
  - apply Forall_split, strip_markup_allowed.
  - apply clean_text_words.
Qed.

(** C8: [clean_text] returns words of allowed characters separated by single
    spaces: every character is in the allowed class, the text has no leading
    or trailing whitespace, no two whitespace characters in a row, and no
    markup is left to remove. *)
Theorem clean_text_clean text :
  clean (clean_text text)
  ∧ Forall (λ c, allowed c = true) (clean_text text)
  ∧ strip (clean_text text) = clean_text text
  ∧ single_spaced (clean_text text) = true
  ∧ strip_markup (clean_text text) = clean_text text.
Proof.
  pose proof (clean_text_is_clean text) as Hc.
  split_and!; [done|by apply clean_allowed| | |by apply strip_markup_clean].
  - destruct Hc as (ws & Hws & _ & ->). by apply strip_join.
  - destruct Hc as (ws & Hws & _ & ->). by apply single_spaced_join.
Qed.

(** C7: [clean_text] is idempotent: cleaning a cleaned text changes nothing. *)
Theorem clean_text_idempotent text : clean_text (clean_text text) = clean_text text.
Proof. apply clean_text_clean_id, clean_text_is_clean. Qed.

(** [clean_text] leaves a text of words of allowed characters separated
    by single spaces as it is. *)
Lemma clean_text_fixpoint ws :
  Forall is_word ws → Forall (Forall (λ c, allowed c = true)) ws →
  clean_text (join (lit " ") ws) = join (lit " ") ws.
Proof. intros Hws Hal. apply clean_text_clean_id. by exists ws. Qed.

End clean_text_theorems.

Lemma clean_text_fixpoint_witness :
  clean_text (lit "azul fell-awen") = lit "azul fell-awen".
Proof.
  apply (clean_text_fixpoint [lit "azul"; lit "fell-awen"]);
    apply (bool_decide_unpack _); by vm_compute.
Defined.
