(* ===== verification/Serializer.v ===== *)
(** * Serialization of the tables

    [ngram_to_string] of ngrams_tp.py, which pipeline.py writes inline as
    [" ".join(k)], and the dict comprehensions that turn a table keyed by
    grams into the string-keyed table handed to [json.dump].  Writing the
    JSON text itself is not modelled. *)

From stdpp Require Import prelude.
From S2P Require Import Prelude PyStr Counter.

(** ngrams_tp.py, [ngram_to_string]. *)
Definition ngram_to_string (ngram : list (list N)) : list N := join (lit " ") ngram.

Section dict_comp.
Context {K V : Type} `{EqDecision K'} {V' : Type}.
Implicit Types (d : dict K V) (fk : K → V → K') (fv : K → V → V').

(** [{fk(k, v): fv(k, v) for k, v in d.items()}]: a key produced twice keeps
    its first place and its last value. *)
Definition dict_comp fk fv d : dict K' V' :=
  foldl (λ acc '(k, v), dict_set acc (fk k v) (fv k v)) [] d.

Lemma dict_comp_foldl_wf fk fv d (acc : dict K' V') :
  dict_wf acc → dict_wf (foldl (λ acc '(k, v), dict_set acc (fk k v) (fv k v)) acc d).
Proof.
  revert acc. induction d as [|[k v] d IH]; intros acc Hacc; simpl; auto with py.
Qed.

Lemma dict_comp_wf fk fv d : dict_wf (dict_comp fk fv d).
Proof. apply dict_comp_foldl_wf. constructor. Qed.

Lemma dict_comp_foldl_distinct fk fv d (acc : dict K' V') :
  NoDup (keys acc ++ (uncurry fk <$> d)) →
  foldl (λ acc '(k, v), dict_set acc (fk k v) (fv k v)) acc d
  = acc ++ ((λ '(k, v), (fk k v, fv k v)) <$> d).
Proof.
  unfold keys. revert acc. induction d as [|[k v] d IH]; intros acc Hnd; csimpl.
  - by rewrite app_nil_r.
  - apply list.NoDup_app in Hnd as Hnd'. destruct Hnd' as (_ & Hacc & _).
    rewrite dict_set_absent by (intros ?; eapply Hacc; [done|left]).
    rewrite IH by (by rewrite fmap_app, <- app_assoc). by rewrite <- app_assoc.
Qed.

(** When the keys produced are distinct, the comprehension has one entry per
    item, in the order of the items. *)
Lemma dict_comp_distinct fk fv d :
  NoDup (uncurry fk <$> d) → dict_comp fk fv d = (λ '(k, v), (fk k v, fv k v)) <$> d.
Proof. intros Hnd. unfold dict_comp. by rewrite dict_comp_foldl_distinct. Qed.

(** What holds of the entry each item produces holds of every entry. *)
Lemma Forall_dict_comp (P : K' * V' → Prop) fk fv d :
  Forall (λ kv, P (fk kv.1 kv.2, fv kv.1 kv.2)) d → Forall P (dict_comp fk fv d).
Proof.
  unfold dict_comp. assert (Forall P (@nil (K' * V'))) as Hacc by constructor.
  revert Hacc. generalize (@nil (K' * V')).
  intros acc Hacc Hd. revert acc Hacc.
  induction Hd as [|[k v] d Hkv _ IH]; intros acc Hacc; simpl; [done|].
  by apply IH, Forall_dict_set.
Qed.

(** A comprehension whose value expression can raise: the exception of the
    first item on which it does. *)
Definition dict_compM fk (fv : K → V → result V') d : result (dict K' V') :=
  foldM (λ acc '(k, v), y ← fv k v; Ok (dict_set acc (fk k v) y)) [] d.

Lemma dict_compM_pure fk fv d :
  dict_compM fk (λ k v, Ok (fv k v)) d = Ok (dict_comp fk fv d).
Proof.
  unfold dict_compM, dict_comp. generalize (@nil (K' * V')).
  induction d as [|[k v] d IH]; intros acc; simpl; [done|]. apply IH.
Qed.

End dict_comp.

(** [dict(d)], or [{k: v for k, v in d.items()}]: a copy. *)
Lemma dict_comp_copy `{EqDecision K} {V} (d : dict K V) :
  dict_wf d → dict_comp (K' := K) (λ k _, k) (λ _ v, v) d = d.
Proof.
  intros Hwf. rewrite dict_comp_distinct.
  - rewrite <- (list_fmap_id d) at 2. apply list_fmap_ext. by intros _ [??] _.
  - assert (uncurry (λ k (_ : V), k) <$> d = keys d) as ->; [|done].
    apply list_fmap_ext. by intros _ [??] _.
Qed.


(** [{" ".join(k): v for k, v in table.items()}] *)
Definition serialize {V} (table : dict (list (list N)) V) : dict (list N) V :=
  dict_comp (λ k _, ngram_to_string k) (λ _ v, v) table.

Example serialize_ex :
  serialize [([lit "a"; lit "b"], 2%Z); ([lit "b"; lit "a"], 1%Z)]
  = [(lit "a b", 2%Z); (lit "b a", 1%Z)].
Proof. reflexivity. Qed.

(** A token with a space in it collides with two tokens: the later entry
    overwrites the value of the earlier one. *)
Example serialize_collision_ex :
  serialize [([lit "a b"], 1%Z); ([lit "a"; lit "b"], 5%Z)] = [(lit "a b", 5%Z)].
Proof. reflexivity. Qed.

(** ** Grams of words serialize without loss *)

Section serialize_lemmas.
Context {V : Type}.
Implicit Types (g : list (list N)) (table : dict (list (list N)) V).

Lemma split_ngram_to_string g : Forall is_word g → split (ngram_to_string g) = g.
Proof. apply (split_join 32). reflexivity. Qed.

Lemma ngram_to_string_inj_words g1 g2 :
  Forall is_word g1 → Forall is_word g2 →
  ngram_to_string g1 = ngram_to_string g2 → g1 = g2.
Proof.
  intros H1 H2 Heq. by rewrite <- (split_ngram_to_string g1), Heq, split_ngram_to_string.
Qed.

Lemma serialize_fmap table :
  dict_wf table → Forall (λ kv, Forall is_word kv.1) table →
  serialize table = prod_map ngram_to_string id <$> table.
Proof.
  intros Hwf Hw. unfold serialize. rewrite dict_comp_distinct.
  - apply list_fmap_ext. by intros _ [k v] _.
  - assert (uncurry (λ k (_ : V), ngram_to_string k) <$> table
            = ngram_to_string <$> keys table) as ->.
    { unfold keys. rewrite <- list_fmap_compose. apply list_fmap_ext. by intros _ [??] _. }
    apply NoDup_fmap_2_strong; [|done]. rewrite list.Forall_forall in Hw.
    intros g1 g2 [[k1 v1] [-> H1]]%list_elem_of_fmap [[k2 v2] [-> H2]]%list_elem_of_fmap.
    apply ngram_to_string_inj_words; [apply (Hw _ H1)|apply (Hw _ H2)].
Qed.

(** Serializing keeps what holds of the values. *)
Lemma Forall_serialize (P : V → Prop) table :
  Forall (λ kv, P kv.2) table → Forall (λ kv, P kv.2) (serialize table).
Proof.
  intros Ht. apply (Forall_dict_comp (λ kv, P kv.2)).
  eapply Forall_impl; [done|]. by intros [??].
Qed.

(** C37: a gram of tokens without whitespace is recovered from its string by
    splitting, so two such grams with the same string are the same gram. *)
Theorem ngram_to_string_roundtrip g1 g2 :
  Forall is_word g1 → Forall is_word g2 →
  split (ngram_to_string g1) = g1
  ∧ (ngram_to_string g1 = ngram_to_string g2 → g1 = g2).
Proof.
  intros H1 H2. split; [by apply split_ngram_to_string|by apply ngram_to_string_inj_words].
Qed.

(** C17: serializing a table with distinct keys whose grams are made of
    tokens that are not empty and hold no whitespace loses no entry: the
    string-keyed table has the entries of the table, in the same order,
    with the same values, under distinct keys. *)
Theorem serialize_lossless table :
  dict_wf table → Forall (λ kv, Forall is_word kv.1) table →
  serialize table = prod_map ngram_to_string id <$> table
  ∧ length (serialize table) = length table
  ∧ dict_wf (serialize table)
  ∧ ∀ g v, (g, v) ∈ table → dict_get (serialize table) (ngram_to_string g) = Some v.
Proof.
  intros Hwf Hw. pose proof (serialize_fmap table Hwf Hw) as Heq.
  pose proof (dict_comp_wf (λ k (_ : V), ngram_to_string k) (λ _ v, v) table) as Hs.
  split_and!; [done|by rewrite Heq, length_fmap|done|].
  intros g v Hin. apply dict_elem_get; [done|]. rewrite Heq.
  apply list_elem_of_fmap. by exists (g, v).
Qed.

End serialize_lemmas.

Lemma ngram_to_string_roundtrip_witness :
  split (ngram_to_string [lit "a"; lit "b"]) = [lit "a"; lit "b"].
Proof.
  refine (proj1 (ngram_to_string_roundtrip [lit "a"; lit "b"] [lit "b"] _ _));
    apply (bool_decide_unpack _); by vm_compute.
Defined.

Lemma serialize_lossless_witness :
  serialize [([lit "a"; lit "b"], 2%Z); ([lit "b"; lit "a"], 1%Z)]
  = [(lit "a b", 2%Z); (lit "b a", 1%Z)].
Proof.
  refine (proj1 (serialize_lossless
    [([lit "a"; lit "b"], 2%Z); ([lit "b"; lit "a"], 1%Z)] _ _));
    apply (bool_decide_unpack _); by vm_compute.
Defined.
