(* ===== verification/Pipeline.v ===== *)
(** * The pipeline of amazigh/pipeline.py

    [process_corpus]: read the corpus, clean it, tokenize it, count the
    grams of the orders 1 to 5, estimate the smoothed scores of the orders 2
    to 5, and hand the string-keyed tables to [json.dump].  Opening and
    reading the file is an input of the model (the text read, or the
    exception raised); the tables written are its output. *)

From Stdlib Require Import QArith Rdefinitions.
From stdpp Require Import prelude countable.
From S2P Require Import Prelude PyStr Counter Ngrams Probability Score Regex Tokenizer Normalizer Serializer.

#[local] Open Scope Z_scope.

(** The tables written: [{prefix}_{n}gram_counts.json] for [n] from 1 to 5
    and [{prefix}_{n}gram_logproba.json] for [n] from 2 to 5, in the order
    in which they are written, each with its order [n]. *)
Record corpus_files (F : Type) := {
  counts_json : list (Z * dict (list N) Z);
  logproba_json : list (Z * dict (list N) F);
}.
Arguments counts_json {F}.
Arguments logproba_json {F}.

Section process_corpus.
Context `{Unicode} `{NegLog F}.

(** The loop that fills [counts]: [counts[n].update(build_ngrams(tokens, n))]
    for [n] in [range(1, 6)]. *)
Definition count_grams (tokens : list (list N))
    (counts : dict Z (dict (list (list N)) Z))
  : result (dict Z (dict (list (list N)) Z)) :=
  foldM (λ counts n,
           let grams := build_ngrams tokens n in
           c ← dict_getitem counts n;
           Ok (dict_set counts n (counter_update c grams)))
        counts (range_from 1 6).

(** The loop that fills [probabilities], for [n] in [range(2, 6)]. *)
Definition estimate (counts : dict Z (dict (list (list N)) Z))
  : result (dict Z (dict (list (list N)) F)) :=
  foldM (λ probabilities n,
           ngram_counts ← dict_getitem counts n;
           lower ← dict_getitem counts (n - 1);
           p ← Laplace.calculate_probabilities ngram_counts
                 (dict_comp (λ k _, k) (λ _ v, v) lower);
           Ok (dict_set probabilities n p))
        [] (range_from 2 6).

(** One of the two loops that save the tables of [tables], for the orders
    [lo] to [hi - 1]. *)
Definition dump {V} (tables : dict Z (dict (list (list N)) V)) (lo hi : Z)
  : result (list (Z * dict (list N) V)) :=
  foldM (λ files n, table ← dict_getitem tables n; Ok (files ++ [(n, serialize table)]))
        [] (range_from lo hi).

(** pipeline.py, [process_corpus]; [file] is what [open] and [f.read()]
    give. *)
Definition process_corpus (file : result (list N)) : result (corpus_files F) :=
  text ← file;
  let text := clean_text text in
  let tokens := tokenize text in
  let counts := foldl (λ counts n, dict_set counts n (Counter [])) [] (range_from 1 6) in
  counts ← count_grams tokens counts;
  probabilities ← estimate counts;
  counts_files ← dump counts 1 6;
  logproba_files ← dump probabilities 2 6;
  Ok {| counts_json := counts_files; logproba_json := logproba_files |}.

End process_corpus.

(** The example of the specification, through the whole pipeline. *)
Example process_corpus_ex :
  process_corpus (F := score) (Ok (lit "<b>A</b> b a  B c!"))
  = Ok {|
      counts_json :=
        [(1, [(lit "a", 2); (lit "b", 2); (lit "c", 1)]);
         (2, [(lit "a b", 2); (lit "b a", 1); (lit "b c", 1)]);
         (3, [(lit "a b a", 1); (lit "b a b", 1); (lit "a b c", 1)]);
         (4, [(lit "a b a b", 1); (lit "b a b c", 1)]);
         (5, [(lit "a b a b c", 1)])];
      logproba_json :=
        [(2, [(lit "a b", NegLn (3 # 5)); (lit "b a", NegLn (2 # 5));
              (lit "b c", NegLn (2 # 5))]);
         (3, [(lit "a b a", NegLn (2 # 5)); (lit "b a b", NegLn (1 # 2));
              (lit "a b c", NegLn (2 # 5))]);
         (4, [(lit "a b a b", NegLn (1 # 2)); (lit "b a b c", NegLn (1 # 2))]);
         (5, [(lit "a b a b c", NegLn (2 # 3))])] |}.
Proof. vm_compute. reflexivity. Qed.

(** ** The tables counted from one token sequence *)

Section gram_tables.
Context `{Countable T}.
Implicit Types (tokens g : list T) (n c : Z).

(** The table of the order [n]. *)
Definition table tokens n : dict (list T) Z := Counter (build_ngrams tokens n).

Lemma table_wf tokens n : counter_wf (table tokens n).
Proof. apply Counter_wf. Qed.

Lemma table_get tokens n g :
  dict_get_default (table tokens n) g 0 = Z.of_nat (occ g (build_ngrams tokens n)).
Proof. apply Counter_get. Qed.

Lemma table_lower_nonempty tokens n :
  table tokens n ≠ [] → table tokens (n - 1) ≠ [].
Proof.
  unfold table. rewrite !Counter_nil_iff. apply build_ngrams_lower_nonempty.
Qed.

(** A gram is counted at most as often as its context one order down, and
    its context is a key there. *)
Lemma table_prefix tokens n g c :
  1 ≤ n → (g, c) ∈ table tokens n →
  1 ≤ c ≤ dict_get_default (table tokens (n - 1)) (but_last g) 0.
Proof.
  intros Hn Hin. split; [by eapply Counter_elem_pos|].
  apply Counter_elem in Hin as [_ ->]. rewrite table_get.
  apply inj_le. by apply occ_but_last_build_ngrams.
Qed.

Lemma table_sum tokens n :
  sumZ (values (table tokens n)) = Z.max 0 (len tokens - n + 1).
Proof.
  unfold table, Counter. rewrite counter_update_sum. unfold len. simpl.
  rewrite length_build_ngrams. len_solve.
Qed.

(** The smoothed estimate of the order [n] never raises on the tables
    counted from one token sequence. *)
Lemma table_scores_ok `{NegLog F} tokens n :
  is_ok (Laplace.calculate_probabilities (F := F) (table tokens n) (table tokens (n - 1))).
Proof.
  destruct (table_wf tokens n) as [Hwf Hpos].
  apply Laplace.calculate_probabilities_is_ok; [done| |apply table_wf|apply table_lower_nonempty].
  eapply list.Forall_impl; [exact Hpos|]. intros; simpl in *; lia.
Qed.

(** The scores of the order [n]: what [calculate_probabilities] returns on
    the tables of the orders [n] and [n - 1]. *)
Definition scores `{NegLog F} tokens n : dict (list T) F :=
  match Laplace.calculate_probabilities (table tokens n) (table tokens (n - 1)) with
  | Ok probabilities => probabilities
  | Raise _ => []
  end.

Lemma scores_eq `{NegLog F} tokens n :
  Laplace.calculate_probabilities (table tokens n) (table tokens (n - 1))
  = Ok (scores (F := F) tokens n).
Proof. unfold scores. by destruct (table_scores_ok (F := F) tokens n) as [p ->]. Qed.

Lemma keys_scores `{NegLog F} tokens n :
  keys (scores (F := F) tokens n) = keys (table tokens n).
Proof.
  eapply Laplace.calculate_probabilities_keys; [apply table_wf|apply scores_eq].
Qed.

Lemma Forall_keys_table (P : T → Prop) tokens n :
  Forall P tokens → Forall (Forall P) (keys (table tokens n)).
Proof.
  intros Hall. unfold table. rewrite Counter_keys.
  pose proof (Forall_build_ngrams P tokens n Hall) as Hg.
  rewrite list.Forall_forall in Hg. apply list.Forall_forall.
  intros g Hin. rewrite elem_of_nub in Hin. by apply Hg.
Qed.

End gram_tables.

(** ** [process_corpus] in closed form *)

Section process_corpus_lemmas.
Context `{Unicode} `{NegLog F}.
Implicit Types (text : list N) (tokens : list (list N)) (n : Z).

Lemma count_grams_table tokens :
  count_grams tokens (foldl (λ counts n, dict_set counts n (Counter [])) [] (range_from 1 6))
  = Ok ((λ n, (n, table tokens n)) <$> range_from 1 6).
Proof. reflexivity. Qed.

Lemma estimate_tabulate (t : Z → dict (list (list N)) Z) :
  (∀ n, dict_wf (t n)) →
  estimate (F := F) ((λ n, (n, t n)) <$> range_from 1 6)
  = mapR (λ n, p ← Laplace.calculate_probabilities (t n) (t (n - 1)); Ok (n, p))
         (range_from 2 6).
Proof.
  intros Hwf. unfold estimate.
  change (range_from 2 6) with [2; 3; 4; 5]. cbn [foldM mapR].
  rewrite !dict_getitem_tabulate by (apply elem_of_range_from; lia).
  res_simpl. rewrite !dict_comp_copy by done.
  destruct (Laplace.calculate_probabilities (t 2) _); cbn; [|done].
  destruct (Laplace.calculate_probabilities (t 3) _); cbn; [|done].
  destruct (Laplace.calculate_probabilities (t 4) _); cbn; [|done].
  by destruct (Laplace.calculate_probabilities (t 5) _).
Qed.

Lemma estimate_table tokens :
  estimate (F := F) ((λ n, (n, table tokens n)) <$> range_from 1 6)
  = Ok ((λ n, (n, scores tokens n)) <$> range_from 2 6).
Proof.
  rewrite estimate_tabulate by apply table_wf. rewrite <- mapR_pure.
  apply mapR_ext. intros n _. by rewrite scores_eq.
Qed.

Lemma dump_tabulate {V} (t : Z → dict (list (list N)) V) (lo hi : Z) :
  dump ((λ n, (n, t n)) <$> range_from lo hi) lo hi
  = Ok ((λ n, (n, serialize (t n))) <$> range_from lo hi).
Proof.
  unfold dump. etrans; [|apply (foldM_snoc (λ n, (n, serialize (t n))) [])].
  apply foldM_ext. intros files n Hn. by rewrite dict_getitem_tabulate.
Qed.

(** [process_corpus] always returns once the file is read, and writes the
    tables and the scores of the tokens of the cleaned text. *)
Lemma process_corpus_eq text :
  let tokens := tokenize (clean_text text) in
  process_corpus (F := F) (Ok text)
  = Ok {| counts_json := (λ n, (n, serialize (table tokens n))) <$> range_from 1 6;
          logproba_json := (λ n, (n, serialize (scores tokens n))) <$> range_from 2 6 |}.
Proof.
  intros tokens. unfold process_corpus. res_simpl. fold tokens.
  rewrite count_grams_table. res_simpl.
  rewrite estimate_table. res_simpl.
  by rewrite !dump_tabulate.
Qed.

(** The grams of the tokens of [tokenize] serialize without loss. *)
Lemma serialize_table text n :
  let tokens := tokenize (clean_text text) in
  serialize (table tokens n) = prod_map ngram_to_string id <$> table tokens n
  ∧ serialize (scores (F := F) tokens n)
    = prod_map ngram_to_string id <$> scores (F := F) tokens n.
Proof.
  intros tokens.
  assert (Forall (Forall is_word) (keys (table tokens n))) as Hw
    by apply Forall_keys_table, split_words.
  split; apply serialize_fmap.
  - apply table_wf.
  - by apply (proj1 (Forall_fmap _ _ _)) in Hw.
  - unfold dict_wf. rewrite keys_scores. apply table_wf.
  - rewrite <- (keys_scores (F := F)) in Hw. by apply (proj1 (Forall_fmap _ _ _)) in Hw.
Qed.

End process_corpus_lemmas.

(** ** What [process_corpus] guarantees *)

Section process_corpus_theorems.
Context `{Unicode}.
Implicit Types (text : list N) (n c : Z).

(** C1: [process_corpus] fails only if reading the file does: once the text
    is read, cleaning, tokenizing, counting, estimating and serializing raise
    nothing, whatever the text, the empty one included; an exception of
    [open] or [read], a missing file included, is not handled. *)
Theorem process_corpus_total `{NegLog F} (file : result (list N)) :
  (is_ok (process_corpus (F := F) file) ↔ is_ok file)
  ∧ ∀ e, file = Raise e → process_corpus (F := F) file = Raise e.
Proof.
  split; [|by intros e ->]. destruct file as [text|e].
  - rewrite process_corpus_eq. split; intros; apply is_ok_Ok.
  - split; by intros ?%not_is_ok_Raise.
Qed.

(** C9: the count tables [process_corpus] writes are, for the orders 1 to 5
    in this order, the counts of the grams of the tokens of the cleaned text
    under their strings; in each the counts add up to the number of grams,
    [max(0, len(tokens) - n + 1)], and no two grams share a string. *)
Theorem process_corpus_counts `{NegLog F} text (out : corpus_files F) :
  process_corpus (Ok text) = Ok out →
  let tokens := tokenize (clean_text text) in
  counts_json out
  = (λ n, (n, prod_map ngram_to_string id <$> Counter (build_ngrams tokens n)))
      <$> range_from 1 6
  ∧ Forall (λ nt, sumZ (values nt.2) = Z.max 0 (len tokens - nt.1 + 1)
                  ∧ length nt.2 = length (nub (build_ngrams tokens nt.1)))
           (counts_json out).
Proof.
  rewrite process_corpus_eq. intros <-%Ok_inj tokens. cbn [counts_json].
  assert (∀ n, serialize (table tokens n)
               = prod_map ngram_to_string id <$> table tokens n) as Hs
    by (intros n; apply (serialize_table (F := F))).
  split; [apply list_fmap_ext; intros _ n _; by rewrite Hs|].
  apply Forall_fmap, Forall_true. intros n. cbn [fst snd compose]. rewrite Hs.
  unfold values. rewrite <- list_fmap_compose, length_fmap. split.
  - apply table_sum.
  - apply Counter_length.
Qed.

End process_corpus_theorems.

(** C16: in the tables counted from one token sequence, the context [g[:-1]]
    of every gram [g] of an order [n >= 2] is a key of the table of the
    order [n - 1], with a count that is at least the count of [g]: the
    lookup of [calculate_probabilities] never misses. *)
Theorem gram_context_counted `{Countable T} (tokens g : list T) (n c : Z) :
  2 ≤ n → (g, c) ∈ table tokens n →
  ∃ c', (but_last g, c') ∈ table tokens (n - 1) ∧ 1 ≤ c ≤ c'.
Proof.
  intros Hn Hin. pose proof (table_prefix tokens n g c ltac:(lia) Hin) as Hc.
  exists (Z.of_nat (occ (but_last g) (build_ngrams tokens (n - 1)))).
  rewrite table_get in Hc. split; [|done].
  apply Counter_elem. split; [|done]. apply occ_pos. lia.
Qed.

(** On the tables counted from one token sequence the scores over the real
    numbers are not negative. *)
Lemma scores_nonneg `{Countable T} (tokens : list T) (n : Z) :
  1 ≤ n → Forall (λ ks, (0 <= ks.2)%R) (scores (F := R) tokens n).
Proof.
  intros Hn. destruct (decide (table tokens n = [])) as [Hnil|Hne].
  - assert (scores (F := R) tokens n = []) as ->; [|constructor].
    apply (fmap_nil_inv fst). fold (keys (scores (F := R) tokens n)).
    by rewrite keys_scores, Hnil.
  - eapply calculate_probabilities_nonneg; [apply table_wf| | |apply scores_eq].
    + by apply table_lower_nonempty.
    + intros g c Hin. pose proof (table_prefix tokens n g c Hn Hin). lia.
Qed.

(** C5: with the logarithm of the real numbers, every score [process_corpus]
    writes is at least 0: on the tables counted from one token sequence the
    smoothed ratio is a probability. *)
Theorem process_corpus_scores_nonneg `{Unicode} text (out : corpus_files R) :
  process_corpus (Ok text) = Ok out →
  Forall (λ nt, Forall (λ ks, (0 <= ks.2)%R) nt.2) (logproba_json out).
Proof.
  rewrite process_corpus_eq. intros <-%Ok_inj. cbn [logproba_json].
  apply Forall_fmap, list.Forall_forall. intros n Hn%elem_of_range_from.
  cbn [snd compose]. rewrite (proj2 (serialize_table text n)). apply Forall_fmap.
  eapply list.Forall_impl; [apply (scores_nonneg _ n); lia|]. by intros [g s].
Qed.

(** ** The theorems at concrete inputs *)

Lemma process_corpus_counts_witness :
  ∃ out, process_corpus (F := score) (Ok (lit "a b a b c")) = Ok out
    ∧ Forall (λ nt, sumZ (values nt.2) = Z.max 0 (5 - nt.1 + 1)
                    ∧ length nt.2
                      = length (nub (build_ngrams (tokenize (lit "a b a b c")) nt.1)))
             (counts_json out).
Proof.
  eexists. split; [apply process_corpus_eq|].
  exact (proj2 (process_corpus_counts (lit "a b a b c") _ (process_corpus_eq _))).
Defined.

Lemma gram_context_counted_witness :
  ∃ c', ([1%nat], c') ∈ table [1; 2; 1; 2; 3]%nat 1 ∧ 1 ≤ 2 ≤ c'.
Proof.
  apply (gram_context_counted [1; 2; 1; 2; 3]%nat [1; 2]%nat 2 2); [lia|].
  by apply (bool_decide_unpack _).
Defined.

Lemma process_corpus_scores_nonneg_witness :
  ∃ out, process_corpus (F := R) (Ok (lit "a b a b c")) = Ok out
    ∧ Forall (λ nt, Forall (λ ks, (0 <= ks.2)%R) nt.2) (logproba_json out).
Proof.
  eexists. split; [apply process_corpus_eq|].
  exact (process_corpus_scores_nonneg (lit "a b a b c") _ (process_corpus_eq _)).
Defined.
