(* ===== verification/NgramsTp.v ===== *)
(** * The pipeline of ngrams_tp.py

    [process_language]: read the sentences, tokenize them, build the
    vocabulary, count the grams of the orders 1 to 5 with nltk's [FreqDist],
    estimate the relative frequencies, and hand the string-keyed tables to
    [json.dump]; and the main loop over [FILE_PATHS].  The file system is an
    input of the model: which paths exist, and what reading a file gives. *)

From Stdlib Require Import QArith.
From stdpp Require Import prelude countable sorting.
From S2P Require Import Prelude PyStr Counter Ngrams Probability Regex Tokenizer Serializer.

#[local] Open Scope Z_scope.

(** ngrams_tp.py, [FILE_PATHS]. *)
Definition FILE_PATHS : dict (list N) (list N) :=
  [(lit "arabic",
    lit "extracted/arabic/ara-dz_newscrawl-OSIAN_2018_10K/ara-dz_newscrawl-OSIAN_2018_10K-sentences.txt");
   (lit "english",
    lit "extracted/english/eng_news_2024_10K/eng_news_2024_10K-sentences.txt");
   (lit "french",
    lit "extracted/french/fra_news_2024_10K/fra_news_2024_10K-sentences.txt")].

(** The files [process_language] writes in its output directory:
    [{n}gram.json] for [n] from 1 to 5, [prob_{n}gram.json] for [n] from 2
    to 5, [vocab.json], [vocab_rev.json] and [freq.json]. *)
Record language_files := {
  gram_json : list (Z * dict (list N) Z);
  prob_json : list (Z * dict (list N) Q);
  vocab_json : dict (list N) Z;
  vocab_rev_json : dict Z (list N);
  freq_json : dict (list N) Z;
}.

Section process_language.
Context `{Unicode}.

(** [total_unigrams] and the comprehension of [ngram_probs[1]]. *)
Definition unigram_probabilities (unigrams : dict (list N) Z)
  : result (dict (list N) Q) :=
  let total_unigrams := sumZ (values unigrams) in
  dict_compM (λ word _, ngram_to_string [word])
    (λ _ count, (true_div count total_unigrams when 0 < total_unigrams
                 otherwise Ok 0%Q)%py)
    unigrams.

(** The loop over [bigram_freq.items()] that fills [bigram_probs]. *)
Definition bigram_probabilities (unigrams : dict (list N) Z)
    (bigram_freq : dict (list (list N)) Z) : result (dict (list (list N)) Q) :=
  foldM (λ bigram_probs '(bigram, count),
           w1 ← getitem bigram 0;
           let w1_count := dict_get_default unigrams w1 0 in
           if decide (0 < w1_count) then
             p ← true_div count w1_count;
             Ok (dict_set bigram_probs bigram p)
           else Ok (dict_set bigram_probs bigram 0%Q))
        [] bigram_freq.

(** One of the two loops that save the tables of [tables], for the orders
    [lo] to [hi - 1]. *)
Definition save {V} (tables : dict Z (dict (list N) V)) (lo hi : Z)
  : result (list (Z * dict (list N) V)) :=
  foldM (λ files n, table ← dict_getitem tables n; Ok (files ++ [(n, table)]))
        [] (range_from lo hi).

(** ngrams_tp.py, [process_language]; [file] is what opening [file_path] and
    reading its lines gives.  [None] is the early return when there is no
    sentence.  For the orders 3 to 5 the table of [calculate_probabilities],
    keyed by tuples, is stored in [ngram_probs[n]] and replaced by its
    string-keyed form in the next statement: the model stores the latter. *)
Definition process_language (file : result (list (list N)))
  : result (option language_files) :=
  sentences ← read_sentences_file file;
  if decide (sentences = []) then Ok None else
  let tokens := process_text_to_tokens sentences in
  let vocab := sorted (nub tokens) in
  let vocab_dict := dict_comp (λ _ word, word) (λ idx _, idx) (enumerate vocab) in
  let vocab_rev := dict_comp (λ idx _, idx) (λ _ word, word) (enumerate vocab) in
  let ngram_freqs : dict Z (dict (list N) Z) := [] in
  let ngram_probs : dict Z (dict (list N) Q) := [] in
  let unigrams := Counter tokens in
  let ngram_freqs := dict_set ngram_freqs 1
    (dict_comp (λ word _, ngram_to_string [word]) (λ _ count, count) unigrams) in
  probs1 ← unigram_probabilities unigrams;
  let ngram_probs := dict_set ngram_probs 1 probs1 in
  let bigram_list := bigrams tokens in
  let bigram_freq := Counter bigram_list in
  let ngram_freqs := dict_set ngram_freqs 2 (serialize bigram_freq) in
  bigram_probs ← bigram_probabilities unigrams bigram_freq;
  let ngram_probs := dict_set ngram_probs 2 (serialize bigram_probs) in
  let trigram_list := trigrams tokens in
  let trigram_freq := Counter trigram_list in
  let ngram_freqs := dict_set ngram_freqs 3 (serialize trigram_freq) in
  probs3 ← MLE.calculate_probabilities trigram_freq bigram_freq;
  let ngram_probs := dict_set ngram_probs 3 (serialize probs3) in
  let quadrigram_list := ngrams tokens 4 in
  let quadrigram_freq := Counter quadrigram_list in
  let ngram_freqs := dict_set ngram_freqs 4 (serialize quadrigram_freq) in
  probs4 ← MLE.calculate_probabilities quadrigram_freq trigram_freq;
  let ngram_probs := dict_set ngram_probs 4 (serialize probs4) in
  let pentagram_list := ngrams tokens 5 in
  let pentagram_freq := Counter pentagram_list in
  let ngram_freqs := dict_set ngram_freqs 5 (serialize pentagram_freq) in
  probs5 ← MLE.calculate_probabilities pentagram_freq quadrigram_freq;
  let ngram_probs := dict_set ngram_probs 5 (serialize probs5) in
  gram_files ← save ngram_freqs 1 6;
  prob_files ← save ngram_probs 2 6;
  let freq_summary :=
    [(lit "unigrams", len unigrams);
     (lit "bigrams", len bigram_freq);
     (lit "trigrams", len trigram_freq);
     (lit "quadrigrams", len quadrigram_freq);
     (lit "pentagrams", len pentagram_freq);
     (lit "total_tokens", len tokens);
     (lit "vocabulary_size", len vocab)] in
  Ok (Some {| gram_json := gram_files; prob_json := prob_files;
              vocab_json := vocab_dict; vocab_rev_json := vocab_rev;
              freq_json := freq_summary |}).

(** ngrams_tp.py, the main loop: [exists] is [os.path.exists], [read] what
    opening a path and reading its lines gives.  The result lists the
    languages processed, with what each wrote. *)
Definition main (path_exists : list N → bool) (read : list N → result (list (list N)))
  : result (list (list N * option language_files)) :=
  foldM (λ processed '(lang, file_path),
           if path_exists file_path then
             out ← process_language (read file_path);
             Ok (processed ++ [(lang, out)])
           else Ok processed)
        [] FILE_PATHS.

End process_language.

(** What the example of the specification gives: the tables written for
    the one sentence [A b a B c]. *)
Definition example_files : language_files :=
  {|
    gram_json :=
      [(1, [(lit "a", 2); (lit "b", 2); (lit "c", 1)]);
       (2, [(lit "a b", 2); (lit "b a", 1); (lit "b c", 1)]);
       (3, [(lit "a b a", 1); (lit "b a b", 1); (lit "a b c", 1)]);
       (4, [(lit "a b a b", 1); (lit "b a b c", 1)]);
       (5, [(lit "a b a b c", 1)])];
    prob_json :=
      [(2, [(lit "a b", (2 / 2)%Q); (lit "b a", (1 / 2)%Q); (lit "b c", (1 / 2)%Q)]);
       (3, [(lit "a b a", (1 / 2)%Q); (lit "b a b", (1 / 1)%Q); (lit "a b c", (1 / 2)%Q)]);
       (4, [(lit "a b a b", (1 / 1)%Q); (lit "b a b c", (1 / 1)%Q)]);
       (5, [(lit "a b a b c", (1 / 1)%Q)])];
    vocab_json := [(lit "a", 0); (lit "b", 1); (lit "c", 2)];
    vocab_rev_json := [(0, lit "a"); (1, lit "b"); (2, lit "c")];
    freq_json :=
      [(lit "unigrams", 3); (lit "bigrams", 3); (lit "trigrams", 3);
       (lit "quadrigrams", 2); (lit "pentagrams", 1); (lit "total_tokens", 5);
       (lit "vocabulary_size", 3)] |}.

Example process_language_ex :
  process_language (Ok [lit "1" ++ [9%N] ++ lit "A b a B c"]) = Ok (Some example_files).
Proof. vm_compute. reflexivity. Qed.

(** ** The estimates in closed form *)

(** The relative frequency of a unigram among [total] tokens. *)
Definition unigram_prob (total count : Z) : Q :=
  if decide (0 < total) then (inject_Z count / inject_Z total)%Q else 0%Q.

(** The value stored for a bigram: its count over the count of its first
    word. *)
Definition bigram_prob (unigrams : dict (list N) Z) (kv : list (list N) * Z) : Q :=
  let w1_count := dict_get_default unigrams (default [] (head kv.1)) 0 in
  if decide (0 < w1_count) then (inject_Z kv.2 / inject_Z w1_count)%Q else 0%Q.

Section estimates.
Implicit Types (unigrams : dict (list N) Z) (bigram_freq : dict (list (list N)) Z).

Lemma unigram_probabilities_eq unigrams :
  dict_wf unigrams →
  unigram_probabilities unigrams
  = Ok ((λ kv, (kv.1, unigram_prob (sumZ (values unigrams)) kv.2)) <$> unigrams).
Proof.
  intros Hwf. unfold unigram_probabilities, dict_compM. cbv zeta.
  rewrite <- foldM_dict_set_pure by done. apply foldM_ext. intros acc [w c] _.
  unfold unigram_prob. case_decide; [|done]. by rewrite true_div_Ok by lia.
Qed.

Lemma bigram_probabilities_eq unigrams bigram_freq :
  dict_wf bigram_freq → Forall (λ kv, kv.1 ≠ []) bigram_freq →
  bigram_probabilities unigrams bigram_freq
  = Ok ((λ kv, (kv.1, bigram_prob unigrams kv)) <$> bigram_freq).
Proof.
  intros Hwf Hne. unfold bigram_probabilities.
  rewrite <- foldM_dict_set_pure by done. apply foldM_ext. intros acc [g c] Hin.
  rewrite list.Forall_forall in Hne. specialize (Hne _ Hin).
  destruct g as [|w1 g]; [done|]. unfold bigram_prob. cbn. case_decide; [|done].
  by rewrite true_div_Ok by lia.
Qed.

Lemma save_all {V} (t1 t2 t3 t4 t5 : dict (list N) V) :
  let tables := dict_set (dict_set (dict_set (dict_set (dict_set [] 1 t1) 2 t2) 3 t3) 4 t4) 5 t5 in
  save tables 1 6 = Ok [(1, t1); (2, t2); (3, t3); (4, t4); (5, t5)]
  ∧ save tables 2 6 = Ok [(2, t2); (3, t3); (4, t4); (5, t5)].
Proof. split; reflexivity. Qed.

End estimates.

(** ** [process_language] in closed form *)

(** What [process_language] writes for a token sequence. *)
Definition language_tables (tokens : list (list N)) : language_files :=
  let vocab := sorted (nub tokens) in
  let unigrams := Counter tokens in
  let bigram_freq := Counter (bigrams tokens) in
  let trigram_freq := Counter (trigrams tokens) in
  let quadrigram_freq := Counter (ngrams tokens 4) in
  let pentagram_freq := Counter (ngrams tokens 5) in
  let mle nf pf := (λ kv, (kv.1, MLE.relative nf pf kv)) <$> nf in
  {| gram_json :=
       [(1, unigrams); (2, serialize bigram_freq); (3, serialize trigram_freq);
        (4, serialize quadrigram_freq); (5, serialize pentagram_freq)];
     prob_json :=
       [(2, serialize ((λ kv, (kv.1, bigram_prob unigrams kv)) <$> bigram_freq));
        (3, serialize (mle trigram_freq bigram_freq));
        (4, serialize (mle quadrigram_freq trigram_freq));
        (5, serialize (mle pentagram_freq quadrigram_freq))];
     vocab_json := dict_comp (λ _ word, word) (λ idx _, idx) (enumerate vocab);
     vocab_rev_json := dict_comp (λ idx _, idx) (λ _ word, word) (enumerate vocab);
     freq_json :=
       [(lit "unigrams", len unigrams);
        (lit "bigrams", len bigram_freq);
        (lit "trigrams", len trigram_freq);
        (lit "quadrigrams", len quadrigram_freq);
        (lit "pentagrams", len pentagram_freq);
        (lit "total_tokens", len tokens);
        (lit "vocabulary_size", len vocab)] |}.

Section process_language_lemmas.
Context `{Unicode}.
Implicit Types (lines sentences tokens : list (list N)).

Lemma Counter_ngrams_nonempty {T} `{Countable T} (l : list T) (n : nat) :
  Forall (λ kv, kv.1 ≠ []) (Counter (ngrams l n)).
Proof.
  apply list.Forall_forall. intros [g c] [Hg _]%Counter_elem.
  destruct n; [by apply elem_of_nil in Hg|].
  rewrite ngrams_grams in Hg by lia. apply grams_length in Hg. by destruct g.
Qed.

(** With at least one sentence, [process_language] returns and writes the
    tables of the tokens of the sentences. *)
Lemma process_language_eq lines :
  let sentences := foldl read_line [] lines in
  process_language (Ok lines)
  = if decide (sentences = []) then Ok None
    else Ok (Some (language_tables (process_text_to_tokens sentences))).
Proof.
  intros sentences. unfold process_language. cbn [read_sentences_file mbind result_bind].
  fold sentences. case_decide; [done|]. cbv zeta.
  rewrite unigram_probabilities_eq by apply Counter_wf. res_simpl.
  rewrite bigram_probabilities_eq by (apply Counter_wf || apply Counter_ngrams_nonempty).
  res_simpl.
  rewrite !MLE.calculate_probabilities_fmap by apply Counter_wf. res_simpl.
  rewrite (proj1 (save_all _ _ _ _ _)). res_simpl.
  rewrite (proj2 (save_all _ _ _ _ _)). res_simpl.
  unfold language_tables. do 5 f_equal.
  apply (dict_comp_copy (Counter (process_text_to_tokens sentences))), Counter_wf.
Qed.

Lemma process_language_is_ok (file : result (list (list N))) :
  is_ok file ∨ file = Raise FileNotFoundError → is_ok (process_language file).
Proof.
  intros [[lines ->]| ->]; [|apply is_ok_Ok].
  rewrite process_language_eq. cbv zeta. case_decide; apply is_ok_Ok.
Qed.

Lemma process_language_Raise e :
  e ≠ FileNotFoundError → process_language (Raise e) = Raise e.
Proof. by destruct e. Qed.

End process_language_lemmas.

(** ** The probabilities written *)

Section probabilities.
Context {T : Type} `{Countable T}.
Implicit Types (tokens g : list T) (k : nat).

(** On the tables counted from one token sequence the relative frequency
    is a probability. *)
Lemma relative_grams_bounds tokens k kv :
  kv ∈ Counter (grams (S k) tokens) →
  (0 <= MLE.relative (Counter (grams (S k) tokens)) (Counter (grams k tokens)) kv <= 1)%Q.
Proof.
  destruct kv as [g c]. intros Hin. apply MLE.relative_bounds; [|done|].
  - eapply list.Forall_impl; [apply Counter_wf|]. intros; simpl in *; lia.
  - intros _. apply Counter_elem in Hin as [_ ->]. rewrite Counter_get.
    apply inj_le, occ_but_last_grams.
Qed.

End probabilities.

Section bigram_bounds.
Implicit Types (tokens : list (list N)).

Lemma bigram_prob_bounds tokens kv :
  kv ∈ Counter (grams 2 tokens) → (0 <= bigram_prob (Counter tokens) kv <= 1)%Q.
Proof.
  destruct kv as [g c]. intros [Hg ->]%Counter_elem. unfold bigram_prob. cbv zeta.
  cbn [fst snd]. rewrite Counter_get. case_decide; [|done].
  apply Qdiv_Z_bounds; [|done]. split; [lia|]. apply inj_le.
  pose proof (grams_length _ _ _ Hg) as Hlen.
  destruct g as [|w1 [|w2 [|]]]; try done. change (default [] (head [w1; w2])) with w1.
  rewrite <- (occ_grams_1 tokens w1). apply (occ_but_last_grams 1 tokens [w1; w2]).
Qed.

End bigram_bounds.

Section process_language_theorems.
Context `{Unicode}.
Implicit Types (lines : list (list N)) (out : language_files).

(** C6: every probability [process_language] writes lies between 0 and 1:
    a bigram is counted at most as often as its first word, and a gram of
    a higher order at most as often as its context. *)
Theorem process_language_probabilities lines out :
  process_language (Ok lines) = Ok (Some out) →
  Forall (λ nt, Forall (λ kp, (0 <= kp.2 <= 1)%Q) nt.2) (prob_json out).
Proof.
  rewrite process_language_eq. cbv zeta. case_decide; [done|].
  intros <-%Ok_inj%(inj Some). unfold language_tables, bigrams, trigrams.
  cbn [prob_json]. rewrite !ngrams_grams by lia.
  repeat apply list.Forall_cons_2; [..|constructor]; cbn [snd];
    apply (Forall_serialize (λ q, 0 <= q <= 1)%Q), Forall_fmap, list.Forall_forall;
    intros kv Hkv; cbn [compose snd].
  - by apply bigram_prob_bounds.
  - by apply relative_grams_bounds.
  - by apply relative_grams_bounds.
  - by apply relative_grams_bounds.
Qed.

End process_language_theorems.

Section process_language_errors.
Context `{Unicode}.
Implicit Types (lines : list (list N)) (file : result (list (list N))).

(** C10: [process_language] never raises once the file is read: it returns
    without writing anything when every line is blank or the file does not
    exist ([FileNotFoundError] is caught by [read_sentences_file]), and
    writes its tables otherwise; an exception of reading other than
    [FileNotFoundError] escapes it unchanged, and nothing else does. *)
Theorem process_language_total file :
  (is_ok (process_language file) ↔ is_ok file ∨ file = Raise FileNotFoundError)
  ∧ (∀ lines, file = Ok lines →
       process_language file = Ok None ↔ Forall blank lines)
  ∧ (file = Raise FileNotFoundError → process_language file = Ok None)
  ∧ (∀ e, file = Raise e → e ≠ FileNotFoundError →
       process_language file = Raise e).
Proof.
  split_and!.
  - split; [|apply process_language_is_ok]. destruct file as [lines|e].
    + intros _. left. apply is_ok_Ok.
    + destruct e; cbn; try (by intros ?%not_is_ok_Raise). by right.
  - intros lines ->. rewrite process_language_eq, <- read_lines_nil_iff. cbv zeta.
    case_decide; naive_solver.
  - by intros ->.
  - intros e ->. apply process_language_Raise.
Qed.

End process_language_errors.

(** ** The unigram probabilities *)

(** The sum of a list of rationals. *)
Definition sumQ (l : list Q) : Q := foldr Qplus 0%Q l.

Lemma sumQ_unigram_prob (total : Z) (counts : list Z) :
  0 < total →
  (sumQ (unigram_prob total <$> counts) == inject_Z (sumZ counts) / inject_Z total)%Q.
Proof.
  intros Ht. assert (¬ (inject_Z total == 0)%Q) as Hne.
  { unfold Qeq. simpl. lia. }
  induction counts as [|c counts IH]; csimpl; [by field|].
  rewrite IH. unfold unigram_prob. rewrite decide_True by done.
  rewrite inject_Z_plus. by field.
Qed.

(** C15: the unigram probabilities that [process_language] computes for a
    token sequence that is not empty are the relative frequencies
    [count / len(tokens)] of the distinct tokens, in order of first
    occurrence, and they add up to 1. *)
Theorem unigram_probabilities_sum (tokens : list (list N)) :
  tokens ≠ [] →
  ∃ probs,
    unigram_probabilities (Counter tokens) = Ok probs
    ∧ probs = (λ w, (w, (inject_Z (Z.of_nat (occ w tokens)) / inject_Z (len tokens))%Q))
                <$> nub tokens
    ∧ (sumQ (values probs) == 1)%Q.
Proof.
  intros Hne. assert (0 < len tokens) as Hlen by (destruct tokens; [done|unfold len; simpl; lia]).
  assert (sumZ (values (Counter tokens)) = len tokens) as Hsum.
  { unfold Counter. rewrite counter_update_sum. simpl. lia. }
  eexists. split; [apply unigram_probabilities_eq, Counter_wf|]. rewrite Hsum. split.
  - rewrite (dict_items_lookup (Counter tokens) 0) at 1 by apply Counter_wf.
    rewrite Counter_keys, <- list_fmap_compose. apply list_fmap_ext. intros _ w _.
    cbn. rewrite Counter_get. unfold unigram_prob. by rewrite decide_True.
  - unfold values. rewrite <- list_fmap_compose.
    change (snd ∘ _) with (unigram_prob (len tokens) ∘ (snd : list N * Z → Z)).
    rewrite list_fmap_compose, sumQ_unigram_prob by done.
    fold (values (Counter tokens)). rewrite Hsum. field. unfold Qeq. simpl. lia.
Qed.

Lemma unigram_probabilities_sum_witness :
  ∃ probs,
    unigram_probabilities (Counter [lit "a"; lit "b"; lit "a"]) = Ok probs
    ∧ probs = (λ w, (w, (inject_Z (Z.of_nat (occ w [lit "a"; lit "b"; lit "a"]))
                         / inject_Z 3)%Q)) <$> [lit "a"; lit "b"]
    ∧ (sumQ (values probs) == 1)%Q.
Proof. apply (unigram_probabilities_sum [lit "a"; lit "b"; lit "a"]). done. Defined.

(** ** The vocabulary *)

Section vocabulary.
Implicit Types (tokens vocab : list (list N)) (w : list N) (i : Z).

Lemma vocab_json_eq vocab :
  NoDup vocab →
  dict_comp (λ _ word, word) (λ idx _, idx) (enumerate vocab)
  = (λ iw, (iw.2, iw.1)) <$> enumerate vocab.
Proof.
  intros Hnd. rewrite dict_comp_distinct.
  - apply list_fmap_ext. by intros _ [??] _.
  - assert (uncurry (λ (_ : Z) w, w) <$> enumerate vocab = (enumerate vocab).*2) as ->.
    { apply list_fmap_ext. by intros _ [??] _. }
    by rewrite snd_enumerate.
Qed.

Lemma vocab_rev_json_eq vocab :
  dict_comp (λ idx _, idx) (λ _ word, word) (enumerate vocab) = enumerate vocab.
Proof. apply (dict_comp_copy (enumerate vocab)), NoDup_fst_enumerate. Qed.

End vocabulary.

Section vocabulary_theorem.
Context `{Unicode}.
Implicit Types (lines : list (list N)) (out : language_files).

(** C21: the vocabulary [process_language] writes is the distinct tokens in
    increasing order; [vocab.json] maps each to its rank and
    [vocab_rev.json] each rank to its token, and the two tables are inverse
    to each other. *)
Theorem vocabulary_bijection lines out :
  process_language (Ok lines) = Ok (Some out) →
  let tokens := process_text_to_tokens (foldl read_line [] lines) in
  let vocab := sorted (nub tokens) in
  StronglySorted str_le vocab ∧ NoDup vocab ∧ (∀ w, w ∈ vocab ↔ w ∈ tokens)
  ∧ vocab_rev_json out = enumerate vocab
  ∧ vocab_json out = (λ iw, (iw.2, iw.1)) <$> enumerate vocab
  ∧ ∀ w i, dict_get (vocab_json out) w = Some i ↔ dict_get (vocab_rev_json out) i = Some w.
Proof.
  rewrite process_language_eq. cbv zeta. case_decide; [done|].
  intros <-%Ok_inj%(inj Some). unfold language_tables. cbn [vocab_json vocab_rev_json].
  set (vocab := sorted (nub _)).
  assert (NoDup vocab) as Hnd by apply NoDup_sorted, NoDup_nub.
  rewrite vocab_json_eq, vocab_rev_json_eq by done.
  split_and!; [apply StronglySorted_sorted|done| |done|done|].
  - intros w. unfold vocab. by rewrite elem_of_sorted, elem_of_nub.
  - intros w i. split; intros Hget%dict_get_elem.
    + apply dict_elem_get; [apply NoDup_fst_enumerate|].
      by apply list_elem_of_fmap in Hget as ([i' w'] & [= -> ->] & ?).
    + apply dict_elem_get.
      * unfold dict_wf, keys. rewrite <- list_fmap_compose.
        change (fst ∘ _) with (snd : Z * list N → list N). by rewrite snd_enumerate.
      * apply list_elem_of_fmap. by exists (i, w).
Qed.

End vocabulary_theorem.

(** ** The count tables and the summary *)

Section counts.
Context `{Unicode}.
Implicit Types (lines tokens : list (list N)) (out : language_files).

Lemma length_Counter_grams tokens (k : nat) :
  len (Counter (grams k tokens)) ≤ Z.max 0 (len tokens + 1 - Z.of_nat k).
Proof.
  unfold len. rewrite Counter_length.
  pose proof (length_nub (grams k tokens)) as Hle. rewrite length_grams in Hle. lia.
Qed.

(** C31: the summary [process_language] writes is consistent with its
    tables: [unigrams] and [vocabulary_size] are both the number of
    distinct tokens, [total_tokens] is the number of tokens, which is the sum
    of the unigram counts written, and the number of distinct grams of an
    order [n] is at most [max(0, total_tokens - n + 1)]. *)
Theorem freq_summary_consistent lines out :
  process_language (Ok lines) = Ok (Some out) →
  let tokens := process_text_to_tokens (foldl read_line [] lines) in
  ∃ unigrams b t q p,
    freq_json out
    = [(lit "unigrams", len (nub tokens)); (lit "bigrams", b); (lit "trigrams", t);
       (lit "quadrigrams", q); (lit "pentagrams", p);
       (lit "total_tokens", len tokens); (lit "vocabulary_size", len (nub tokens))]
    ∧ dict_get (gram_json out) 1 = Some unigrams
    ∧ sumZ (values unigrams) = len tokens
    ∧ Forall (λ nc, 0 ≤ nc.2 ≤ Z.max 0 (len tokens - nc.1 + 1))
             [(2, b); (3, t); (4, q); (5, p)].
Proof.
  rewrite process_language_eq. cbv zeta. case_decide; [done|].
  intros <-%Ok_inj%(inj Some). unfold language_tables, bigrams, trigrams.
  cbn [freq_json gram_json]. rewrite !ngrams_grams by lia.
  set (tokens := process_text_to_tokens _). do 5 eexists. split_and!.
  - unfold len at 1 7. by rewrite Counter_length, length_sorted.
  - done.
  - unfold Counter. rewrite counter_update_sum. simpl. lia.
  - repeat constructor; cbn [fst snd]; try apply len_nonneg;
      etrans; try apply length_Counter_grams; lia.
Qed.

End counts.

(** ** The main loop *)

Section main_theorems.
Context `{Unicode}.
Implicit Types (path_exists : list N → bool) (read : list N → result (list (list N))).

Lemma main_loop_langs path_exists read (paths : dict (list N) (list N)) processed outs :
  foldM (λ processed '(lang, file_path),
           if path_exists file_path then
             out ← process_language (read file_path);
             Ok (processed ++ [(lang, out)])
           else Ok processed) processed paths = Ok outs →
  outs.*1 = processed.*1 ++ (filter (λ lp, path_exists lp.2 = true) paths).*1.
Proof.
  revert processed. induction paths as [|[lang path] paths IH]; intros processed; simpl.
  - intros <-%Ok_inj. by rewrite app_nil_r.
  - destruct (path_exists path) eqn:He.
    + rewrite filter_cons_True by done.
      destruct (process_language (read path)) as [out|]; [|done]. res_simpl.
      intros ->%IH. csimpl. by rewrite fmap_app, <- app_assoc.
    + rewrite filter_cons_False by (simpl; congruence). apply IH.
Qed.

(** C22: the main loop skips a language whose file does not exist and goes
    on: when reading each existing file gives its lines, or
    [FileNotFoundError], the run completes, and the languages processed are
    those of [FILE_PATHS] whose file exists, in the order of [FILE_PATHS]. *)
Theorem main_skips_missing path_exists read :
  (∀ path, path_exists path = true →
     is_ok (read path) ∨ read path = Raise FileNotFoundError) →
  ∃ outs, main path_exists read = Ok outs
    ∧ outs.*1 = (filter (λ lp, path_exists lp.2 = true) FILE_PATHS).*1.
Proof.
  intros Hread. destruct (main path_exists read) as [outs|e] eqn:Hmain.
  - exists outs. split; [done|]. by apply main_loop_langs in Hmain.
  - assert (is_ok (main path_exists read)) as Hok; [|by rewrite Hmain in Hok; apply not_is_ok_Raise in Hok].
    apply foldM_is_ok. intros processed [lang path] _.
    destruct (path_exists path) eqn:He; [|apply is_ok_Ok].
    destruct (process_language_is_ok (read path) (Hread path He)) as [out ->].
    apply is_ok_Ok.
Qed.

(** C30: an exception of reading other than [FileNotFoundError], a decoding
    error for instance, is not handled anywhere: it aborts the whole run,
    the languages that come after included. *)
Theorem main_read_error_aborts path_exists read lang path e :
  (lang, path) ∈ FILE_PATHS → path_exists path = true →
  read path = Raise e → e ≠ FileNotFoundError →
  ¬ is_ok (main path_exists read).
Proof.
  intros Hin He Hr Hne. apply (foldM_not_ok _ _ _ _ Hin). intros processed.
  rewrite He, Hr, process_language_Raise by done. apply not_is_ok_Raise.
Qed.

End main_theorems.

Lemma main_skips_missing_witness :
  ∃ outs,
    main (λ path, bool_decide (path = lit
            "extracted/english/eng_news_2024_10K/eng_news_2024_10K-sentences.txt"))
         (λ _, Ok [lit "1" ++ [9%N] ++ lit "A b a B c"]) = Ok outs
    ∧ outs.*1 = [lit "english"].
Proof.
  destruct (main_skips_missing
              (λ path, bool_decide (path = lit
                 "extracted/english/eng_news_2024_10K/eng_news_2024_10K-sentences.txt"))
              (λ _, Ok [lit "1" ++ [9%N] ++ lit "A b a B c"]))
    as (outs & Hmain & Houts); [intros path _; left; apply is_ok_Ok|].
  exists outs. split; [exact Hmain|]. rewrite Houts. by vm_compute.
Defined.

Lemma main_read_error_aborts_witness :
  ¬ is_ok (main (λ _, true) (λ _, Raise UnicodeDecodeError)).
Proof.
  apply (main_read_error_aborts (λ _, true) (λ _, Raise UnicodeDecodeError)
           (lit "english")
           (lit "extracted/english/eng_news_2024_10K/eng_news_2024_10K-sentences.txt")
           UnicodeDecodeError); [|done..].
  apply list_elem_of_further, list_elem_of_here.
Defined.

Lemma process_language_probabilities_witness :
  Forall (λ nt, Forall (λ kp : list N * Q, (0 <= kp.2 <= 1)%Q) nt.2)
         (prob_json example_files).
Proof. exact (process_language_probabilities _ _ process_language_ex). Defined.

Lemma vocabulary_bijection_witness :
  vocab_rev_json example_files
  = enumerate (sorted (nub (process_text_to_tokens
      (foldl read_line [] [lit "1" ++ [9%N] ++ lit "A b a B c"])))).
Proof.
  exact (proj1 (proj2 (proj2 (proj2 (vocabulary_bijection _ _ process_language_ex))))).
Defined.

Lemma freq_summary_consistent_witness :
  ∃ unigrams b t q p,
    freq_json example_files
    = [(lit "unigrams", 3); (lit "bigrams", b); (lit "trigrams", t);
       (lit "quadrigrams", q); (lit "pentagrams", p);
       (lit "total_tokens", 5); (lit "vocabulary_size", 3)]
    ∧ dict_get (gram_json example_files) 1 = Some unigrams
    ∧ sumZ (values unigrams) = 5
    ∧ Forall (λ nc, 0 ≤ nc.2 ≤ Z.max 0 (5 - nc.1 + 1)) [(2, b); (3, t); (4, q); (5, p)].
Proof. exact (freq_summary_consistent _ _ process_language_ex). Defined.
