(* ===== verification/Agreement.v ===== *)
(** * The two pipelines count alike

    amazigh/pipeline.py counts the grams of [build_ngrams] with [Counter];
    ngrams_tp.py counts the grams of nltk's sliding window with [FreqDist].
    On the same token sequence the count tables they write are the same. *)

From Stdlib Require Import QArith.
From stdpp Require Import prelude countable.
From S2P Require Import Prelude PyStr Counter Ngrams Probability Regex Tokenizer Normalizer Serializer Pipeline NgramsTp.

#[local] Open Scope Z_scope.

(** The two inputs: a corpus text for pipeline.py and the lines of a
    sentence file for ngrams_tp.py that give the same token sequence. *)
Definition same_tokens `{Unicode} (text : list N) (lines : list (list N)) : Prop :=
  tokenize (clean_text text) = process_text_to_tokens (foldl read_line [] lines).

Section agreement.
Implicit Types (tokens : list (list N)).

(** The unigram table of pipeline.py, keyed by the strings of the
    one-token grams, is the table of the tokens. *)
Lemma serialize_unigrams tokens :
  serialize (Counter (build_ngrams tokens 1)) = Counter tokens.
Proof.
  rewrite build_ngrams_grams by lia. change (Z.to_nat 1) with 1%nat.
  rewrite grams_1, (Counter_fmap_inj (λ t, [t])). unfold serialize.
  rewrite dict_comp_distinct.
  - rewrite <- list_fmap_compose. etrans; [|apply list_fmap_id].
    apply list_fmap_ext. by intros _ [w c] _.
  - rewrite <- list_fmap_compose.
    assert (uncurry (λ k (_ : Z), ngram_to_string k) ∘ prod_map (λ t, [t]) id
            <$> Counter tokens = keys (Counter tokens)) as ->.
    { apply list_fmap_ext. by intros _ [w c] _. }
    apply Counter_wf.
Qed.

Lemma table_ngrams tokens (k : nat) :
  (0 < k)%nat → table tokens (Z.of_nat k) = Counter (ngrams tokens k).
Proof.
  intros Hk. unfold table. rewrite build_ngrams_grams by lia.
  by rewrite Nat2Z.id, ngrams_grams.
Qed.

End agreement.

(** C13: on the same token sequence the two programs write the same count
    tables for the orders 1 to 5: [build_ngrams] with [Counter] and nltk's
    [ngrams] with [FreqDist] count alike, and both serialize alike. *)
Theorem pipelines_count_alike `{Unicode} `{NegLog F} text lines
    (out1 : corpus_files F) (out2 : language_files) :
  process_corpus (Ok text) = Ok out1 →
  process_language (Ok lines) = Ok (Some out2) →
  same_tokens text lines →
  counts_json out1 = gram_json out2.
Proof.
  rewrite process_corpus_eq, process_language_eq. cbv zeta.
  case_decide; [done|]. unfold same_tokens. intros <-%Ok_inj <-%Ok_inj%(inj Some) ->.
  unfold language_tables, bigrams, trigrams. cbn [counts_json gram_json].
  change (range_from 1 6) with [1; 2; 3; 4; 5]. cbn [fmap list_fmap].
  change 2 with (Z.of_nat 2). change 3 with (Z.of_nat 3).
  change 4 with (Z.of_nat 4). change 5 with (Z.of_nat 5).
  rewrite !table_ngrams by lia. unfold table. by rewrite serialize_unigrams.
Qed.

Lemma pipelines_count_alike_witness :
  ∃ out1, process_corpus (F := score) (Ok (lit "A b a B c")) = Ok out1
    ∧ counts_json out1 = gram_json example_files.
Proof.
  eexists. split; [apply process_corpus_eq|].
  by apply (pipelines_count_alike (lit "A b a B c") [lit "1" ++ [9%N] ++ lit "A b a B c"]
              _ _ (process_corpus_eq _) process_language_ex).
Defined.
